(** * Xbox Cloud Gaming installer: the shortcut-store and local-config engine

    A shallow embedding of [xbox-cloud-gaming-installer.py].  Python [bytes]
    are lists of [byte], Python [str] are lists of code points, the regular
    expressions of the script are matching functions written pattern by
    pattern, and the functions that touch the disk run in a small
    state-and-exception monad over a finite map from paths to file contents. *)

From Stdlib Require Import NArith ZArith List Ascii String Lia Bool.
From Stdlib Require Import Strings.Byte.
From Stdlib Require Import DecimalPos DecimalN.
From stdpp Require Import gmap strings list fin_maps.
Import ListNotations.

Local Open Scope N_scope.
Local Open Scope list_scope.

(** ** Python values *)

Abbreviation bytes := (list byte).
Abbreviation text := (list N).

(** A [bytes] literal of printable ASCII; control bytes are written [x00], [x01], ... *)
Definition bs (s : string) : bytes := list_byte_of_string s.

(** A [str] literal, one code point per character. *)
Definition ts (s : string) : text := map N_of_ascii (list_ascii_of_string s).

Definition byte_of_N (n : N) : byte :=
  match Byte.of_N n with Some c => c | None => x00 end.

Definition QUOTE : byte := x22.
Definition quote : N := 34.

Inductive exn : Type :=
| AttributeError
| OSError
| UnicodeEncodeError
| OverflowError
| EOFError.

Inductive result (A : Type) : Type :=
| Ret (a : A)
| Raise (e : exn).
Arguments Ret {A} a.
Arguments Raise {A} e.

Definition rbind {A B} (m : result A) (k : A -> result B) : result B :=
  match m with
  | Ret a => k a
  | Raise e => Raise e
  end.

Notation "x <- m ;; k" := (rbind m (fun x => k))
  (at level 100, m at next level, right associativity).

(** [str.encode] to UTF-8: lone surrogates cannot be encoded. *)
Definition utf8_char (c : N) : result bytes :=
  if c <? 0x80 then Ret [byte_of_N c]
  else if c <? 0x800 then
    Ret [byte_of_N (0xC0 + c / 64); byte_of_N (0x80 + c mod 64)]
  else if c <? 0x10000 then
    if (0xD800 <=? c) && (c <? 0xE000) then Raise UnicodeEncodeError
    else Ret [byte_of_N (0xE0 + c / 4096);
              byte_of_N (0x80 + (c / 64) mod 64);
              byte_of_N (0x80 + c mod 64)]
  else if c <? 0x110000 then
    Ret [byte_of_N (0xF0 + c / 262144);
         byte_of_N (0x80 + (c / 4096) mod 64);
         byte_of_N (0x80 + (c / 64) mod 64);
         byte_of_N (0x80 + c mod 64)]
  else Raise UnicodeEncodeError.

Fixpoint str_encode (s : text) : result bytes :=
  match s with
  | [] => Ret []
  | c :: r => x <- utf8_char c ;; y <- str_encode r ;; Ret (x ++ y)
  end.

(** A Python object that is either a [str] or a [bytes]; only [str] has an
    [encode] method. *)
Inductive pyval : Type :=
| PyStr (s : text)
| PyBytes (d : bytes).

Definition py_encode (v : pyval) : result bytes :=
  match v with
  | PyStr s => str_encode s
  | PyBytes _ => Raise AttributeError
  end.

(** ** CRC-32 (IEEE 802.3, reflected polynomial 0xEDB88320) *)

Definition crc32_shift (c : N) : N :=
  if N.testbit c 0 then N.lxor (N.shiftr c 1) 0xEDB88320 else N.shiftr c 1.

Definition crc32_update (crc : N) (x : byte) : N :=
  N.iter 8 crc32_shift (N.lxor crc (Byte.to_N x)).

Definition crc32 (data : bytes) : N :=
  N.lxor (fold_left crc32_update data 0xFFFFFFFF) 0xFFFFFFFF.

(** The standard-library modules that concern the checksum.  [crc32] is a
    function of [zlib] and of [binascii]; [hashlib] has hash constructors
    only, and looking [crc32] up in it raises [AttributeError]. *)
Inductive pymodule : Type := hashlib | zlib | binascii.

Definition getattr_crc32 (m : pymodule) : result (bytes -> N) :=
  match m with
  | hashlib => Raise AttributeError
  | zlib | binascii => Ret crc32
  end.

(** ** Identifier deriver *)

(** Lines 114-120. *)
Definition generate_app_id (exe_path app_name : pyval) : result N :=
  p <- py_encode exe_path ;;
  n <- py_encode app_name ;;
  let uniqueName := p ++ n in
  f <- getattr_crc32 hashlib ;;
  let app_id := N.land (f uniqueName) 0xFFFFFFFF in
  Ret app_id.

(** What the documentation of [generate_app_id] describes: the CRC-32 of the
    two encodings, one after the other. *)
Definition derive_app_id_spec (exe_path app_name : text) : result N :=
  p <- str_encode exe_path ;;
  n <- str_encode app_name ;;
  Ret (N.land (crc32 (p ++ n)) 0xFFFFFFFF).

#[global] Instance byte_eq_dec : EqDecision byte := Byte.byte_eq_dec.

(** ** Sequence operations shared by [bytes] and [str] *)

Section Seq.
Context {A : Type} `{EqDecision A}.

(** [l.startswith(pat)] *)
Fixpoint starts_with (pat l : list A) : bool :=
  match pat, l with
  | [], _ => true
  | _ :: _, [] => false
  | p :: pat', x :: l' => bool_decide (p = x) && starts_with pat' l'
  end.

(** [l.endswith(pat)] *)
Definition ends_with (pat l : list A) : bool :=
  starts_with (rev pat) (rev l).

(** [pat in l] *)
Fixpoint contains (pat l : list A) : bool :=
  starts_with pat l ||
  match l with
  | [] => false
  | _ :: l' => contains pat l'
  end.

(** [l.find(pat)], with [None] for -1 *)
Fixpoint find_at (pat : list A) (pos : nat) (l : list A) : option nat :=
  if starts_with pat l then Some pos
  else match l with
       | [] => None
       | _ :: l' => find_at pat (S pos) l'
       end.

Definition find (pat l : list A) : option nat := find_at pat 0 l.

(** [l.rfind(pat)]: the last index at which [pat] starts, or -1 *)
Fixpoint rfind_at (pat : list A) (pos : nat) (acc : Z) (l : list A) : Z :=
  let acc' := if starts_with pat l then Z.of_nat pos else acc in
  match l with
  | [] => acc'
  | _ :: l' => rfind_at pat (S pos) acc' l'
  end.

Definition rfind (pat l : list A) : Z := rfind_at pat 0 (-1)%Z l.

(** [l[i:j]] for indices that are not negative *)
Definition slice (i j : nat) (l : list A) : list A := take (j - i) (drop i l).

(** [l.replace(old, new)]: every occurrence, left to right, never
    overlapping.  [skip] counts the elements of a replaced occurrence that
    are still to be passed over. *)
Fixpoint replace_skip (old new : list A) (skip : nat) (l : list A) : list A :=
  match l with
  | [] => []
  | x :: l' =>
      match skip with
      | S k => replace_skip old new k l'
      | O =>
          if starts_with old l
          then new ++ replace_skip old new (length old - 1) l'
          else x :: replace_skip old new 0 l'
      end
  end.

Definition replace (old new l : list A) : list A :=
  match old with
  | [] => new ++ flat_map (fun x => x :: new) l
  | _ :: _ => replace_skip old new 0 l
  end.

(** [l.replace(old, new, 1)] *)
Definition replace_first (old new l : list A) : list A :=
  match find old l with
  | Some i => take i l ++ new ++ drop (i + length old) l
  | None => l
  end.

(** The longest prefix whose elements satisfy [p], and the rest. *)
Fixpoint span (p : A -> bool) (l : list A) : list A * list A :=
  match l with
  | [] => ([], [])
  | x :: l' =>
      if p x then let (g, r) := span p l' in (x :: g, r) else ([], l)
  end.

Definition strip (pat l : list A) : option (list A) :=
  if starts_with pat l then Some (drop (length pat) l) else None.

(** *** Regular-expression drivers

    A pattern is a function that tries to match at the head of its input and
    returns the length of the match with its group 1. *)

Definition pattern : Type := list A -> option (nat * list A).

(** [pattern.search(l)]: the leftmost position at which the pattern
    matches, as (start, length, group 1). *)
Fixpoint re_search_at (p : pattern) (pos : nat) (l : list A)
  : option (nat * nat * list A) :=
  match p l with
  | Some (n, g) => Some (pos, n, g)
  | None =>
      match l with
      | [] => None
      | _ :: l' => re_search_at p (S pos) l'
      end
  end.

Definition re_search (p : pattern) (l : list A) : option (nat * nat * list A) :=
  re_search_at p 0 l.

(** [pattern.finditer(l)]: all matches, left to right, never overlapping. *)
Fixpoint re_finditer_at (p : pattern) (skip pos : nat) (l : list A)
  : list (nat * nat * list A) :=
  match skip with
  | S k =>
      match l with
      | [] => []
      | _ :: l' => re_finditer_at p k (S pos) l'
      end
  | O =>
      match p l with
      | Some (n, g) =>
          (pos, n, g) ::
          match l with
          | [] => []
          | _ :: l' => re_finditer_at p (n - 1) (S pos) l'
          end
      | None =>
          match l with
          | [] => []
          | _ :: l' => re_finditer_at p 0 (S pos) l'
          end
      end
  end.

Definition re_finditer (p : pattern) (l : list A) : list (nat * nat * list A) :=
  re_finditer_at p 0 0 l.

(** [pattern.sub(template, l)], the template given as a function of group 1. *)
Fixpoint re_sub_at (p : pattern) (template : list A -> list A) (skip : nat)
  (l : list A) : list A :=
  match l with
  | [] => []
  | x :: l' =>
      match skip with
      | S k => re_sub_at p template k l'
      | O =>
          match p l with
          | Some (n, g) => template g ++ re_sub_at p template (n - 1) l'
          | None => x :: re_sub_at p template 0 l'
          end
      end
  end.

Definition re_sub (p : pattern) (template : list A -> list A) (l : list A)
  : list A := re_sub_at p template 0 l.

End Seq.

(** ** Integers and their encodings *)

(** [int.from_bytes], little-endian *)
Definition int_from_bytes (d : bytes) : N :=
  fold_right (fun x acc => Byte.to_N x + 256 * acc) 0 d.

(** [n.to_bytes(4)], little-endian *)
Definition int_to_bytes4 (n : N) : result bytes :=
  if n <? 0x100000000
  then Ret [byte_of_N (n mod 256); byte_of_N ((n / 256) mod 256);
            byte_of_N ((n / 65536) mod 256); byte_of_N ((n / 16777216) mod 256)]
  else Raise OverflowError.

Fixpoint uint_digits (d : Decimal.uint) : list N :=
  match d with
  | Decimal.Nil => []
  | Decimal.D0 r => 48 :: uint_digits r
  | Decimal.D1 r => 49 :: uint_digits r
  | Decimal.D2 r => 50 :: uint_digits r
  | Decimal.D3 r => 51 :: uint_digits r
  | Decimal.D4 r => 52 :: uint_digits r
  | Decimal.D5 r => 53 :: uint_digits r
  | Decimal.D6 r => 54 :: uint_digits r
  | Decimal.D7 r => 55 :: uint_digits r
  | Decimal.D8 r => 56 :: uint_digits r
  | Decimal.D9 r => 57 :: uint_digits r
  end.

(** [str(n)] *)
Definition str_of_int (n : N) : text := uint_digits (N.to_uint n).

(** [str(n).encode()] *)
Definition bytes_of_int (n : N) : bytes := map byte_of_N (str_of_int n).

Definition is_digit (x : byte) : bool :=
  (48 <=? Byte.to_N x) && (Byte.to_N x <=? 57).

(** [int(d)] for a run of ASCII digits *)
Definition int_of_digits (d : bytes) : N :=
  fold_left (fun acc x => 10 * acc + (Byte.to_N x - 48)) d 0.

(** ** Binary shortcut store codec *)

Definition LAUNCH_OPTIONS : text :=
  ts "--window-size=1024,640 --force-device-scale-factor=1.25 --device-scale-factor=1.25 --kiosk "
  ++ [quote] ++ ts "https://www.xbox.com/play" ++ [quote].

(** [LAUNCH_OPTIONS.encode] to UTF-8 *)
Definition LAUNCH_OPTIONS_utf8 : bytes :=
  bs "--window-size=1024,640 --force-device-scale-factor=1.25 --device-scale-factor=1.25 --kiosk "
  ++ [QUOTE] ++ bs "https://www.xbox.com/play" ++ [QUOTE].

(** The option tested at line 195: --kiosk and the quoted URL. *)
Definition KIOSK : bytes :=
  bs "--kiosk " ++ [QUOTE] ++ bs "https://www.xbox.com/play" ++ [QUOTE].

Definition APPNAME : bytes := x01 :: bs "AppName" ++ [x00].
Definition APPID : bytes := x02 :: bs "appid" ++ [x00].
Definition LAUNCHOPTIONS : bytes := x01 :: bs "LaunchOptions" ++ [x00].
Definition SHORTCUTS : bytes := x00 :: bs "shortcuts" ++ [x00].
Definition BSBS : bytes := [x08; x08].

Definition edge_names : list bytes := [bs "Microsoft Edge"; bs "Edge"].

(** The pattern [\x01AppName\x00(Microsoft Edge|Edge)\x00], lines 131 and 170. *)
Definition app_name_pattern (l : bytes) : option (nat * bytes) :=
  match strip APPNAME l with
  | Some r =>
      match List.find (fun n => starts_with (n ++ [x00]) r) edge_names with
      | Some n => Some ((length APPNAME + length n + 1)%nat, n)
      | None => None
      end
  | None => None
  end.

(** The dot of a pattern compiled without DOTALL: any byte but line feed. *)
Definition dot (x : byte) : bool := negb (bool_decide (x = x0a)).

(** The pattern [\x02appid\x00(.{4})], line 133. *)
Definition app_id_pattern (l : bytes) : option (nat * bytes) :=
  match strip APPID l with
  | Some r =>
      let g := take 4 r in
      if (length g =? 4)%nat && forallb dot g
      then Some ((length APPID + 4)%nat, g)
      else None
  | None => None
  end.

(** The pattern of lines 188-190: SOH, LaunchOptions, NUL, then group 1,
    the longest run of bytes other than NUL, then NUL. *)
Definition launch_options_pattern (l : bytes) : option (nat * bytes) :=
  match strip LAUNCHOPTIONS l with
  | Some r =>
      let (g, r') := span (fun x => negb (bool_decide (x = x00))) r in
      match r' with
      | _ :: _ => Some ((length LAUNCHOPTIONS + length g + 1)%nat, g)
      | [] => None
      end
  | None => None
  end.

(** The pattern [\x00(\d+)\x00], line 271. *)
Definition index_pattern (l : bytes) : option (nat * bytes) :=
  match l with
  | x :: r =>
      if bool_decide (x = x00) then
        let (g, r') := span is_digit r in
        match g, r' with
        | _ :: _, y :: _ =>
            if bool_decide (y = x00) then Some ((length g + 2)%nat, g) else None
        | _, _ => None
        end
      else None
  | [] => None
  end.

(** The loop of [find_edge_app_id], lines 137-150: for each name match in
    turn, the first appid field of the 200 bytes before it. *)
Fixpoint first_app_id (content : bytes) (matches : list (nat * nat * bytes))
  : option N :=
  match matches with
  | [] => None
  | (start, _, _) :: rest =>
      let start_pos := (start - 200)%nat in
      let segment := slice start_pos start content in
      match re_search app_id_pattern segment with
      | Some (_, _, app_id_bytes) => Some (int_from_bytes app_id_bytes)
      | None => first_app_id content rest
      end
  end.

(** Lines 131-150 of [find_edge_app_id], on the bytes read from the file. *)
Definition locate_entry (content : bytes) : option N :=
  first_app_id content (re_finditer app_name_pattern content).

(** The AppName field of an entry called [name]. *)
Definition app_name_field (name : bytes) : bytes := APPNAME ++ name ++ [x00].

(** The LaunchOptions field holding [options]. *)
Definition launch_options_field (options : bytes) : bytes :=
  LAUNCHOPTIONS ++ options ++ [x00].

(** Lines 175-180: the rename done for one match. *)
Definition rename_step (new_name : bytes) (content : bytes)
  (m : nat * nat * bytes) : bytes :=
  let '(_, _, old_name) := m in
  replace (app_name_field old_name) (app_name_field new_name) content.

(** The renames of the loop of [modify_shortcuts_vdf] on their own: one
    replacement for each match found in the content as it was read. *)
Definition rename_entry (new_name : bytes) (content : bytes) : bytes :=
  fold_left (rename_step new_name) (re_finditer app_name_pattern content) content.

(** Lines 182-203: the launch options appended for the match at [start]. *)
Definition append_launch_options (content : bytes) (start : nat) : bytes :=
  let start_pos := (start - 200)%nat in
  let entry_segment := slice start_pos (start + 500)%nat content in
  match re_search launch_options_pattern entry_segment with
  | Some (_, _, current_options) =>
      if negb (contains KIOSK current_options) then
        let new_options := current_options ++ bs " " ++ LAUNCH_OPTIONS_utf8 in
        replace (launch_options_field current_options)
                (launch_options_field new_options) content
      else content
  | None => content
  end.

(** The body of the loop, lines 174-203. *)
Definition modify_step (new_name : text) (acc : result bytes)
  (m : nat * nat * bytes) : result bytes :=
  content <- acc ;;
  n <- str_encode new_name ;;
  let content := rename_step n content m in
  let '(start, _, _) := m in
  Ret (append_launch_options content start).

(** Lines 170-203 of [modify_shortcuts_vdf], on the bytes read from the file. *)
Definition modify_content (content : bytes) (new_name : text) : result bytes :=
  fold_left (modify_step new_name) (re_finditer app_name_pattern content)
            (Ret content).

Definition default_new_name : text := ts "Xbox Cloud Gaming (Beta)".

(** Lines 270-273: one more than the largest positional index, or 0. *)
Definition next_index (content : bytes) : bytes :=
  let indices :=
    map (fun m : nat * nat * bytes => int_of_digits (snd m))
        (re_finditer index_pattern content) in
  match indices with
  | [] => bs "0"
  | _ :: _ => bytes_of_int (fold_right N.max 0 indices + 1)
  end.

(** Lines 281-313, with the strings of the entry as arguments. *)
Definition build_entry (next_index : bytes) (app_id : N)
  (edge_name edge_exe start_dir edge_launch_args flatpak_app_id : bytes)
  : result bytes :=
  a <- int_to_bytes4 app_id ;;
  Ret ([x00]
       ++ next_index
       ++ [x00]
       ++ (x02 :: bs "appid" ++ [x00])
       ++ a
       ++ [x00; x00; x00; x00]
       ++ (x01 :: bs "AppName" ++ [x00])
       ++ edge_name
       ++ [x00]
       ++ (x01 :: bs "Exe" ++ [x00; QUOTE])
       ++ edge_exe
       ++ [QUOTE; x00]
       ++ (x01 :: bs "StartDir" ++ [x00; QUOTE])
       ++ start_dir
       ++ [QUOTE; x00]
       ++ (x01 :: bs "icon" ++ [x00; x00])
       ++ (x01 :: bs "ShortcutPath" ++ [x00; x00])
       ++ (x01 :: bs "LaunchOptions" ++ [x00])
       ++ edge_launch_args
       ++ [x00]
       ++ (x02 :: bs "IsHidden" ++ [x00; x00; x00; x00; x00; x00])
       ++ (x02 :: bs "AllowDesktopConfig" ++ [x00; x01; x00; x00; x00])
       ++ (x02 :: bs "AllowOverlay" ++ [x00; x01; x00; x00; x00])
       ++ (x02 :: bs "OpenVR" ++ [x00; x00; x00; x00; x00])
       ++ (x02 :: bs "Devkit" ++ [x00; x00; x00; x00; x00])
       ++ (x01 :: bs "DevkitGameID" ++ [x00; x00])
       ++ (x01 :: bs "DevkitOverrideAppID" ++ [x00; x00])
       ++ (x02 :: bs "LastPlayTime" ++ [x00; x00; x00; x00; x00])
       ++ (x01 :: bs "FlatpakAppID" ++ [x00] ++ flatpak_app_id ++ [x00])
       ++ (x00 :: bs "tags" ++ [x00])
       ++ [x08; x08]).

(** Lines 319-352. *)
Definition insert_entry (content new_entry : bytes) : bytes :=
  if contains SHORTCUTS content then
    if ends_with BSBS content then
      let content := take (length content - 2) content in
      content ++ new_entry ++ BSBS
    else
      let last_bs_pos := rfind [x08] content in
      if (0 <? last_bs_pos)%Z then
        take (Z.to_nat last_bs_pos) content ++ new_entry
          ++ drop (Z.to_nat last_bs_pos) content
      else content ++ new_entry
  else SHORTCUTS ++ new_entry ++ BSBS.

(** The constants of [add_shortcut_to_steam], lines 253-255, encoded. *)
Definition edge_exe : bytes := bs "/usr/bin/flatpak".
Definition edge_launch_args : bytes := bs "run com.microsoft.Edge".
Definition edge_name : bytes := bs "Microsoft Edge".
(** [os.path.dirname(edge_exe)] *)
Definition edge_start_dir : bytes := bs "/usr/bin".
Definition edge_flatpak_id : bytes := bs "com.microsoft.Edge".

Definition build_edge_entry (next_index : bytes) (app_id : N) : result bytes :=
  build_entry next_index app_id edge_name edge_exe edge_start_dir
              edge_launch_args edge_flatpak_id.

(** ** Text config section patcher *)

Definition lbrace : N := 123.
Definition rbrace : N := 125.
Definition backslash : N := 92.

(** The class [\s] of a [str] pattern: the characters for which
    [str.isspace] holds. *)
Definition is_space (c : N) : bool :=
  ((9 <=? c) && (c <=? 13)) || ((28 <=? c) && (c <=? 32))
  || (c =? 0x85) || (c =? 0xA0) || (c =? 0x1680)
  || ((0x2000 <=? c) && (c <=? 0x200A))
  || (c =? 0x2028) || (c =? 0x2029) || (c =? 0x202F) || (c =? 0x205F)
  || (c =? 0x3000).

(** The first alternative, in order, after which the rest of the pattern
    matches; [rest] returns the length it consumed. *)
Fixpoint alternatives (alts : list text) (rest : text -> option nat) (l : text)
  : option (nat * text) :=
  match alts with
  | [] => None
  | k :: alts' =>
      match strip k l with
      | Some r =>
          match rest r with
          | Some n => Some ((length k + n)%nat, k)
          | None => alternatives alts' rest l
          end
      | None => alternatives alts' rest l
      end
  end.

(** What follows the key in the pattern of line 463.  The pattern is a raw
    f-string, so its two backslashes reach the regular-expression compiler
    as an escaped backslash followed by [s*]: a closing quote, one backslash
    character, any number of letters s, an opening brace. *)
Definition section_rest (l : text) : option nat :=
  match strip [quote; backslash] l with
  | Some r =>
      let (g, r') := span (fun c => c =? 115) r in
      match r' with
      | c :: _ => if c =? lbrace then Some (2 + length g + 1)%nat else None
      | [] => None
      end
  | None => None
  end.

(** Line 462-464: a quote, the decimal appid or Non-Steam-App_ and the
    decimal appid, then [section_rest]. *)
Definition app_section_pattern (edge_app_id : N) (l : text)
  : option (nat * text) :=
  match strip [quote] l with
  | Some r =>
      match alternatives [str_of_int edge_app_id;
                          ts "Non-Steam-App_" ++ str_of_int edge_app_id]
                         section_rest r with
      | Some (n, g) => Some (S n, g)
      | None => None
      end
  | None => None
  end.

(** Lines 475-482: the scan for the brace that closes the section. *)
Fixpoint brace_scan (brace_count : Z) (i : nat) (section_end : nat) (l : text)
  : nat :=
  match l with
  | [] => section_end
  | c :: l' =>
      if c =? lbrace then brace_scan (brace_count + 1)%Z (S i) section_end l'
      else if c =? rbrace then
        let brace_count := (brace_count - 1)%Z in
        if (brace_count =? 0)%Z then (i + 1)%nat
        else brace_scan brace_count (S i) section_end l'
      else brace_scan brace_count (S i) section_end l'
  end.

(** Lines 465-482: the bounds of the section of [edge_app_id]. *)
Definition locate_section (content : text) (edge_app_id : N)
  : option (nat * nat) :=
  match re_search (app_section_pattern edge_app_id) content with
  | Some (section_start, n, _) =>
      let from := (section_start + n)%nat in
      Some (section_start, brace_scan 1 from section_start (drop from content))
  | None => None
  end.

(** The pattern of line 491: the quoted key LaunchOptions, [\s*], and a
    quoted value without quotes, which is group 1. *)
Definition launch_options_text_pattern (l : text) : option (nat * text) :=
  match strip ([quote] ++ ts "LaunchOptions" ++ [quote]) l with
  | Some r =>
      let (w, r1) := span is_space r in
      match r1 with
      | c :: r2 =>
          if c =? quote then
            let (g, r3) := span (fun c => negb (c =? quote)) r2 in
            match r3 with
            | _ :: _ => Some ((15 + length w + 1 + length g + 1)%nat, g)
            | [] => None
            end
          else None
      | [] => None
      end
  | None => None
  end.

(** The replacement template of line 492 applied to group 1. *)
Definition launch_options_template (g : text) : text :=
  [quote] ++ ts "LaunchOptions" ++ [quote] ++ ts " " ++ [quote]
  ++ g ++ ts " " ++ LAUNCH_OPTIONS ++ [quote].

(** Lines 488-499. *)
Definition patch_launch_options (section : text) : text :=
  if contains ([quote] ++ ts "LaunchOptions" ++ [quote]) section then
    re_sub launch_options_text_pattern launch_options_template section
  else
    replace_first [lbrace]
      ([lbrace; 10; 9; 9; quote] ++ ts "LaunchOptions" ++ [quote; 9; 9; quote]
       ++ LAUNCH_OPTIONS ++ [quote])
      section.

(** Lines 465-502 of [update_localconfig_vdf], on the text read from the
    file: the updated text, or [None] when the section is not found. *)
Definition update_content (content : text) (edge_app_id : N) : option text :=
  match locate_section content edge_app_id with
  | Some (section_start, section_end) =>
      let section := slice section_start section_end content in
      let updated_section := patch_launch_options section in
      Some (take section_start content ++ updated_section
            ++ drop section_end content)
  | None => None
  end.

(** The section pattern the specification describes: the key, optional
    white space as in the pattern of line 491, an opening brace. *)
Definition section_rest_spec (l : text) : option nat :=
  match strip [quote] l with
  | Some r =>
      let (g, r') := span is_space r in
      match r' with
      | c :: _ => if c =? lbrace then Some (1 + length g + 1)%nat else None
      | [] => None
      end
  | None => None
  end.

Definition app_section_pattern_spec (edge_app_id : N) (l : text)
  : option (nat * text) :=
  match strip [quote] l with
  | Some r =>
      match alternatives [str_of_int edge_app_id;
                          ts "Non-Steam-App_" ++ str_of_int edge_app_id]
                         section_rest_spec r with
      | Some (n, g) => Some (S n, g)
      | None => None
      end
  | None => None
  end.

Definition locate_section_spec (content : text) (edge_app_id : N)
  : option (nat * nat) :=
  match re_search (app_section_pattern_spec edge_app_id) content with
  | Some (section_start, n, _) =>
      let from := (section_start + n)%nat in
      Some (section_start, brace_scan 1 from section_start (drop from content))
  | None => None
  end.

(** ** Files, faults and exceptions

    The disk is a finite map from paths to contents.  Reading and writing a
    file may fail with [OSError]; which of them fail is decided by the list
    [faults], one entry for each read or write in turn ([None]: no fault,
    [Some k]: the call fails, a write after [k] bytes).  A copy may fail
    too: the list [copy_faults] has one entry for each copy of a file that
    exists, in turn ([None]: no fault, [CopyDenied]: the copy fails before
    the destination is opened, [CopyCut k]: it fails after [k] bytes have
    reached the destination).  The trace records what was done to the
    disk. *)

Inductive event : Type :=
| EvCopy (src dst : string)
| EvCopyCut (src dst : string) (data : bytes)
| EvRead (path : string)
| EvWrite (path : string) (data : bytes)
| EvLogError (e : exn).

Inductive copy_fault : Type :=
| CopyDenied
| CopyCut (k : nat).

Record world : Type := World {
  files : gmap string bytes;
  faults : list (option nat);
  copy_faults : list (option copy_fault);
  trace : list event
}.

Definition IO (A : Type) : Type := world -> result A * world.

Definition io_ret {A} (a : A) : IO A := fun w => (Ret a, w).
Definition io_raise {A} (e : exn) : IO A := fun w => (Raise e, w).
Definition io_bind {A B} (m : IO A) (k : A -> IO B) : IO B :=
  fun w => match m w with
           | (Ret a, w') => k a w'
           | (Raise e, w') => (Raise e, w')
           end.
Definition io_lift {A} (r : result A) : IO A := fun w => (r, w).

Notation "x <~ m ;; k" := (io_bind m (fun x => k))
  (at level 100, m at next level, right associativity).
Notation "m ;;; k" := (io_bind m (fun _ => k))
  (at level 100, right associativity).

(** [try: body except Exception as e: handler e] *)
Definition try_except {A} (body : IO A) (handler : exn -> IO A) : IO A :=
  fun w => match body w with
           | (Ret a, w') => (Ret a, w')
           | (Raise e, w') => handler e w'
           end.

Definition emit (ev : event) : IO unit :=
  fun w => (Ret tt, World (files w) (faults w) (copy_faults w) (trace w ++ [ev])).

Definition next_fault : IO (option nat) :=
  fun w => match faults w with
           | [] => (Ret None, w)
           | f :: fs => (Ret f, World (files w) fs (copy_faults w) (trace w))
           end.

Definition next_copy_fault : IO (option copy_fault) :=
  fun w => match copy_faults w with
           | [] => (Ret None, w)
           | f :: fs => (Ret f, World (files w) (faults w) fs (trace w))
           end.

Definition set_file (path : string) (data : bytes) : IO unit :=
  fun w => (Ret tt, World (<[path := data]> (files w)) (faults w) (copy_faults w)
                          (trace w)).

(** [os.path.exists(path)] *)
Definition path_exists (path : string) : IO bool :=
  fun w => (Ret (bool_decide (is_Some (files w !! path))), w).

(** [shutil.copy2(src, dst)] *)
Definition copy2 (src dst : string) : IO unit :=
  fun w => match files w !! src with
           | Some data =>
               if bool_decide (src = dst) then (Raise OSError, w)
               else
                 (f <~ next_copy_fault ;;
                  match f with
                  | None => set_file dst data ;;; emit (EvCopy src dst)
                  | Some CopyDenied => io_raise OSError
                  | Some (CopyCut k) =>
                      set_file dst (take k data) ;;;
                      emit (EvCopyCut src dst (take k data)) ;;;
                      io_raise OSError
                  end) w
           | None => (Raise OSError, w)
           end.

(** [open(path, "rb").read()] *)
Definition read_file (path : string) : IO bytes :=
  f <~ next_fault ;;
  match f with
  | Some _ => io_raise OSError
  | None =>
      fun w => match files w !! path with
               | Some data => (emit (EvRead path) ;;; io_ret data) w
               | None => (Raise OSError, w)
               end
  end.

(** [open(path, "wb").write(data)] *)
Definition write_file (path : string) (data : bytes) : IO unit :=
  f <~ next_fault ;;
  match f with
  | Some k =>
      set_file path (take k data) ;;; emit (EvWrite path (take k data)) ;;;
      io_raise OSError
  | None => set_file path data ;;; emit (EvWrite path data)
  end.

(** [open(path, "w", encoding="utf-8").write(s)]: the file is truncated
    when it is opened, before the text is encoded. *)
Definition write_text (path : string) (s : text) : IO unit :=
  match str_encode s with
  | Ret data => write_file path data
  | Raise e => set_file path [] ;;; emit (EvWrite path []) ;;; io_raise e
  end.

(** [log(message)], lines 37-39: [print] encodes the message for the
    standard output, taken to be UTF-8, and raises where the message cannot
    be encoded.  The calls of [log] whose message is made of literals,
    numbers, paths and the text of an exception always return; they are
    left out of the operations below. *)
Definition log (message : text) : IO unit :=
  io_lift (_ <- str_encode message ;; Ret tt).

(** [os.path.join(a, b)] on POSIX *)
Definition path_join (a p : string) : string :=
  if String.prefix "/" p then p
  else if (String.eqb a "" || String.eqb (String.substring (String.length a - 1) 1 a) "/")%bool
       then (a +:+ p)%string
       else (a +:+ "/" +:+ p)%string.

(** ** The operations on the documents *)

Section Installer.

(** The Steam userdata directory, the decoder of
    [open(path, "r", encoding="utf-8", errors="ignore")], and the prompt
    [input(...)] of lines 522 and 538, which returns when a line is entered
    and raises at the end of the input. *)
Variable USERDATA_DIR : string.
Variable utf8_decode : bytes -> text.
Variable input : IO unit.

Definition read_text (path : string) : IO text :=
  data <~ read_file path ;; io_ret (utf8_decode data).

(** Lines 123-153. *)
Definition find_edge_app_id (shortcuts_vdf : string) : IO (option N) :=
  try_except
    (content <~ read_file shortcuts_vdf ;;
     io_ret (locate_entry content))
    (fun e => emit (EvLogError e) ;;; io_ret None).

(** The handlers of lines 211-216, 364-377 and 525-529. *)
Definition restore_backup (backup_file document : string) : IO unit :=
  ex <~ path_exists backup_file ;;
  if ex then copy2 backup_file document else io_ret tt.

(** Lines 156-216.  The [log] of line 203 prints a name that line 179 has
    just encoded; the one of line 209 prints the name whether or not the
    loop ran. *)
Definition modify_shortcuts_vdf (shortcuts_vdf : string) (edge_app_id : N)
  (new_name : text) : IO bool :=
  let backup_file := (shortcuts_vdf +:+ ".bak")%string in
  try_except
    (copy2 shortcuts_vdf backup_file ;;;
     content <~ read_file shortcuts_vdf ;;
     content <~ io_lift (modify_content content new_name) ;;
     write_file shortcuts_vdf content ;;;
     log (ts "Updated shortcuts.vdf - renamed Edge to '" ++ new_name ++ ts "'") ;;;
     io_ret true)
    (fun e =>
       emit (EvLogError e) ;;;
       restore_backup backup_file shortcuts_vdf ;;;
       io_ret false).

(** Lines 219-377.  [debug_mode] is the --debug flag and [flatpak_info] the
    outcome of the flatpak query: [None] when [run_command] returned
    nothing, else its return code. *)
Definition add_shortcut_to_steam (debug_mode : bool) (flatpak_info : option Z)
  (shortcuts_vdf : string) (user_id : string) : IO bool :=
  let backup_file := (shortcuts_vdf +:+ ".bak")%string in
  try_except
    (copy2 shortcuts_vdf backup_file ;;;
     (if debug_mode then read_file shortcuts_vdf ;;; io_ret tt else io_ret tt) ;;;
     match flatpak_info with
     | Some 0%Z =>
         app_id <~ io_lift (generate_app_id (PyBytes edge_exe) (PyBytes edge_name)) ;;
         content <~ read_file shortcuts_vdf ;;
         new_entry <~ io_lift (build_edge_entry (next_index content) app_id) ;;
         write_file shortcuts_vdf (insert_entry content new_entry) ;;;
         io_ret true
     | _ => io_ret false
     end)
    (fun e =>
       emit (EvLogError e) ;;;
       restore_backup backup_file shortcuts_vdf ;;;
       io_ret false).

(** Lines 440-539. *)
Definition update_localconfig_vdf (user_id : option string)
  (edge_app_id : option N) : IO bool :=
  match user_id, edge_app_id with
  | Some user_id, Some edge_app_id =>
      if String.eqb user_id "" || (edge_app_id =? 0) then io_ret false
      else
        let localconfig_path :=
          path_join (path_join (path_join USERDATA_DIR user_id) "config")
                    "localconfig.vdf" in
        let backup_file := (localconfig_path +:+ ".bak")%string in
        ex <~ path_exists localconfig_path ;;
        if negb ex then io_ret false
        else
          try_except
            (copy2 localconfig_path backup_file ;;;
             content <~ read_text localconfig_path ;;
             match update_content content edge_app_id with
             | Some content => write_text localconfig_path content ;;; io_ret true
             | None => input ;;; io_ret true
             end)
            (fun e =>
               emit (EvLogError e) ;;;
               restore_backup backup_file localconfig_path ;;;
               input ;;;
               io_ret true)
  | _, _ => io_ret false
  end.

End Installer.

(** The three operations that rewrite a document, and the document of each. *)
Inductive operation : Type :=
| OpModify (shortcuts_vdf : string) (edge_app_id : N) (new_name : text)
| OpAdd (debug_mode : bool) (flatpak_info : option Z)
        (shortcuts_vdf : string) (user_id : string)
| OpUpdate (user_id : string) (edge_app_id : N).

Definition document (USERDATA_DIR : string) (op : operation) : string :=
  match op with
  | OpModify shortcuts_vdf _ _ => shortcuts_vdf
  | OpAdd _ _ shortcuts_vdf _ => shortcuts_vdf
  | OpUpdate user_id _ =>
      path_join (path_join (path_join USERDATA_DIR user_id) "config")
                "localconfig.vdf"
  end.

Definition run (USERDATA_DIR : string) (utf8_decode : bytes -> text)
  (input : IO unit) (op : operation) : IO bool :=
  match op with
  | OpModify shortcuts_vdf edge_app_id new_name =>
      modify_shortcuts_vdf shortcuts_vdf edge_app_id new_name
  | OpAdd debug_mode flatpak_info shortcuts_vdf user_id =>
      add_shortcut_to_steam debug_mode flatpak_info shortcuts_vdf user_id
  | OpUpdate user_id edge_app_id =>
      update_localconfig_vdf USERDATA_DIR utf8_decode input (Some user_id)
                             (Some edge_app_id)
  end.

Definition backup_of (doc : string) : string := (doc +:+ ".bak")%string.



(** The last thing done was to copy the backup over the document. *)
Definition restored_last (doc : string) (evs : list event) : Prop :=
  exists before, evs = before ++ [EvCopy (backup_of doc) doc].

(** ** The operations as the specification words them *)

Definition object_start (name : bytes) : bytes := x00 :: name ++ [x00].
Definition string_field (name value : bytes) : bytes :=
  x01 :: name ++ [x00] ++ value ++ [x00].
Definition int32_field (name : bytes) (le4 : bytes) : bytes :=
  x02 :: name ++ [x00] ++ le4.
Definition quoted (s : bytes) : bytes := [QUOTE] ++ s ++ [QUOTE].
Definition int32_zero : bytes := [x00; x00; x00; x00].
Definition int32_one : bytes := [x01; x00; x00; x00].

(** The entry as section 4.3 lists it: each field once, each integer in
    four bytes. *)
Definition entry_layout_spec (index app_id_le4 name exe start_dir
  launch_options package_id : bytes) : bytes :=
  object_start index
  ++ int32_field (bs "appid") app_id_le4
  ++ string_field (bs "AppName") name
  ++ string_field (bs "Exe") (quoted exe)
  ++ string_field (bs "StartDir") (quoted start_dir)
  ++ string_field (bs "icon") []
  ++ string_field (bs "ShortcutPath") []
  ++ string_field (bs "LaunchOptions") launch_options
  ++ int32_field (bs "IsHidden") int32_zero
  ++ int32_field (bs "AllowDesktopConfig") int32_one
  ++ int32_field (bs "AllowOverlay") int32_one
  ++ int32_field (bs "OpenVR") int32_zero
  ++ int32_field (bs "Devkit") int32_zero
  ++ string_field (bs "DevkitGameID") []
  ++ string_field (bs "DevkitOverrideAppID") []
  ++ int32_field (bs "LastPlayTime") int32_zero
  ++ string_field (bs "FlatpakAppID") package_id
  ++ object_start (bs "tags")
  ++ [x08; x08].

(** The last position at which a pattern matches. *)
Fixpoint re_search_last_at (p : bytes -> option (nat * bytes)) (pos : nat)
  (acc : option (nat * nat * bytes)) (l : bytes) : option (nat * nat * bytes) :=
  let acc' := match p l with Some (n, g) => Some (pos, n, g) | None => acc end in
  match l with
  | [] => acc'
  | _ :: l' => re_search_last_at p (S pos) acc' l'
  end.

(** [locateEntryByName] as section 4.2 words it: the appid field nearest
    before the match. *)
Fixpoint first_app_id_spec (content : bytes) (matches : list (nat * nat * bytes))
  : option N :=
  match matches with
  | [] => None
  | (start, _, _) :: rest =>
      let segment := slice (start - 200)%nat start content in
      match re_search_last_at app_id_pattern 0 None segment with
      | Some (_, _, app_id_bytes) => Some (int_from_bytes app_id_bytes)
      | None => first_app_id_spec content rest
      end
  end.

Definition locate_entry_spec (content : bytes) : option N :=
  first_app_id_spec content (re_finditer app_name_pattern content).

(** [appendLaunchOptions] as section 4.2 words it: the field is looked up
    in a window after the match, the whole options string is looked for in
    its value, and that field is rewritten. *)
Definition append_launch_options_spec (content : bytes) (start : nat) : bytes :=
  let window := slice start (start + 500)%nat content in
  match re_search launch_options_pattern window with
  | Some (pos, n, current_options) =>
      if contains LAUNCH_OPTIONS_utf8 current_options then content
      else
        take (start + pos)%nat content
        ++ launch_options_field (current_options ++ bs " " ++ LAUNCH_OPTIONS_utf8)
        ++ drop (start + pos + n)%nat content
  | None => content
  end.

(** [insertEntry] as section 4.2 words it, for a store with the shortcuts
    marker: before the final pair of end markers, else before the last end
    marker, else at the end. *)
Definition insert_entry_spec (content new_entry : bytes) : bytes :=
  if ends_with BSBS content then
    take (length content - 2) content ++ new_entry ++ BSBS
  else
    let last_bs_pos := rfind [x08] content in
    if (0 <=? last_bs_pos)%Z then
      take (Z.to_nat last_bs_pos) content ++ new_entry
        ++ drop (Z.to_nat last_bs_pos) content
    else content ++ new_entry.

(** [l.count(pat)]: the occurrences of [pat], left to right, never
    overlapping. *)
Definition count {A} `{EqDecision A} (pat l : list A) : nat :=
  length (re_finditer (fun l => if starts_with pat l then Some (length pat, []) else None) l).

(** ** Notions used in the statements *)

(** The events a guarded body may leave in the trace: reads, and writes
    to the document. *)
Definition quiet (doc : string) (ev : event) : Prop :=
  match ev with
  | EvRead _ => True
  | EvWrite p _ => p = doc
  | EvCopy _ _ | EvCopyCut _ _ _ | EvLogError _ => False
  end.

(** A computation that touches no file but [doc] and leaves quiet events
    only. *)
Definition body_ok (doc : string) {A} (m : IO A) : Prop :=
  forall w r w', m w = (r, w') ->
    (forall p, p <> doc -> files w' !! p = files w !! p)
    /\ copy_faults w' = copy_faults w
    /\ exists evs, trace w' = trace w ++ evs /\ Forall (quiet doc) evs.

(** A computation that leaves the state as it is: it returns or raises,
    and nothing else.  Such is a prompt during which nothing happens to the
    disk. *)
Definition inert {A} (m : IO A) : Prop :=
  forall w, exists r, m w = (r, w).

(** The outcome [r] is an exception that the prompt raised. *)
Definition raised_by {A} (input : IO unit) (r : result A) : Prop :=
  exists e w w', input w = (Raise e, w') /\ r = Raise e.

(** A target AppName field starts at offset [i]. *)
Definition name_field_at (content : bytes) (i : nat) : Prop :=
  exists name, In name edge_names
               /\ starts_with (app_name_field name) (drop i content) = true.

(** An appid field with the four value bytes [g] starts at offset [j]. *)
Definition appid_field_at (segment : bytes) (j : nat) (g : bytes) : Prop :=
  starts_with (APPID ++ g) (drop j segment) = true /\ length g = 4%nat.

(** The loop of [find_edge_app_id], started at offset [pos]. *)
Definition scan_from (content : bytes) (pos : nat) : option N :=
  first_app_id content
    (re_finditer_at app_name_pattern 0 pos (drop pos content)).

(** An AppName field is the mark SOH and a run without SOH. *)
Definition app_name_run (name : bytes) : bytes :=
  bs "AppName" ++ [x00] ++ name ++ [x00].

(** The appid key without its terminator. *)
Definition APPID_KEY : bytes := x02 :: bs "appid".

(** What [build_entry] puts before the AppName field. *)
Definition entry_head (index a4 : bytes) : bytes :=
  (object_start index ++ APPID) ++ a4 ++ [x00; x00; x00; x00].

(** Lines 324-347: the offset at which [insert_entry] puts the entry in a
    store that has the shortcuts marker. *)
Definition insertion_point (content : bytes) : nat :=
  if ends_with BSBS content then (length content - 2)%nat
  else
    let last_bs_pos := rfind [x08] content in
    if (0 <? last_bs_pos)%Z then Z.to_nat last_bs_pos else length content.

(** ** Sample documents *)

(** A local config in the layout Steam writes: the key, a line break and a
    tab, the opening brace, one field, the closing brace. *)
Definition sample_config : text :=
  [quote] ++ ts "123" ++ [quote; 10; 9; lbrace; 10; 9; 9; quote]
  ++ ts "LaunchOptions" ++ [quote; 9; 9; quote] ++ ts "-x"
  ++ [quote; 10; 9; rbrace; 10].

(** The same key with the brace right after it, and with a sub-object. *)
Definition sample_config_tight : text :=
  [quote] ++ ts "123" ++ [quote; lbrace; quote] ++ ts "a" ++ [quote; lbrace; rbrace; rbrace].

(** A section without launch options, and the section holding
    [LAUNCH_OPTIONS] that [patch_launch_options] makes of it. *)
Definition sample_section : text :=
  [quote] ++ ts "123" ++ [quote; 10; lbrace; 10; rbrace].

Definition sample_section_patched : text :=
  [quote] ++ ts "123" ++ [quote; 10; lbrace; 10; 9; 9; quote]
  ++ ts "LaunchOptions" ++ [quote; 9; 9; quote] ++ LAUNCH_OPTIONS
  ++ [quote; 10; rbrace].

(** A section whose launch options are the window-size option alone. *)
Definition sample_section_option : text :=
  [quote] ++ ts "123" ++ [quote; 10; lbrace; 10; 9; 9; quote]
  ++ ts "LaunchOptions" ++ [quote; 9; 9; quote] ++ ts "--window-size=1024,640"
  ++ [quote; 10; rbrace].

(** A store with one entry, and a disk that holds it. *)
Definition sample_store : bytes :=
  SHORTCUTS ++ object_start (bs "0") ++ APPID ++ [x78; x56; x34; x12]
  ++ app_name_field (bs "Microsoft Edge")
  ++ launch_options_field (bs "run com.microsoft.Edge")
  ++ BSBS ++ BSBS.

Definition sample_world (faults : list (option nat)) : world :=
  World {[ "shortcuts.vdf"%string := sample_store ]} faults [] [].

(** Stores with one renamed entry: one whose launch options lack the
    kiosk option, one whose launch options are the kiosk option alone. *)
Definition sample_options_store : bytes :=
  app_name_field (bs "Edge") ++ launch_options_field (bs "run com.microsoft.Edge").

Definition sample_kiosk_store : bytes :=
  app_name_field (bs "Edge") ++ launch_options_field KIOSK.

(** A store with two short entries, the second one Microsoft Edge. *)
Definition sample_two_entries : bytes :=
  SHORTCUTS
  ++ object_start (bs "0") ++ APPID ++ [x11; x11; x11; x11]
  ++ app_name_field (bs "Notes")
  ++ object_start (bs "1") ++ APPID ++ [x22; x22; x22; x22]
  ++ app_name_field (bs "Microsoft Edge")
  ++ BSBS.

(** A store whose one entry is not Microsoft Edge and is short, the store
    with only an end marker before the shortcuts marker, and the entry of
    Microsoft Edge built for index 1 and appid 0x5E2B33C6. *)
Definition sample_notes_store : bytes :=
  SHORTCUTS
  ++ object_start (bs "0") ++ APPID ++ [x11; x11; x11; x11]
  ++ app_name_field (bs "Notes")
  ++ BSBS.

Definition sample_leading_marker_store : bytes := [x08] ++ SHORTCUTS.

Definition sample_entry : bytes :=
  Eval vm_compute in
    match build_edge_entry (bs "1") 0x5E2B33C6 with
    | Ret e => e
    | Raise _ => []
    end.

(** A store whose one entry, built by [build_entry] for another program,
    is longer than the search window. *)
Definition sample_long_store : bytes :=
  Eval vm_compute in
    SHORTCUTS
    ++ match build_entry (bs "0") 0x11111111 (bs "Notes") (bs "/usr/bin/notes")
               (bs "/usr/bin") [] (bs "org.example.Notes") with
       | Ret e => e
       | Raise _ => []
       end
    ++ BSBS.

(** A store of two entries in the layout of section 6: Notes, started
    without launch options, then Microsoft Edge. *)
Definition sample_notes_entry (launch_options : bytes) : bytes :=
  entry_layout_spec (bs "0") [x11; x11; x11; x11] (bs "Notes") (bs "/usr/bin/notes")
                    (bs "/usr/bin") launch_options [].

Definition sample_edge_entry (name launch_options : bytes) : bytes :=
  entry_layout_spec (bs "1") [x22; x22; x22; x22] name edge_exe edge_start_dir
                    launch_options edge_flatpak_id.

Definition sample_two_apps_store : bytes :=
  SHORTCUTS ++ sample_notes_entry []
  ++ sample_edge_entry edge_name edge_launch_args ++ BSBS.

(** A disk that holds the store without Microsoft Edge, and a disk that
    holds only a backup of the sample store. *)
Definition sample_notes_world : world :=
  World {[ "shortcuts.vdf"%string := sample_notes_store ]} [] [] [].

Definition sample_stale_world : world :=
  World {[ "shortcuts.vdf.bak"%string := sample_store ]} [] [] [].

(** A disk on which the store of user 1001 is the sample store. *)
Definition sample_user_world : world :=
  World {[ "1001/config/shortcuts.vdf"%string := sample_store ]} [] [] [].

(** ** Looking for the entry in every user's store *)

Section AddEdge.

Variable USERDATA_DIR : string.

(** [get_steam_users], lines 98-111, reads a directory listing, which the
    disk of this model does not hold: the listing is a function of the
    state.  [flatpak_info] is the outcome of the flatpak query made for a
    user, and [input] the prompt of line 423, during which the user may
    change the disk. *)
Variable get_steam_users : world -> list string.
Variable debug_mode : bool.
Variable flatpak_info : string -> option Z.
Variable input : IO unit.

Definition list_users : IO (list string) := fun w => (Ret (get_steam_users w), w).

(** [os.path.join(USERDATA_DIR, user_id, "config", "shortcuts.vdf")] *)
Definition shortcuts_path (user_id : string) : string :=
  path_join (path_join (path_join USERDATA_DIR user_id) "config") "shortcuts.vdf".

(** The loop of lines 388-394, run again at lines 426-432: the first user
    whose store gives an appid that is neither [None] nor zero. *)
Fixpoint find_in_stores (users : list string) : IO (option (N * string)) :=
  match users with
  | [] => io_ret None
  | user_id :: rest =>
      let shortcuts_vdf := shortcuts_path user_id in
      ex <~ path_exists shortcuts_vdf ;;
      if ex then
        edge_app_id <~ find_edge_app_id shortcuts_vdf ;;
        match edge_app_id with
        | Some n =>
            if n =? 0 then find_in_stores rest else io_ret (Some (n, user_id))
        | None => find_in_stores rest
        end
      else find_in_stores rest
  end.

(** The loop of lines 400-412. *)
Fixpoint add_in_stores (users : list string) : IO (option (N * string)) :=
  match users with
  | [] => io_ret None
  | user_id :: rest =>
      let shortcuts_vdf := shortcuts_path user_id in
      ex <~ path_exists shortcuts_vdf ;;
      if ex then
        added <~ add_shortcut_to_steam debug_mode (flatpak_info user_id)
                                       shortcuts_vdf user_id ;;
        if added then
          edge_app_id <~ find_edge_app_id shortcuts_vdf ;;
          match edge_app_id with
          | Some n =>
              if n =? 0 then add_in_stores rest else io_ret (Some (n, user_id))
          | None => add_in_stores rest
          end
        else add_in_stores rest
      else add_in_stores rest
  end.

(** Lines 414-437: the prompt, then the first loop again. *)
Definition manual_addition : IO (option (N * string)) :=
  input ;;;
  users <~ list_users ;;
  find_in_stores users.

(** Lines 380-437.  The pair of the appid and the user, or [None] for the
    pair of two [None]. *)
Definition add_edge_to_steam : IO (option (N * string)) :=
  users <~ list_users ;;
  found <~ find_in_stores users ;;
  match found with
  | Some r => io_ret (Some r)
  | None =>
      users <~ list_users ;;
      added <~ add_in_stores users ;;
      match added with
      | Some r => io_ret (Some r)
      | None => manual_addition
      end
  end.

End AddEdge.

(** ** Nesting of braces *)

(** The braces of [l] nest properly inside [depth] open ones: every closing
    brace has its opening brace, and none is left open at the end. *)
Fixpoint nested (depth : nat) (l : text) : bool :=
  match l with
  | [] => (depth =? 0)%nat
  | c :: l' =>
      if c =? lbrace then nested (S depth) l'
      else if c =? rbrace then
        match depth with
        | O => false
        | S d => nested d l'
        end
      else nested depth l'
  end.

(** A config whose section of appid 42 holds a sub-object, and one whose
    section is never closed. *)
Definition sample_nested_config : text :=
  [quote] ++ ts "42" ++ [quote; backslash] ++ ts "{a{b}c}d".

Definition sample_open_config : text :=
  ts "x" ++ [quote] ++ ts "42" ++ [quote; backslash] ++ ts "{a{b".

(** A disk that holds the local config of user 1001, in which appid 42 has
    a section; and a disk that holds the sample store beside the backup of
    another store, left by an earlier run, on which the next copy is
    refused. *)
Definition sample_config_world (faults : list (option nat)) : world :=
  World {[ "1001/config/localconfig.vdf"%string
           := map byte_of_N sample_nested_config ]} faults [] [].


(** ** Artwork file names *)

(** The keys of [ARTWORK] and of [artwork_mapping], in the order of the
    dictionaries. *)
Inductive art_type : Type := grid | hero | logo | icon.

(** Lines 571-576. *)
Definition suffix (t : art_type) : text :=
  match t with
  | grid => ts "p"
  | hero => ts "_hero"
  | logo => ts "_logo"
  | icon => []
  end.

(** Line 593. *)
Definition legacy_id (edge_app_id : N) : N :=
  N.lor (N.shiftl edge_app_id 32) 0x02000000.

(** Lines 583-596: the names under which the file of one art type is
    copied into the grid directory. *)
Definition artwork_names (edge_app_id : N) (t : art_type) (file_ext : text)
  : list text :=
  (str_of_int edge_app_id ++ suffix t ++ file_ext)
  :: match t with
     | grid => [str_of_int (legacy_id edge_app_id) ++ suffix t ++ file_ext]
     | _ => []
     end.

(** The loop of lines 579-596 when every download succeeded: each URL of
    [ARTWORK] ends in .png, which is the extension of every file. *)
Definition all_artwork_names (edge_app_id : N) : list text :=
  flat_map (fun t => artwork_names edge_app_id t (ts ".png")) [grid; hero; logo; icon].

(** * Properties *)

(** ** The model on small inputs *)

Example crc32_check : crc32 (bs "123456789") = 0xCBF43926.
Proof. vm_compute. reflexivity. Qed.

Example replace_ex : replace (bs "ab") (bs "X") (bs "cababab_ab") = bs "cXXX_X".
Proof. reflexivity. Qed.

Example rfind_ex : rfind (bs "a") (bs "banana") = 5%Z /\ rfind (bs "z") (bs "banana") = (-1)%Z.
Proof. split; reflexivity. Qed.

Example slice_ex : slice 2 4 (bs "banana") = bs "na" /\ slice 4 99 (bs "banana") = bs "na".
Proof. split; reflexivity. Qed.

Example encode_launch_options : str_encode LAUNCH_OPTIONS = Ret LAUNCH_OPTIONS_utf8.
Proof. vm_compute. reflexivity. Qed.

Example bytes_of_int_ex : bytes_of_int 1207 = bs "1207" /\ bytes_of_int 0 = bs "0".
Proof. split; vm_compute; reflexivity. Qed.

Example locate_ex :
  locate_entry (APPID ++ [x78; x56; x34; x12] ++ APPNAME ++ bs "Edge" ++ [x00]) = Some 0x12345678.
Proof. vm_compute. reflexivity. Qed.

Example locate_section_ex :
  locate_section ([quote] ++ ts "42" ++ [quote; backslash] ++ ts "{a{b}c}d") 42
  = Some (0, 12)%nat.
Proof. vm_compute. reflexivity. Qed.

(** ** The identifier deriver *)

Lemma generate_app_id_raises (exe_path app_name : pyval) :
  exists e, generate_app_id exe_path app_name = Raise e.
Proof.
  unfold generate_app_id.
  destruct (py_encode exe_path) as [p|e]; [|now exists e].
  destruct (py_encode app_name) as [n|e]; [|now exists e].
  now exists AttributeError.
Qed.

(** C2: [generate_app_id] never returns an identifier: for every pair of
    arguments the call ends in an exception, and for the path and name of
    the installer, which both encode, the exception is the [AttributeError]
    of the lookup of [crc32] in [hashlib]; the documented CRC-32 of the two
    encodings is a value the function does not produce. *)
Theorem generate_app_id_never_returns :
  (forall exe_path app_name v, generate_app_id exe_path app_name <> Ret v)
  /\ generate_app_id (PyStr (ts "/usr/bin/flatpak")) (PyStr (ts "Microsoft Edge"))
     = Raise AttributeError
  /\ derive_app_id_spec (ts "/usr/bin/flatpak") (ts "Microsoft Edge")
     = Ret 0x5E2B33C6.
Proof.
  split; [|split].
  - intros p n v Hv. destruct (generate_app_id_raises p n) as [e He]. congruence.
  - vm_compute. reflexivity.
  - vm_compute. reflexivity.
Qed.

(** ** The entry builder *)

(** The bytes [build_entry] emits, field by field: the layout of section
    4.3 with four more NUL bytes after the appid value and one more after
    the value of IsHidden. *)
Lemma build_entry_fields (index : bytes) (app_id : N)
  (name exe start_dir launch_options package_id le4 : bytes) :
  int_to_bytes4 app_id = Ret le4 ->
  build_entry index app_id name exe start_dir launch_options package_id
  = Ret (object_start index
         ++ int32_field (bs "appid") le4
         ++ [x00; x00; x00; x00]
         ++ string_field (bs "AppName") name
         ++ string_field (bs "Exe") (quoted exe)
         ++ string_field (bs "StartDir") (quoted start_dir)
         ++ string_field (bs "icon") []
         ++ string_field (bs "ShortcutPath") []
         ++ string_field (bs "LaunchOptions") launch_options
         ++ int32_field (bs "IsHidden") int32_zero
         ++ [x00]
         ++ int32_field (bs "AllowDesktopConfig") int32_one
         ++ int32_field (bs "AllowOverlay") int32_one
         ++ int32_field (bs "OpenVR") int32_zero
         ++ int32_field (bs "Devkit") int32_zero
         ++ string_field (bs "DevkitGameID") []
         ++ string_field (bs "DevkitOverrideAppID") []
         ++ int32_field (bs "LastPlayTime") int32_zero
         ++ string_field (bs "FlatpakAppID") package_id
         ++ object_start (bs "tags")
         ++ [x08; x08]).
Proof.
  intros Hle. unfold build_entry. rewrite Hle. cbn [rbind]. f_equal.
  unfold object_start, int32_field, string_field, quoted, int32_zero, int32_one.
  cbn [bs list_byte_of_string String.list_byte_of_string app].
  repeat (rewrite <- ?app_assoc; cbn [app]).
  reflexivity.
Qed.

Lemma length_build_entry (index : bytes) (app_id : N)
  (name exe start_dir launch_options package_id le4 e : bytes) :
  int_to_bytes4 app_id = Ret le4 ->
  build_entry index app_id name exe start_dir launch_options package_id = Ret e ->
  length e
  = (length (entry_layout_spec index le4 name exe start_dir launch_options
                               package_id) + 5)%nat.
Proof.
  intros Hle He. rewrite (build_entry_fields _ _ _ _ _ _ _ _ Hle) in He.
  injection He as <-. unfold entry_layout_spec.
  simpl. repeat (progress (rewrite ?length_app; cbn [length])). lia.
Qed.

(** C5: the entry built for index 0 and appid 0x5E2B33C6 with the strings of
    the installer is not the field sequence of section 4.3: it is five bytes
    longer, and the eight bytes after the appid key are the four of the
    value followed by four NUL bytes, where the AppName field should start. *)
Theorem build_entry_has_stray_bytes :
  exists e,
    build_edge_entry (bs "0") 0x5E2B33C6 = Ret e
    /\ e <> entry_layout_spec (bs "0") [xc6; x33; x2b; x5e] edge_name edge_exe
                              edge_start_dir edge_launch_args edge_flatpak_id
    /\ length e
       = (length (entry_layout_spec (bs "0") [xc6; x33; x2b; x5e] edge_name
                    edge_exe edge_start_dir edge_launch_args edge_flatpak_id)
          + 5)%nat
    /\ slice 3 18 e = APPID ++ [xc6; x33; x2b; x5e] ++ [x00; x00; x00; x00]
    /\ slice 3 18 (entry_layout_spec (bs "0") [xc6; x33; x2b; x5e] edge_name
                     edge_exe edge_start_dir edge_launch_args edge_flatpak_id)
       = APPID ++ [xc6; x33; x2b; x5e] ++ x01 :: bs "App".
Proof.
  eexists. split; [vm_compute; reflexivity|].
  split; [vm_compute; discriminate|].
  repeat split; vm_compute; reflexivity.
Qed.

(** ** The text config patcher *)

(** The pattern of line 463 matches only where a backslash follows the
    closing quote of the key. *)
Lemma section_rest_backslash (l : text) (n : nat) :
  section_rest l = Some n -> exists r, l = quote :: backslash :: r.
Proof.
  unfold section_rest, strip. cbn [starts_with].
  destruct l as [|c1 [|c2 r]]; cbn; try discriminate;
    repeat case_bool_decide; subst; cbn; try discriminate.
  intros _. now exists r.
Qed.

(** C4: in a config laid out as Steam writes it, the section of appid 123
    is not found, although its quoted key is there and a brace follows it;
    the same with the brace right after the key.  With white space allowed
    where the pattern of line 463 asks for a backslash, both sections are
    found and their braces balanced, and an appid without a section gives
    none. *)
Theorem locate_section_misses_present_key :
  locate_section sample_config 123 = None
  /\ locate_section sample_config_tight 123 = None
  /\ locate_section_spec sample_config 123 = Some (0, 35)%nat
  /\ locate_section_spec sample_config_tight 123 = Some (0, 12)%nat
  /\ locate_section_spec sample_config 124 = None.
Proof. repeat split; vm_compute; reflexivity. Qed.

(** C8: [patch_launch_options] appends without looking at the value.  The
    section it writes for a section without launch options holds each
    option once; patched again, the section holds the window-size option
    twice.  So does, once patched, a section whose value is the window-size
    option alone: the value becomes that option, a space and the whole
    options string. *)
Theorem patch_launch_options_duplicates :
  patch_launch_options sample_section = sample_section_patched
  /\ contains LAUNCH_OPTIONS sample_section_patched = true
  /\ count (ts "--window-size=1024,640") sample_section_patched = 1%nat
  /\ count (ts "--window-size=1024,640")
           (patch_launch_options sample_section_patched) = 2%nat
  /\ patch_launch_options sample_section_patched <> sample_section_patched
  /\ patch_launch_options sample_section_option
     = [quote] ++ ts "123" ++ [quote; 10; lbrace; 10; 9; 9; quote]
       ++ ts "LaunchOptions" ++ [quote; 32; quote]
       ++ ts "--window-size=1024,640 " ++ LAUNCH_OPTIONS ++ [quote; 10; rbrace]
  /\ count (ts "--window-size=1024,640")
           (patch_launch_options sample_section_option) = 2%nat.
Proof.
  repeat split; try (vm_compute; reflexivity).
  vm_compute. discriminate.
Qed.

(** ** The safety wrapper *)

Lemma string_length_app (s1 s2 : string) :
  String.length (s1 +:+ s2) = (String.length s1 + String.length s2)%nat.
Proof.
  induction s1 as [|a s1 IH]; [reflexivity|].
  change (S (String.length (s1 +:+ s2)) = S (String.length s1 + String.length s2)).
  now rewrite IH.
Qed.

Lemma backup_ne (doc : string) : doc <> backup_of doc.
Proof.
  intros Heq. apply (f_equal String.length) in Heq.
  unfold backup_of in Heq. rewrite string_length_app in Heq. cbn [String.length] in Heq. lia.
Qed.


Lemma body_ok_raise doc {A} (e : exn) : body_ok doc (@io_raise A e).
Proof.
  intros w r w' [= <- <-]. split; [done|]. split; [done|].
  exists []. now rewrite app_nil_r.
Qed.



Lemma body_ok_bind doc {A B} (m : IO A) (k : A -> IO B) :
  body_ok doc m -> (forall a, body_ok doc (k a)) -> body_ok doc (io_bind m k).
Proof.
  intros Hm Hk w r w' Hrun. unfold io_bind in Hrun.
  destruct (m w) as [[a|e] w1] eqn:Em.
  - destruct (Hm _ _ _ Em) as (Hf1 & Hc1 & evs1 & Ht1 & Hq1).
    destruct (Hk a _ _ _ Hrun) as (Hf2 & Hc2 & evs2 & Ht2 & Hq2).
    split; [|split].
    + intros p Hp. now rewrite Hf2, Hf1.
    + now rewrite Hc2.
    + exists (evs1 ++ evs2). split.
      * now rewrite Ht2, Ht1, app_assoc.
      * now apply Forall_app.
  - injection Hrun as <- <-. exact (Hm _ _ _ Em).
Qed.

Lemma body_ok_next_fault doc : body_ok doc next_fault.
Proof.
  intros w r w' Hrun. unfold next_fault in Hrun.
  destruct (faults w); injection Hrun as <- <-; (split; [done|]); (split; [done|]);
    exists []; now rewrite app_nil_r.
Qed.

Lemma body_ok_emit doc ev : quiet doc ev -> body_ok doc (emit ev).
Proof.
  intros Hq w r w' [= <- <-]. split; [done|]. split; [done|].
  exists [ev]. split; [done|]. now constructor.
Qed.

Lemma body_ok_set_file doc data : body_ok doc (set_file doc data).
Proof.
  intros w r w' [= <- <-]. split; [|split].
  - intros p Hp. cbn. now rewrite lookup_insert_ne.
  - reflexivity.
  - exists []. now rewrite app_nil_r.
Qed.


Lemma body_ok_write_file doc data : body_ok doc (write_file doc data).
Proof.
  unfold write_file. apply body_ok_bind; [apply body_ok_next_fault|].
  intros [k|].
  - apply body_ok_bind; [apply body_ok_set_file|]. intros _.
    apply body_ok_bind; [now apply body_ok_emit|]. intros _. apply body_ok_raise.
  - apply body_ok_bind; [apply body_ok_set_file|]. intros _.
    now apply body_ok_emit.
Qed.

Lemma body_ok_write_text doc s : body_ok doc (write_text doc s).
Proof.
  unfold write_text. destruct (str_encode s) as [data|e].
  - apply body_ok_write_file.
  - apply body_ok_bind; [apply body_ok_set_file|]. intros _.
    apply body_ok_bind; [now apply body_ok_emit|]. intros _. apply body_ok_raise.
Qed.

Lemma copy2_run src dst d w :
  files w !! src = Some d -> src <> dst -> copy_faults w = [] ->
  copy2 src dst w
  = (Ret tt, World (<[dst := d]> (files w)) (faults w) []
                   (trace w ++ [EvCopy src dst])).
Proof.
  intros Hl Hne Hcf. unfold copy2. rewrite Hl.
  rewrite bool_decide_eq_false_2 by done.
  unfold io_bind, next_copy_fault. rewrite Hcf. cbn. now rewrite Hcf.
Qed.

Lemma restore_backup_run bak doc d w :
  files w !! bak = Some d -> bak <> doc -> copy_faults w = [] ->
  restore_backup bak doc w
  = (Ret tt, World (<[doc := d]> (files w)) (faults w) []
                   (trace w ++ [EvCopy bak doc])).
Proof.
  intros Hl Hne Hcf. unfold restore_backup, io_bind, path_exists.
  rewrite bool_decide_eq_true_2 by (rewrite Hl; eauto).
  now apply copy2_run.
Qed.

(** The handler of an operation when a backup is there and the copy does
    not fail: the log entry, the restore, and what follows them. *)
Lemma handler_tail_run bak doc {A} (tail : IO A) e c w :
  files w !! bak = Some c -> bak <> doc -> copy_faults w = [] ->
  (emit (EvLogError e) ;;; restore_backup bak doc ;;; tail) w
  = tail (World (<[doc := c]> (files w)) (faults w) []
                (trace w ++ [EvLogError e; EvCopy bak doc])).
Proof.
  intros Hl Hne Hcf. unfold io_bind, emit.
  rewrite (restore_backup_run _ _ c) by first [exact Hl | exact Hne | exact Hcf].
  cbn [files faults trace]. now rewrite <- app_assoc.
Qed.

Lemma handler_run bak doc {A} (v : A) e c w :
  files w !! bak = Some c -> bak <> doc -> copy_faults w = [] ->
  (emit (EvLogError e) ;;; restore_backup bak doc ;;; io_ret v) w
  = (Ret v, World (<[doc := c]> (files w)) (faults w) []
                  (trace w ++ [EvLogError e; EvCopy bak doc])).
Proof.
  intros Hl Hne Hcf. now rewrite (handler_tail_run bak doc (io_ret v) e c w Hl Hne Hcf).
Qed.






Lemma inert_prompt_then {A} (input : IO unit) (v : A) :
  inert input -> inert (input ;;; io_ret v).
Proof.
  intros Hin w. unfold io_bind. destruct (Hin w) as [[[]|e] Hr]; rewrite Hr.
  - now exists (Ret v).
  - now exists (Raise e).
Qed.

Lemma prompt_then_outcome {A} (input : IO unit) (v : A) (r : result A) (w : world) :
  (input ;;; io_ret v) w = (r, w) -> r = Ret v \/ raised_by input r.
Proof.
  unfold io_bind. destruct (input w) as [[[]|e] w1] eqn:Hr.
  - intros [= <- _]. now left.
  - intros [= <- _]. right. now exists e, w, w1.
Qed.



Example failed_write_is_rolled_back :
  exists w',
    run "" (map Byte.to_N) (io_ret tt)
        (OpModify "shortcuts.vdf" 0x12345678 default_new_name)
        (sample_world [None; Some 3%nat]) = (Ret false, w')
    /\ trace w' = [EvCopy "shortcuts.vdf" "shortcuts.vdf.bak";
                   EvRead "shortcuts.vdf";
                   EvWrite "shortcuts.vdf" (take 3 sample_store);
                   EvLogError OSError;
                   EvCopy "shortcuts.vdf.bak" "shortcuts.vdf"]
    /\ files w' !! "shortcuts.vdf"%string = Some sample_store.
Proof.
  eexists. split; [vm_compute; reflexivity|]. split; vm_compute; reflexivity.
Qed.


Lemma read_file_run path w :
  read_file path w
  = match faults w with
    | Some _ :: fs => (Raise OSError, World (files w) fs (copy_faults w) (trace w))
    | None :: fs =>
        match files w !! path with
        | Some data =>
            (Ret data, World (files w) fs (copy_faults w) (trace w ++ [EvRead path]))
        | None => (Raise OSError, World (files w) fs (copy_faults w) (trace w))
        end
    | [] =>
        match files w !! path with
        | Some data =>
            (Ret data, World (files w) [] (copy_faults w) (trace w ++ [EvRead path]))
        | None => (Raise OSError, w)
        end
    end.
Proof.
  unfold read_file, io_bind, next_fault.
  destruct w as [fs [|[k|] fl] cf tr]; cbn; try reflexivity;
    destruct (fs !! path); reflexivity.
Qed.

(** C10: [generate_app_id] called on two [bytes] raises [AttributeError];
    [add_shortcut_to_steam], run on a disk that holds the shortcuts
    document and on which no copy fails, returns [False], opens no file for
    writing (it only copies the document to its backup and, after a
    failure, back) and leaves the document with the contents it had; and
    when the flatpak query succeeded and the debug read did not fail, the
    handler ran on that [AttributeError] and ended by copying the backup
    back. *)
Theorem add_shortcut_to_steam_never_inserts
  (debug_mode : bool) (flatpak_info : option Z) (shortcuts_vdf user_id : string)
  (w : world) (c : bytes) :
  files w !! shortcuts_vdf = Some c ->
  copy_faults w = [] ->
  (forall d1 d2, generate_app_id (PyBytes d1) (PyBytes d2) = Raise AttributeError)
  /\ exists w' evs,
      add_shortcut_to_steam debug_mode flatpak_info shortcuts_vdf user_id w
      = (Ret false, w')
      /\ trace w' = trace w ++ evs
      /\ (forall p d, ~ In (EvWrite p d) evs)
      /\ files w' !! shortcuts_vdf = Some c
      /\ (flatpak_info = Some 0%Z ->
          (debug_mode = true -> hd None (faults w) = None) ->
          In (EvLogError AttributeError) evs
          /\ restored_last shortcuts_vdf evs).
Proof.
  intros Hdoc Hcf. split; [reflexivity|].
  pose proof (backup_ne shortcuts_vdf) as Hne.
  assert (Hne' : backup_of shortcuts_vdf <> shortcuts_vdf) by (intros E; now apply Hne).
  unfold add_shortcut_to_steam. cbv zeta. fold (backup_of shortcuts_vdf).
  unfold try_except. unfold io_bind at 1.
  rewrite (copy2_run _ _ _ _ Hdoc Hne Hcf).
  set (bak := backup_of shortcuts_vdf) in *.
  assert (Hafter : forall fl tr e,
    exists w' evs,
      (emit (EvLogError e) ;;; restore_backup bak shortcuts_vdf ;;; io_ret false)
        (World (<[bak := c]> (files w)) fl []
               (trace w ++ EvCopy shortcuts_vdf bak :: tr))
      = (Ret false, w')
      /\ trace w' = trace w ++ evs
      /\ evs = EvCopy shortcuts_vdf bak :: tr ++ [EvLogError e; EvCopy bak shortcuts_vdf]
      /\ files w' !! shortcuts_vdf = Some c).
  { intros fl tr e. eexists _, _.
    rewrite (handler_run bak shortcuts_vdf false e c)
      by first [apply lookup_insert_eq | exact Hne' | reflexivity].
    split; [reflexivity|]. cbn [trace files].
    split; [rewrite <- app_assoc; reflexivity|].
    split; [reflexivity|]. apply lookup_insert_eq. }
  assert (Hlook : <[bak := c]> (files w) !! shortcuts_vdf = Some c).
  { rewrite lookup_insert_ne by exact Hne'. exact Hdoc. }
  assert (Hrest : forall fl tr,
    (forall p d, ~ In (EvWrite p d) tr) ->
    exists w' evs,
      (let (r, w'0) :=
         match flatpak_info with
         | Some 0%Z =>
             app_id <~ io_lift (generate_app_id (PyBytes edge_exe) (PyBytes edge_name)) ;;
             content <~ read_file shortcuts_vdf ;;
             new_entry <~ io_lift (build_edge_entry (next_index content) app_id) ;;
             write_file shortcuts_vdf (insert_entry content new_entry) ;;;
             io_ret true
         | _ => io_ret false
         end (World (<[bak := c]> (files w)) fl []
                    (trace w ++ EvCopy shortcuts_vdf bak :: tr)) in
       match r with
       | Ret a => (Ret a, w'0)
       | Raise e =>
           (emit (EvLogError e) ;;; restore_backup bak shortcuts_vdf ;;; io_ret false) w'0
       end) = (Ret false, w')
      /\ trace w' = trace w ++ evs
      /\ (forall p d, ~ In (EvWrite p d) evs)
      /\ files w' !! shortcuts_vdf = Some c
      /\ (flatpak_info = Some 0%Z ->
          In (EvLogError AttributeError) evs /\ restored_last shortcuts_vdf evs)).
  { intros fl tr Htr.
    assert (Hquiet : forall e p d,
      ~ In (EvWrite p d)
           (EvCopy shortcuts_vdf bak :: tr ++ [EvLogError e; EvCopy bak shortcuts_vdf])).
    { intros e p d [Hin|Hin]; [discriminate|].
      apply in_app_or in Hin as [Hin|[Hin|[Hin|[]]]]; try discriminate.
      exact (Htr _ _ Hin). }
    destruct flatpak_info as [[|z|z]|].
    - unfold io_bind at 1, io_lift. cbn [generate_app_id py_encode rbind].
      destruct (Hafter fl tr AttributeError) as (w' & evs & Hrun & Htrace & -> & Hf).
      eexists w', _. split; [exact Hrun|]. split; [exact Htrace|].
      split; [apply Hquiet|]. split; [exact Hf|]. intros _. split.
      + right. apply in_or_app. right. now left.
      + exists (EvCopy shortcuts_vdf bak :: tr ++ [EvLogError AttributeError]).
        cbn. now rewrite <- app_assoc.
    - eexists _, (EvCopy shortcuts_vdf bak :: tr). split; [reflexivity|].
      split; [reflexivity|]. split.
      { intros p d [Hin|Hin]; [discriminate|]. exact (Htr _ _ Hin). }
      split; [exact Hlook|]. discriminate.
    - eexists _, (EvCopy shortcuts_vdf bak :: tr). split; [reflexivity|].
      split; [reflexivity|]. split.
      { intros p d [Hin|Hin]; [discriminate|]. exact (Htr _ _ Hin). }
      split; [exact Hlook|]. discriminate.
    - eexists _, (EvCopy shortcuts_vdf bak :: tr). split; [reflexivity|].
      split; [reflexivity|]. split.
      { intros p d [Hin|Hin]; [discriminate|]. exact (Htr _ _ Hin). }
      split; [exact Hlook|]. discriminate. }
  assert (Hread : forall p d, ~ In (EvWrite p d) [EvRead shortcuts_vdf]).
  { intros p d [Hin|[]]. discriminate. }
  destruct debug_mode.
  - unfold io_bind at 1. unfold io_bind at 1. rewrite read_file_run.
    cbn [faults files trace copy_faults]. rewrite Hlook.
    destruct (faults w) as [|[k|] fl] eqn:Efl.
    + unfold io_ret at 1. rewrite <- app_assoc. cbn [app].
      destruct (Hrest [] _ Hread) as (w' & evs & H1 & H2 & H3 & H4 & H5).
      exists w', evs. repeat (split; [assumption|]). intros Hf _. now apply H5.
    + destruct (Hafter fl [] OSError) as (w' & evs & Hrun & Htrace & -> & Hf).
      eexists w', _. split; [exact Hrun|]. split; [exact Htrace|]. split.
      { intros p d [Hin|[Hin|[Hin|[]]]]; discriminate. }
      split; [exact Hf|]. intros _ Hhd. specialize (Hhd eq_refl). discriminate.
    + unfold io_ret at 1. rewrite <- app_assoc. cbn [app].
      destruct (Hrest fl _ Hread) as (w' & evs & H1 & H2 & H3 & H4 & H5).
      exists w', evs. repeat (split; [assumption|]). intros Hf _. now apply H5.
  - unfold io_bind at 1, io_ret at 1.
    destruct (Hrest (faults w) [] (fun p d (H : In (EvWrite p d) []) => H))
      as (w' & evs & H1 & H2 & H3 & H4 & H5).
    exists w', evs. repeat (split; [assumption|]). intros Hf _. now apply H5.
Qed.

Lemma add_shortcut_to_steam_never_inserts_witness :
  files (sample_world []) !! "shortcuts.vdf"%string = Some sample_store
  /\ copy_faults (sample_world []) = []
  /\ ((forall d1 d2, generate_app_id (PyBytes d1) (PyBytes d2) = Raise AttributeError)
      /\ exists w' evs,
          add_shortcut_to_steam true (Some 0%Z) "shortcuts.vdf" "1001" (sample_world [])
          = (Ret false, w')
          /\ trace w' = trace (sample_world []) ++ evs
          /\ (forall p d, ~ In (EvWrite p d) evs)
          /\ files w' !! "shortcuts.vdf"%string = Some sample_store
          /\ (Some 0%Z = Some 0%Z ->
              (true = true -> hd None (faults (sample_world [])) = None) ->
              In (EvLogError AttributeError) evs
              /\ restored_last "shortcuts.vdf" evs)).
Proof.
  split; [vm_compute; reflexivity|]. split; [reflexivity|].
  apply (add_shortcut_to_steam_never_inserts true (Some 0%Z) "shortcuts.vdf" "1001"
           (sample_world []) sample_store); [vm_compute; reflexivity|reflexivity].
Defined.

(** ** Facts about the sequence operations *)

Section SeqFacts.
Context {A : Type} `{EqDecision A}.
Implicit Types (pat old new l : list A).

Lemma starts_with_true pat l :
  starts_with pat l = true <-> exists r, l = pat ++ r.
Proof.
  revert l. induction pat as [|p pat IH]; intros l; cbn.
  - split; [intros _; now exists l|reflexivity].
  - destruct l as [|x l]; cbn.
    + split; [discriminate|intros [r Hr]; discriminate].
    + rewrite andb_true_iff, bool_decide_eq_true, IH. split.
      * intros [-> [r ->]]. now exists r.
      * intros [r [= -> ->]]. split; [reflexivity|now exists r].
Qed.

Lemma starts_with_app pat r : starts_with pat (pat ++ r) = true.
Proof. apply starts_with_true. now exists r. Qed.

Lemma starts_with_nil_r pat : starts_with pat [] = true -> pat = [].
Proof. destruct pat; [reflexivity|discriminate]. Qed.

Lemma starts_with_length pat l :
  starts_with pat l = true -> (length pat <= length l)%nat.
Proof.
  intros [r ->]%starts_with_true. rewrite length_app. lia.
Qed.

Lemma starts_with_take pat l n :
  (length pat <= n)%nat ->
  starts_with pat (take n l) = starts_with pat l.
Proof.
  revert l n. induction pat as [|p pat IH]; intros l n Hn; [reflexivity|].
  cbn in Hn. destruct n as [|n]; [lia|]. destruct l as [|x l]; [reflexivity|].
  cbn. rewrite IH by lia. reflexivity.
Qed.

Lemma starts_with_take_true pat l n :
  starts_with pat (take n l) = true -> starts_with pat l = true.
Proof.
  intros [r Hr]%starts_with_true. apply starts_with_true.
  exists (r ++ drop n l). rewrite app_assoc, <- Hr. symmetry. apply take_drop.
Qed.

Lemma contains_true pat l :
  contains pat l = true <-> exists a c, l = a ++ pat ++ c.
Proof.
  induction l as [|x l IH]; cbn.
  - rewrite orb_false_r. split.
    + intros ->%starts_with_nil_r. now exists [], [].
    + intros (a & c & Heq). symmetry in Heq.
      apply app_eq_nil in Heq as [-> Heq]. apply app_eq_nil in Heq as [-> _].
      reflexivity.
  - rewrite orb_true_iff, IH. split.
    + intros [[r Hr]%starts_with_true|(a & c & ->)].
      * now exists [], r.
      * now exists (x :: a), c.
    + intros ([|y a] & c & Heq).
      * left. apply starts_with_true. now exists c.
      * injection Heq as -> ->. right. now exists a, c.
Qed.

Lemma contains_trans pat mid l :
  contains pat mid = true -> contains mid l = true -> contains pat l = true.
Proof.
  rewrite !contains_true. intros (a & c & ->) (a' & c' & ->).
  exists (a' ++ a), (c ++ c'). now rewrite <- !app_assoc.
Qed.

Lemma contains_drop pat l i :
  starts_with pat (drop i l) = true -> contains pat l = true.
Proof.
  intros [r Hr]%starts_with_true. apply contains_true.
  exists (take i l), r. rewrite <- Hr. symmetry. apply take_drop.
Qed.

(** [find] returns the first index at which the pattern starts. *)
Lemma find_at_Some pat pos l i :
  find_at pat pos l = Some i ->
  (pos <= i)%nat
  /\ starts_with pat (drop (i - pos) l) = true
  /\ forall j, (j < i - pos)%nat -> starts_with pat (drop j l) = false.
Proof.
  revert pos. induction l as [|x l IH]; intros pos; cbn.
  - destruct (starts_with pat []) eqn:E; [|discriminate].
    intros [= <-]. rewrite Nat.sub_diag. cbn. split; [lia|]. split; [exact E|lia].
  - destruct (starts_with pat (x :: l)) eqn:E.
    + intros [= <-]. rewrite Nat.sub_diag. cbn. split; [lia|]. split; [exact E|lia].
    + intros Hf. destruct (IH _ Hf) as (Hle & Hs & Hmin).
      split; [lia|]. replace (i - pos)%nat with (S (i - S pos)) by lia. cbn.
      split; [exact Hs|]. intros [|j] Hj; cbn; [exact E|]. apply Hmin. lia.
Qed.

Lemma find_Some pat l i :
  find pat l = Some i ->
  starts_with pat (drop i l) = true
  /\ forall j, (j < i)%nat -> starts_with pat (drop j l) = false.
Proof.
  intros Hf. apply find_at_Some in Hf. rewrite Nat.sub_0_r in Hf. tauto.
Qed.

Lemma find_at_first pat pos l i :
  starts_with pat (drop i l) = true ->
  exists k, find_at pat pos l = Some k /\ (k <= pos + i)%nat.
Proof.
  revert pos i. induction l as [|x l IH]; intros pos i Hs; cbn.
  - rewrite drop_nil in Hs. rewrite Hs. exists pos. split; [reflexivity|lia].
  - destruct (starts_with pat (x :: l)) eqn:E.
    + exists pos. split; [reflexivity|lia].
    + destruct i as [|i]; [cbn in Hs; congruence|]. cbn in Hs.
      destruct (IH (S pos) i Hs) as (k & Hk & Hle). exists k. split; [exact Hk|lia].
Qed.

Lemma find_first pat l i :
  starts_with pat (drop i l) = true ->
  exists k, find pat l = Some k /\ (k <= i)%nat.
Proof. intros Hs. exact (find_at_first pat 0 l i Hs). Qed.

(** *** [replace] *)

Lemma replace_skip_drop old new k l :
  replace_skip old new k l = replace_skip old new 0 (drop k l).
Proof.
  revert k. induction l as [|x l IH]; intros [|k]; cbn; try reflexivity.
  rewrite IH. reflexivity.
Qed.

Lemma replace_cons old new x l :
  old <> [] ->
  replace old new (x :: l)
  = if starts_with old (x :: l)
    then new ++ replace old new (drop (length old) (x :: l))
    else x :: replace old new l.
Proof.
  destruct old as [|o old]; [congruence|]. intros _. unfold replace. cbn [replace_skip].
  destruct (starts_with (o :: old) (x :: l)); [|reflexivity].
  rewrite replace_skip_drop. cbn. now rewrite Nat.sub_0_r.
Qed.

Lemma replace_nil old new : old <> [] -> replace old new [] = [].
Proof. destruct old; [congruence|reflexivity]. Qed.

(** The first occurrence is replaced where it stands. *)
Lemma replace_at_first_occurrence old new l i :
  old <> [] -> find old l = Some i ->
  replace old new l
  = take i l ++ new ++ replace old new (drop (i + length old) l).
Proof.
  intros Hold Hf. apply find_Some in Hf as [Hs Hmin].
  revert i Hs Hmin. induction l as [|x l IH]; intros i Hs Hmin.
  - rewrite drop_nil in Hs. apply starts_with_nil_r in Hs. congruence.
  - rewrite replace_cons by exact Hold. destruct i as [|i].
    + cbn in Hs. rewrite Hs. reflexivity.
    + pose proof (Hmin 0%nat ltac:(lia)) as H0. cbn in H0. rewrite H0.
      cbn. f_equal. apply IH.
      * exact Hs.
      * intros j Hj. apply (Hmin (S j)). lia.
Qed.

(** Without an occurrence nothing changes. *)
Lemma replace_absent old new l :
  old <> [] -> contains old l = false -> replace old new l = l.
Proof.
  intros Hold. induction l as [|x l IH]; intros Hc.
  - now apply replace_nil.
  - cbn in Hc. apply orb_false_iff in Hc as [Hs Hc].
    rewrite replace_cons by exact Hold. rewrite Hs. f_equal. now apply IH.
Qed.

(** Replacing a pattern by itself changes nothing. *)
Lemma replace_same old l : old <> [] -> replace old old l = l.
Proof.
  intros Hold. remember (length l) as n eqn:Hn. revert l Hn.
  induction n as [n IH] using lt_wf_ind. intros l Hn.
  destruct l as [|x l]; [now apply replace_nil|].
  rewrite replace_cons by exact Hold.
  destruct (starts_with old (x :: l)) eqn:Hs.
  - apply starts_with_true in Hs as [r Hr]. rewrite Hr.
    rewrite drop_app_length. f_equal. apply (IH (length r)); [|reflexivity].
    subst n. rewrite Hr, length_app. destruct old; [congruence|cbn; lia].
  - f_equal. apply (IH (length l)); [subst n; cbn; lia|reflexivity].
Qed.

(** *** [re_search] *)

Lemma re_search_at_Some (p : list A -> option (nat * list A)) pos l i n g :
  re_search_at p pos l = Some (i, n, g) ->
  (pos <= i)%nat
  /\ p (drop (i - pos) l) = Some (n, g)
  /\ forall j, (j < i - pos)%nat -> p (drop j l) = None.
Proof.
  revert pos. induction l as [|x l IH]; intros pos; cbn.
  - destruct (p []) as [[n' g']|] eqn:E; [|discriminate].
    intros [= <- <- <-]. rewrite Nat.sub_diag. cbn. split; [lia|]. split; [exact E|lia].
  - destruct (p (x :: l)) as [[n' g']|] eqn:E.
    + intros [= <- <- <-]. rewrite Nat.sub_diag. cbn.
      split; [lia|]. split; [exact E|lia].
    + intros Hf. destruct (IH _ Hf) as (Hle & Hs & Hmin).
      split; [lia|]. replace (i - pos)%nat with (S (i - S pos)) by lia. cbn.
      split; [exact Hs|]. intros [|j] Hj; cbn; [exact E|]. apply Hmin. lia.
Qed.

Lemma re_search_Some (p : list A -> option (nat * list A)) l i n g :
  re_search p l = Some (i, n, g) ->
  p (drop i l) = Some (n, g) /\ forall j, (j < i)%nat -> p (drop j l) = None.
Proof.
  intros Hf. apply re_search_at_Some in Hf. rewrite Nat.sub_0_r in Hf. tauto.
Qed.

Lemma re_search_at_None (p : list A -> option (nat * list A)) pos l :
  re_search_at p pos l = None <-> forall j, p (drop j l) = None.
Proof.
  revert pos. induction l as [|x l IH]; intros pos; cbn.
  - destruct (p []) as [[n g]|] eqn:E.
    + split; [discriminate|]. intros Hall. specialize (Hall 0%nat). cbn in Hall. congruence.
    + split; [|reflexivity]. intros _ j. now rewrite drop_nil.
  - destruct (p (x :: l)) as [[n g]|] eqn:E.
    + split; [discriminate|]. intros Hall. specialize (Hall 0%nat). cbn in Hall. congruence.
    + rewrite IH. split.
      * intros Hall [|j]; cbn; [exact E|apply Hall].
      * intros Hall j. apply (Hall (S j)).
Qed.

Lemma re_search_at_first (p : list A -> option (nat * list A)) pos l i n g :
  p (drop i l) = Some (n, g) ->
  (forall j, (j < i)%nat -> p (drop j l) = None) ->
  re_search_at p pos l = Some ((pos + i)%nat, n, g).
Proof.
  revert i pos. induction l as [|x l IH]; intros i pos Hp Hmin.
  - rewrite drop_nil in Hp. cbn. rewrite Hp.
    destruct i as [|i]; [now rewrite Nat.add_0_r|].
    specialize (Hmin 0%nat ltac:(lia)). cbn in Hmin. congruence.
  - cbn. destruct i as [|i].
    + cbn in Hp. rewrite Hp. now rewrite Nat.add_0_r.
    + pose proof (Hmin 0%nat ltac:(lia)) as H0. cbn in H0. rewrite H0.
      cbn in Hp. rewrite (IH i (S pos) Hp).
      * f_equal. f_equal. f_equal. lia.
      * intros j Hj. apply (Hmin (S j)). lia.
Qed.

Lemma re_search_first (p : list A -> option (nat * list A)) l i n g :
  p (drop i l) = Some (n, g) ->
  (forall j, (j < i)%nat -> p (drop j l) = None) ->
  re_search p l = Some (i, n, g).
Proof. intros Hp Hmin. exact (re_search_at_first p 0 l i n g Hp Hmin). Qed.

End SeqFacts.

Section SpanFacts.
Context {A : Type}.

Lemma span_spec (p : A -> bool) (l g r : list A) :
  span p l = (g, r) ->
  l = g ++ r /\ forallb p g = true
  /\ match r with [] => True | y :: _ => p y = false end.
Proof.
  revert g r. induction l as [|x l IH]; intros g r; cbn.
  - intros [= <- <-]. auto.
  - destruct (p x) eqn:Ex.
    + destruct (span p l) as [g' r'] eqn:Es. intros [= <- <-].
      destruct (IH _ _ eq_refl) as (-> & Hall & Hr). cbn. rewrite Ex. auto.
    + intros [= <- <-]. cbn. rewrite Ex. auto.
Qed.

End SpanFacts.

Lemma strip_Some {A} `{EqDecision A} (pat l r : list A) :
  strip pat l = Some r -> l = pat ++ r.
Proof.
  unfold strip. destruct (starts_with pat l) eqn:Hs; [|discriminate].
  intros [= <-]. apply starts_with_true in Hs as [r ->].
  now rewrite drop_app_length.
Qed.

(** ** Launch options in the binary store *)

Lemma launch_options_pattern_Some (l : bytes) (n : nat) (g : bytes) :
  launch_options_pattern l = Some (n, g) ->
  starts_with (launch_options_field g) l = true
  /\ n = length (launch_options_field g)
  /\ forallb (fun x => negb (bool_decide (x = x00))) g = true.
Proof.
  unfold launch_options_pattern.
  destruct (strip LAUNCHOPTIONS l) as [r|] eqn:Hst; [|discriminate].
  apply strip_Some in Hst. subst l.
  destruct (span _ r) as [g' r'] eqn:Hsp.
  apply span_spec in Hsp as (-> & Hall & Hr).
  destruct r' as [|y r']; [discriminate|]. intros [= <- <-].
  apply negb_false_iff, bool_decide_eq_true in Hr. subst y.
  split; [|split].
  - unfold launch_options_field. apply starts_with_true. exists r'.
    now rewrite <- !app_assoc.
  - unfold launch_options_field. rewrite !length_app. cbn. lia.
  - exact Hall.
Qed.

Lemma starts_with_drop_slice {A} `{EqDecision A} (pat l : list A) (i j k : nat) :
  starts_with pat (drop k (slice i j l)) = true ->
  starts_with pat (drop (i + k) l) = true.
Proof.
  unfold slice. rewrite skipn_firstn_comm. intros Hs.
  apply starts_with_take_true in Hs. now rewrite drop_drop in Hs.
Qed.

Lemma launch_options_field_nonempty (g : bytes) : launch_options_field g <> [].
Proof. discriminate. Qed.

Lemma kiosk_in_launch_options : contains KIOSK LAUNCH_OPTIONS_utf8 = true.
Proof. vm_compute. reflexivity. Qed.

Lemma append_launch_options_no_field (content : bytes) (start : nat) :
  re_search launch_options_pattern (slice (start - 200) (start + 500) content) = None ->
  append_launch_options content start = content.
Proof. unfold append_launch_options. now intros ->. Qed.

(** X19: what lines 182-203 do.  When the window from 200 bytes before the
    match to 500 bytes after it holds a LaunchOptions field, the first such
    field decides.  If its value holds the kiosk option, and so in
    particular if it holds the whole options string, the output equals the
    input.  If it does not, the first occurrence in the store of the field
    with that value, which lies at or before the field found, is rewritten
    to the old value, one space and the options string, and the same is
    done to every later occurrence. *)
Theorem append_launch_options_guarded (content : bytes) (start pos n : nat)
  (current_options : bytes) :
  re_search launch_options_pattern (slice (start - 200) (start + 500) content)
  = Some (pos, n, current_options) ->
  let new_field :=
    launch_options_field (current_options ++ bs " " ++ LAUNCH_OPTIONS_utf8) in
  (contains KIOSK current_options = true ->
   append_launch_options content start = content)
  /\ (contains LAUNCH_OPTIONS_utf8 current_options = true ->
      append_launch_options content start = content)
  /\ (contains KIOSK current_options = false ->
      exists i,
        find (launch_options_field current_options) content = Some i
        /\ (i <= start - 200 + pos)%nat
        /\ append_launch_options content start
           = take i content ++ new_field
             ++ replace (launch_options_field current_options) new_field
                  (drop (i + length (launch_options_field current_options)) content)).
Proof.
  intros Hre new_field. unfold append_launch_options. rewrite Hre.
  split; [|split].
  - now intros ->.
  - intros Hc. now rewrite (contains_trans _ _ _ kiosk_in_launch_options Hc).
  - intros ->. cbn [negb].
    apply re_search_Some in Hre as [Hp _].
    apply launch_options_pattern_Some in Hp as (Hs & _ & _).
    apply starts_with_drop_slice in Hs.
    destruct (find_first _ _ _ Hs) as (i & Hfind & Hle).
    exists i. split; [exact Hfind|]. split; [exact Hle|].
    now apply replace_at_first_occurrence.
Qed.

Lemma append_launch_options_guarded_witness :
  re_search launch_options_pattern (slice (0 - 200) (0 + 500) sample_options_store)
  = Some (14%nat, 38%nat, bs "run com.microsoft.Edge")
  /\ let new_field :=
       launch_options_field (bs "run com.microsoft.Edge" ++ bs " " ++ LAUNCH_OPTIONS_utf8) in
     (contains KIOSK (bs "run com.microsoft.Edge") = true ->
      append_launch_options sample_options_store 0 = sample_options_store)
     /\ (contains LAUNCH_OPTIONS_utf8 (bs "run com.microsoft.Edge") = true ->
         append_launch_options sample_options_store 0 = sample_options_store)
     /\ (contains KIOSK (bs "run com.microsoft.Edge") = false ->
         exists i,
           find (launch_options_field (bs "run com.microsoft.Edge")) sample_options_store
           = Some i
           /\ (i <= 0 - 200 + 14)%nat
           /\ append_launch_options sample_options_store 0
              = take i sample_options_store ++ new_field
                ++ replace (launch_options_field (bs "run com.microsoft.Edge")) new_field
                     (drop (i + length (launch_options_field (bs "run com.microsoft.Edge")))
                           sample_options_store)).
Proof.
  split; [vm_compute; reflexivity|].
  apply (append_launch_options_guarded sample_options_store 0 14 38
           (bs "run com.microsoft.Edge")).
  vm_compute. reflexivity.
Defined.

(** On the sample store the options are appended to the one field. *)
Example append_launch_options_sample :
  append_launch_options sample_options_store 0
  = app_name_field (bs "Edge")
    ++ launch_options_field
         (bs "run com.microsoft.Edge" ++ bs " " ++ LAUNCH_OPTIONS_utf8).
Proof. vm_compute. reflexivity. Qed.

(** A value that is the kiosk option alone is left as it is, although
    it does not hold the options string. *)
Example append_launch_options_kiosk_only :
  re_search launch_options_pattern (slice 0 (0 + 500) sample_kiosk_store)
  = Some (14%nat, 51%nat, KIOSK)
  /\ contains LAUNCH_OPTIONS_utf8 KIOSK = false
  /\ append_launch_options sample_kiosk_store 0 = sample_kiosk_store
  /\ append_launch_options_spec sample_kiosk_store 0
     = app_name_field (bs "Edge")
       ++ launch_options_field (KIOSK ++ bs " " ++ LAUNCH_OPTIONS_utf8)
  /\ append_launch_options sample_kiosk_store 0
     <> append_launch_options_spec sample_kiosk_store 0.
Proof.
  repeat split; try (vm_compute; reflexivity).
  vm_compute. discriminate.
Qed.

(** C7: the options go to the field of another entry.  In the store of two
    entries laid out as section 6 has it, Notes started without launch
    options and then Microsoft Edge, the one match of the name pattern is
    the AppName field of Microsoft Edge, at offset 293.  The window searched
    for a LaunchOptions field starts 200 bytes before the match, so the
    field found is that of Notes, and the replacement, made in the whole
    store, changes that one: Notes gets the options string, and the field
    of Microsoft Edge, which follows the match and does not hold the
    options, stays as it was.  Looking in the 500 bytes after the match
    gives the field of Microsoft Edge.  The whole loop of
    [modify_shortcuts_vdf] renames Microsoft Edge and gives the options to
    Notes. *)
Theorem append_launch_options_rewrites_other_entry :
  re_finditer app_name_pattern sample_two_apps_store
  = [(293%nat, 24%nat, bs "Microsoft Edge")]
  /\ contains LAUNCH_OPTIONS_utf8 edge_launch_args = false
  /\ append_launch_options sample_two_apps_store 293
     = SHORTCUTS ++ sample_notes_entry (bs " " ++ LAUNCH_OPTIONS_utf8)
       ++ sample_edge_entry edge_name edge_launch_args ++ BSBS
  /\ append_launch_options_spec sample_two_apps_store 293
     = SHORTCUTS ++ sample_notes_entry []
       ++ sample_edge_entry edge_name
            (edge_launch_args ++ bs " " ++ LAUNCH_OPTIONS_utf8)
       ++ BSBS
  /\ modify_content sample_two_apps_store default_new_name
     = Ret (SHORTCUTS ++ sample_notes_entry (bs " " ++ LAUNCH_OPTIONS_utf8)
            ++ sample_edge_entry (bs "Xbox Cloud Gaming (Beta)") edge_launch_args
            ++ BSBS).
Proof. repeat split; vm_compute; reflexivity. Qed.

Lemma starts_with_prefix {A} `{EqDecision A} (a c l : list A) :
  starts_with (a ++ c) l = true -> starts_with a l = true.
Proof.
  intros [r ->]%starts_with_true. rewrite <- app_assoc. apply starts_with_app.
Qed.

(** ** Locating an entry by name *)

Lemma re_finditer_at_skip {A} (p : list A -> option (nat * list A)) k pos l :
  (k <= length l)%nat ->
  re_finditer_at p k pos l = re_finditer_at p 0 (pos + k) (drop k l).
Proof.
  revert pos l. induction k as [|k IH]; intros pos l Hk.
  - now rewrite Nat.add_0_r.
  - destruct l as [|x l]; cbn [re_finditer_at drop]; [cbn in Hk; lia|].
    rewrite IH by (cbn in Hk; lia). f_equal. lia.
Qed.

Lemma app_name_pattern_Some (l : bytes) (n : nat) (g : bytes) :
  app_name_pattern l = Some (n, g) ->
  In g edge_names
  /\ starts_with (app_name_field g) l = true
  /\ n = length (app_name_field g).
Proof.
  unfold app_name_pattern.
  destruct (strip APPNAME l) as [r|] eqn:Hst; [|discriminate].
  apply strip_Some in Hst. subst l.
  destruct (List.find _ edge_names) as [name|] eqn:Hf; [|discriminate].
  intros [= <- <-]. apply List.find_some in Hf as [Hin Hs].
  split; [exact Hin|]. split.
  - apply starts_with_true in Hs as [r' ->]. unfold app_name_field.
    apply starts_with_true. exists r'. now rewrite <- !app_assoc.
  - unfold app_name_field. rewrite !length_app. cbn. lia.
Qed.

Lemma app_name_pattern_field (name r : bytes) :
  In name edge_names -> app_name_pattern (app_name_field name ++ r) <> None.
Proof.
  intros [<-|[<-|[]]]; vm_compute; discriminate.
Qed.

Lemma app_name_pattern_iff (content : bytes) (i : nat) :
  app_name_pattern (drop i content) <> None <-> name_field_at content i.
Proof.
  split.
  - destruct (app_name_pattern (drop i content)) as [[n g]|] eqn:E; [|congruence].
    intros _. apply app_name_pattern_Some in E as (Hin & Hs & _). now exists g.
  - intros (name & Hin & [r ->]%starts_with_true).
    now apply app_name_pattern_field.
Qed.

(** The bytes of a match hold no other match: only the first is SOH. *)
Lemma app_name_pattern_no_overlap (l : bytes) (n : nat) (g : bytes) (k : nat) :
  app_name_pattern l = Some (n, g) -> (0 < k < n)%nat ->
  app_name_pattern (drop k l) = None.
Proof.
  intros Hp Hk. apply app_name_pattern_Some in Hp as (Hin & [r ->]%starts_with_true & ->).
  destruct Hin as [<-|[<-|[]]]; cbn in Hk;
    do 25 (destruct k as [|k]; [first [lia | vm_compute; reflexivity]|]); lia.
Qed.

Lemma app_name_pattern_pos (l : bytes) (n : nat) (g : bytes) :
  app_name_pattern l = Some (n, g) -> (0 < n)%nat.
Proof. intros (_ & _ & ->)%app_name_pattern_Some. unfold app_name_field. cbn. lia. Qed.

Lemma app_id_pattern_Some (l : bytes) (n : nat) (g : bytes) :
  app_id_pattern l = Some (n, g) ->
  starts_with (APPID ++ g) l = true /\ length g = 4%nat /\ ~ In x0a g.
Proof.
  unfold app_id_pattern.
  destruct (strip APPID l) as [r|] eqn:Hst; [|discriminate].
  apply strip_Some in Hst. subst l.
  destruct ((length (take 4 r) =? 4)%nat && forallb dot (take 4 r)) eqn:E; [|discriminate].
  intros [= <- <-]. apply andb_true_iff in E as [Hlen Hdot].
  apply Nat.eqb_eq in Hlen. split; [|split; [exact Hlen|]].
  - apply starts_with_true. exists (drop 4 r). now rewrite <- app_assoc, take_drop.
  - intros Hin. rewrite forallb_forall in Hdot. specialize (Hdot _ Hin).
    unfold dot in Hdot. now rewrite bool_decide_eq_true_2 in Hdot.
Qed.

Lemma app_id_pattern_field (g r : bytes) :
  length g = 4%nat -> ~ In x0a g ->
  app_id_pattern (APPID ++ g ++ r) = Some (11%nat, g).
Proof.
  intros Hlen Hlf. unfold app_id_pattern, strip. rewrite starts_with_app.
  rewrite drop_app_length. rewrite take_app_length' by (symmetry; exact Hlen).
  rewrite Hlen. cbn [Nat.eqb andb].
  replace (forallb dot g) with true; [reflexivity|].
  symmetry. apply forallb_forall. intros x Hx. unfold dot.
  apply negb_true_iff, bool_decide_eq_false. intros ->. now apply Hlf.
Qed.

Lemma In_drop {A} (x : A) (n : nat) (l : list A) : In x (drop n l) -> In x l.
Proof. intros Hin. rewrite <- (take_drop n l). apply in_or_app. now right. Qed.

Lemma In_take {A} (x : A) (n : nat) (l : list A) : In x (take n l) -> In x l.
Proof. intros Hin. rewrite <- (take_drop n l). apply in_or_app. now left. Qed.

Lemma In_slice {A} `{EqDecision A} (x : A) (i j : nat) (l : list A) :
  In x (slice i j l) -> In x l.
Proof. unfold slice. intros Hin. eapply In_drop, In_take, Hin. Qed.

Lemma finditer_name_unfold (pos : nat) (l : bytes) :
  re_finditer_at app_name_pattern 0 pos l
  = match app_name_pattern l with
    | Some (n, g) =>
        (pos, n, g) :: re_finditer_at app_name_pattern 0 (pos + n) (drop n l)
    | None =>
        match l with
        | [] => []
        | _ :: l' => re_finditer_at app_name_pattern 0 (S pos) l'
        end
    end.
Proof.
  destruct l as [|x l]; [reflexivity|]. cbn [re_finditer_at].
  destruct (app_name_pattern (x :: l)) as [[n g]|] eqn:E; [|reflexivity].
  pose proof (app_name_pattern_pos _ _ _ E) as Hpos.
  apply app_name_pattern_Some in E as (_ & Hs & Hn).
  apply starts_with_length in Hs. rewrite <- Hn in Hs. cbn in Hs.
  f_equal. rewrite re_finditer_at_skip by lia.
  destruct n as [|n]; [lia|]. cbn. rewrite Nat.sub_0_r. f_equal. lia.
Qed.

Lemma scan_from_end (content : bytes) (pos : nat) :
  (length content <= pos)%nat -> scan_from content pos = None.
Proof.
  intros Hlen. unfold scan_from. now rewrite drop_ge by exact Hlen.
Qed.

Lemma scan_from_skip (content : bytes) (pos : nat) :
  app_name_pattern (drop pos content) = None ->
  scan_from content pos = scan_from content (S pos).
Proof.
  intros Hnone. unfold scan_from. rewrite finditer_name_unfold, Hnone.
  destruct (drop pos content) as [|x l] eqn:Ed.
  - rewrite drop_ge; [reflexivity|].
    apply (f_equal length) in Ed. rewrite length_drop in Ed. cbn in Ed. lia.
  - replace (drop (S pos) content) with (drop 1 (drop pos content)).
    + now rewrite Ed.
    + rewrite drop_drop. f_equal. lia.
Qed.

Lemma scan_from_match (content : bytes) (pos n : nat) (g : bytes) :
  app_name_pattern (drop pos content) = Some (n, g) ->
  scan_from content pos
  = match re_search app_id_pattern (slice (pos - 200) pos content) with
    | Some (_, _, app_id_bytes) => Some (int_from_bytes app_id_bytes)
    | None => scan_from content (pos + n)
    end.
Proof.
  intros Hsome. unfold scan_from at 1. rewrite finditer_name_unfold, Hsome.
  cbn [first_app_id]. rewrite drop_drop. reflexivity.
Qed.

Lemma scan_from_none (content : bytes) :
  (forall i, app_name_pattern (drop i content) <> None ->
             re_search app_id_pattern (slice (i - 200) i content) = None) ->
  forall pos, scan_from content pos = None.
Proof.
  intros Hall pos. remember (length content - pos)%nat as d eqn:Hd.
  revert pos Hd. induction d as [d IH] using lt_wf_ind. intros pos Hd.
  destruct (le_lt_dec (length content) pos) as [Hge|Hlt];
    [now apply scan_from_end|].
  destruct (app_name_pattern (drop pos content)) as [[n g]|] eqn:E.
  - rewrite (scan_from_match _ _ _ _ E), Hall by congruence.
    pose proof (app_name_pattern_pos _ _ _ E).
    apply (IH (length content - (pos + n))%nat); lia.
  - rewrite (scan_from_skip _ _ E). apply (IH (length content - S pos)%nat); lia.
Qed.

Lemma scan_from_some (content : bytes) (i n j k : nat) (g gid : bytes) :
  app_name_pattern (drop i content) = Some (n, g) ->
  re_search app_id_pattern (slice (i - 200) i content) = Some (j, k, gid) ->
  forall pos, (pos <= i)%nat ->
    (forall i', (pos <= i' < i)%nat ->
                app_name_pattern (drop i' content) <> None ->
                re_search app_id_pattern (slice (i' - 200) i' content) = None) ->
    scan_from content pos = Some (int_from_bytes gid).
Proof.
  intros Hname Hid pos. remember (i - pos)%nat as d eqn:Hd.
  revert pos Hd. induction d as [d IH] using lt_wf_ind. intros pos Hd Hle Hbefore.
  destruct (Nat.eq_dec pos i) as [->|Hne].
  - now rewrite (scan_from_match _ _ _ _ Hname), Hid.
  - destruct (app_name_pattern (drop pos content)) as [[n' g']|] eqn:E.
    + rewrite (scan_from_match _ _ _ _ E), Hbefore by (try lia; congruence).
      pose proof (app_name_pattern_pos _ _ _ E).
      assert (Hjump : (pos + n' <= i)%nat).
      { destruct (le_lt_dec (pos + n') i) as [|Hlt]; [assumption|].
        pose proof (app_name_pattern_no_overlap _ _ _ (i - pos) E ltac:(lia)) as Hno.
        rewrite drop_drop in Hno. replace (pos + (i - pos))%nat with i in Hno by lia.
        congruence. }
      apply (IH (i - (pos + n'))%nat); try lia.
      intros i' Hi'. apply Hbefore. lia.
    + rewrite (scan_from_skip _ _ E). apply (IH (i - S pos)%nat); try lia.
      intros i' Hi'. apply Hbefore. lia.
Qed.

Lemma locate_entry_scan (content : bytes) : locate_entry content = scan_from content 0.
Proof. reflexivity. Qed.

Lemma dot_all_no_line_feed (l : bytes) : forallb dot l = true -> ~ In x0a l.
Proof.
  intros Hall Hin. rewrite forallb_forall in Hall. specialize (Hall _ Hin).
  unfold dot in Hall. now rewrite bool_decide_eq_true_2 in Hall.
Qed.

Lemma appid_field_no_line_feed (w : bytes) (j : nat) (g : bytes) :
  ~ In x0a w -> appid_field_at w j g -> ~ In x0a g.
Proof.
  intros Hw [[r Hr]%starts_with_true _] Hin. apply Hw, (In_drop _ j).
  rewrite Hr. apply in_or_app. left. apply in_or_app. now right.
Qed.

Lemma search_appid_first (w : bytes) (j : nat) (g : bytes) :
  ~ In x0a w -> appid_field_at w j g ->
  (forall j' g', (j' < j)%nat -> ~ appid_field_at w j' g') ->
  re_search app_id_pattern w = Some (j, 11%nat, g).
Proof.
  intros Hw Hf Hmin. apply re_search_first.
  - pose proof (appid_field_no_line_feed _ _ _ Hw Hf) as Hg.
    destruct Hf as [[r Hr]%starts_with_true Hlen]. rewrite Hr, <- app_assoc.
    now apply app_id_pattern_field.
  - intros j' Hj'. destruct (app_id_pattern (drop j' w)) as [[n g']|] eqn:E;
      [|reflexivity].
    apply app_id_pattern_Some in E as (Hs & Hlen & _).
    destruct (Hmin j' g' Hj'). now split.
Qed.

Lemma search_appid_none (w : bytes) :
  (forall j g, ~ appid_field_at w j g) -> re_search app_id_pattern w = None.
Proof.
  intros Hall. apply re_search_at_None. intros j.
  destruct (app_id_pattern (drop j w)) as [[n g]|] eqn:E; [|reflexivity].
  apply app_id_pattern_Some in E as (Hs & Hlen & _).
  destruct (Hall j g). now split.
Qed.

(** No match with an appid field before it: no result. *)
Lemma locate_entry_no_field (content : bytes) :
  (forall i, name_field_at content i ->
             forall j g, ~ appid_field_at (slice (i - 200) i content) j g) ->
  locate_entry content = None.
Proof.
  intros Hall. rewrite locate_entry_scan. apply scan_from_none.
  intros i Hi%app_name_pattern_iff. apply search_appid_none. now apply Hall.
Qed.

(** The first match with an appid field before it decides, by the first
    such field. *)
Lemma locate_entry_leftmost_field (content : bytes) (i j : nat) (g : bytes) :
  forallb dot content = true ->
  name_field_at content i ->
  (forall i', (i' < i)%nat -> name_field_at content i' ->
              forall j' g', ~ appid_field_at (slice (i' - 200) i' content) j' g') ->
  appid_field_at (slice (i - 200) i content) j g ->
  (forall j' g', (j' < j)%nat ->
                 ~ appid_field_at (slice (i - 200) i content) j' g') ->
  locate_entry content = Some (int_from_bytes g).
Proof.
  intros Hdot%dot_all_no_line_feed Hname Hbefore Hfield Hfirst.
  destruct (app_name_pattern (drop i content)) as [[n name]|] eqn:E;
    [|now apply app_name_pattern_iff in Hname].
  rewrite locate_entry_scan.
  apply (scan_from_some content i n j 11%nat name g E).
  - apply search_appid_first; [|exact Hfield|exact Hfirst].
    intros Hin. apply Hdot. eapply In_slice, Hin.
  - lia.
  - intros i' Hi' Hn'%app_name_pattern_iff. apply search_appid_none.
    apply Hbefore; [lia|exact Hn'].
Qed.

(** X18: what lines 131-150 do.  For a store without line-feed bytes,
    [locate_entry] returns none when no target AppName field is present, and
    more generally when no such field has an appid field in the 200 bytes
    before it; and when the first target AppName field that has an appid
    field in the 200 bytes before it stands at offset [i], the result is the
    little-endian value of the first appid field of that window, the one
    farthest before the match. *)
Theorem locate_entry_first_field_of_window (content : bytes) :
  forallb dot content = true ->
  ((forall i, ~ name_field_at content i) -> locate_entry content = None)
  /\ ((forall i, name_field_at content i ->
                 forall j g, ~ appid_field_at (slice (i - 200) i content) j g) ->
      locate_entry content = None)
  /\ (forall i j g,
        name_field_at content i ->
        (forall i', (i' < i)%nat -> name_field_at content i' ->
                    forall j' g', ~ appid_field_at (slice (i' - 200) i' content) j' g') ->
        appid_field_at (slice (i - 200) i content) j g ->
        (forall j' g', (j' < j)%nat ->
                       ~ appid_field_at (slice (i - 200) i content) j' g') ->
        locate_entry content = Some (int_from_bytes g)).
Proof.
  intros Hdot. split; [|split].
  - intros Hno. apply locate_entry_no_field. intros i Hi. now destruct (Hno i).
  - apply locate_entry_no_field.
  - intros i j g. now apply locate_entry_leftmost_field.
Qed.

Lemma locate_entry_first_field_of_window_witness :
  forallb dot sample_two_entries = true
  /\ (((forall i, ~ name_field_at sample_two_entries i) ->
       locate_entry sample_two_entries = None)
      /\ ((forall i, name_field_at sample_two_entries i ->
                     forall j g,
                       ~ appid_field_at (slice (i - 200) i sample_two_entries) j g) ->
          locate_entry sample_two_entries = None)
      /\ (forall i j g,
            name_field_at sample_two_entries i ->
            (forall i', (i' < i)%nat -> name_field_at sample_two_entries i' ->
                        forall j' g',
                          ~ appid_field_at (slice (i' - 200) i' sample_two_entries) j' g') ->
            appid_field_at (slice (i - 200) i sample_two_entries) j g ->
            (forall j' g', (j' < j)%nat ->
                           ~ appid_field_at (slice (i - 200) i sample_two_entries) j' g') ->
            locate_entry sample_two_entries = Some (int_from_bytes g))).
Proof.
  split; [vm_compute; reflexivity|].
  apply (locate_entry_first_field_of_window sample_two_entries).
  vm_compute. reflexivity.
Defined.

(** C6: the appid returned is that of another entry.  In the store of two
    short entries, Notes with appid 0x11111111 and then Microsoft Edge with
    appid 0x22222222, the one match of the name pattern is the AppName field
    of Microsoft Edge, at offset 54, and the appid field of Microsoft Edge
    stands just before it, at offset 43.  The 200 bytes before the match
    also hold the appid field of Notes, at offset 14, and the search in
    them takes the first field it meets: the appid of Notes is returned for
    Microsoft Edge.  The field nearest before the match is that of
    Microsoft Edge. *)
Theorem locate_entry_returns_other_appid :
  sample_two_entries
  = SHORTCUTS
    ++ (object_start (bs "0") ++ APPID ++ [x11; x11; x11; x11]
        ++ app_name_field (bs "Notes"))
    ++ (object_start (bs "1") ++ APPID ++ [x22; x22; x22; x22]
        ++ app_name_field (bs "Microsoft Edge"))
    ++ BSBS
  /\ re_finditer app_name_pattern sample_two_entries
     = [(54%nat, 24%nat, bs "Microsoft Edge")]
  /\ appid_field_at sample_two_entries 43 [x22; x22; x22; x22]
  /\ appid_field_at sample_two_entries 14 [x11; x11; x11; x11]
  /\ locate_entry sample_two_entries = Some 0x11111111
  /\ locate_entry_spec sample_two_entries = Some 0x22222222.
Proof. repeat split; vm_compute; reflexivity. Qed.

(** On the sample store the first target AppName field stands at offset
    25 and the first appid field of its window at offset 14. *)
Example locate_entry_sample_store : locate_entry sample_store = Some 0x12345678.
Proof.
  apply (locate_entry_leftmost_field sample_store 25 14 [x78; x56; x34; x12]).
  - vm_compute. reflexivity.
  - exists (bs "Microsoft Edge"). split; [now left|vm_compute; reflexivity].
  - intros i' Hi' Hn%app_name_pattern_iff. exfalso.
    do 25 (destruct i' as [|i']; [vm_compute in Hn; congruence|]). lia.
  - split; vm_compute; reflexivity.
  - intros j' g' Hj [Hs%starts_with_prefix _].
    do 14 (destruct j' as [|j']; [vm_compute in Hs; discriminate|]). lia.
Qed.

(** ** Renaming *)

Section MarkerFacts.
Context {A : Type} `{EqDecision A}.
Implicit Types (pat old new l q a u v z pre : list A).

Lemma starts_with_app_same a u v :
  starts_with (a ++ u) (a ++ v) = starts_with u v.
Proof.
  induction a as [|x a IH]; [reflexivity|]. cbn.
  now rewrite bool_decide_eq_true_2 by reflexivity.
Qed.

(** Two runs that end at the same terminator are the same run. *)
Lemma terminated_prefix_eq (e : A) u v z :
  starts_with (u ++ [e]) (v ++ e :: z) = true ->
  ~ In e u -> ~ In e v -> u = v.
Proof.
  revert v. induction u as [|x u IH]; intros [|y v] Hs Hu Hv; cbn in *.
  - reflexivity.
  - apply andb_true_iff in Hs as [->%bool_decide_eq_true _]. tauto.
  - apply andb_true_iff in Hs as [->%bool_decide_eq_true _]. tauto.
  - apply andb_true_iff in Hs as [->%bool_decide_eq_true Hs].
    f_equal. apply IH; tauto.
Qed.

Lemma contains_cons pat x l :
  contains pat (x :: l) = starts_with pat (x :: l) || contains pat l.
Proof. reflexivity. Qed.

(** A pattern does not start inside a run that lacks its first element. *)
Lemma contains_app_no_head (h : A) pat' pre z :
  ~ In h pre ->
  contains (h :: pat') (pre ++ z) = contains (h :: pat') z.
Proof.
  induction pre as [|x pre IH]; intros Hpre; [reflexivity|].
  cbn [app]. rewrite contains_cons. cbn [starts_with].
  rewrite bool_decide_eq_false_2 by (intros ->; apply Hpre; now left).
  cbn. apply IH. intros Hin. apply Hpre. now right.
Qed.

(** Replacing one marked field by another leaves every run without the
    mark where it was. *)
Lemma replace_keeps_free_prefix (h : A) old' new' q l :
  ~ In h q ->
  starts_with q (replace (h :: old') (h :: new') l) = starts_with q l.
Proof.
  revert q. induction l as [|x l IH]; intros q Hq.
  - now rewrite replace_nil by discriminate.
  - rewrite replace_cons by discriminate.
    destruct (starts_with (h :: old') (x :: l)) eqn:Hs.
    + cbn in Hs. apply andb_true_iff in Hs as [<-%bool_decide_eq_true _].
      destruct q as [|y q]; [reflexivity|]. cbn.
      assert (Hy : y <> h) by (intros ->; apply Hq; now left).
      now rewrite !(bool_decide_eq_false_2 (y = h)) by exact Hy.
    + destruct q as [|y q]; [reflexivity|]. cbn. rewrite IH; [reflexivity|].
      intros Hin. apply Hq. now right.
Qed.

Lemma contains_false_drop pat l k :
  contains pat l = false -> contains pat (drop k l) = false.
Proof.
  intros Hc. destruct (contains pat (drop k l)) eqn:E; [|reflexivity].
  apply contains_true in E as (a & c & Heq). rewrite <- Hc. symmetry.
  apply contains_true. exists (take k l ++ a), c.
  rewrite <- app_assoc, <- Heq. symmetry. apply take_drop.
Qed.

Lemma contains_starts pat l :
  contains pat l = true <-> exists i, starts_with pat (drop i l) = true.
Proof.
  split.
  - intros (a & c & ->)%contains_true. exists (length a).
    rewrite drop_app_length. apply starts_with_app.
  - intros [i Hs]. now apply contains_drop with i.
Qed.

End MarkerFacts.

Lemma app_name_field_run (name : bytes) :
  app_name_field name = x01 :: app_name_run name.
Proof. reflexivity. Qed.

Lemma app_name_run_free (name : bytes) :
  ~ In x01 name -> ~ In x01 (app_name_run name).
Proof.
  intros Hname Hin. unfold app_name_run in Hin.
  apply in_app_or in Hin as [Hin|Hin].
  - vm_compute in Hin. intuition discriminate.
  - apply in_app_or in Hin as [Hin|Hin]; [destruct Hin as [|[]]; discriminate|].
    apply in_app_or in Hin as [Hin|Hin]; [now apply Hname|].
    destruct Hin as [|[]]; discriminate.
Qed.

Lemma edge_name_clean (name : bytes) :
  In name edge_names -> ~ In x00 name /\ ~ In x01 name.
Proof.
  intros [<-|[<-|[]]]; split; intros Hin; vm_compute in Hin; intuition discriminate.
Qed.

Lemma app_name_field_starts (name new_name z : bytes) :
  ~ In x00 name -> ~ In x00 new_name ->
  starts_with (app_name_field name) (app_name_field new_name ++ z) = true ->
  name = new_name.
Proof.
  intros Hn Hnew Hs. unfold app_name_field in Hs.
  rewrite <- !app_assoc, starts_with_app_same in Hs.
  exact (terminated_prefix_eq x00 name new_name z Hs Hn Hnew).
Qed.

(** After the rename of [n] no field of a target name other than the new
    name is left, if none was there or if it was the one renamed. *)
Lemma rename_removes (n n' new_name : bytes) :
  In n edge_names -> In n' edge_names -> n' <> new_name ->
  ~ In x00 new_name -> ~ In x01 new_name ->
  forall l,
    n' = n \/ contains (app_name_field n') l = false ->
    contains (app_name_field n')
             (replace (app_name_field n) (app_name_field new_name) l) = false.
Proof.
  intros Hn Hn' Hneq Hnew0 Hnew1 l.
  destruct (edge_name_clean _ Hn) as [Hn0 Hn1].
  destruct (edge_name_clean _ Hn') as [Hn'0 Hn'1].
  remember (length l) as m eqn:Hm. revert l Hm.
  induction m as [m IH] using lt_wf_ind. intros l Hm Hpre.
  destruct l as [|x l].
  - rewrite replace_nil by discriminate. reflexivity.
  - rewrite replace_cons by discriminate.
    destruct (starts_with (app_name_field n) (x :: l)) eqn:Hs.
    + apply starts_with_true in Hs as [r Hr]. rewrite Hr, drop_app_length.
      assert (Hlen : (length r < m)%nat).
      { subst m. rewrite Hr, length_app. unfold app_name_field.
        rewrite length_app. cbn. lia. }
      assert (Hr' : n' = n \/ contains (app_name_field n') r = false).
      { destruct Hpre as [->|Hc]; [now left|right].
        rewrite Hr in Hc.
        apply (contains_false_drop _ _ (length (app_name_field n))) in Hc.
        now rewrite drop_app_length in Hc. }
      specialize (IH _ Hlen r eq_refl Hr').
      rewrite (app_name_field_run new_name). cbn [app]. rewrite contains_cons.
      apply orb_false_iff. split.
      * rewrite <- (app_name_field_run new_name).
        destruct (starts_with _ _) eqn:E; [|reflexivity].
        apply app_name_field_starts in E; [congruence|assumption|assumption].
      * rewrite (app_name_field_run n') at 1.
        rewrite contains_app_no_head by now apply app_name_run_free.
        rewrite <- (app_name_field_run n'). exact IH.
    + assert (Hl' : n' = n \/ contains (app_name_field n') l = false).
      { destruct Hpre as [->|Hc]; [now left|right].
        rewrite contains_cons in Hc. now apply orb_false_iff in Hc. }
      assert (Hhead : starts_with (app_name_field n') (x :: l) = false).
      { destruct Hpre as [->|Hc]; [exact Hs|].
        rewrite contains_cons in Hc. now apply orb_false_iff in Hc. }
      rewrite contains_cons. apply orb_false_iff. split.
      * rewrite <- Hhead. rewrite (app_name_field_run n'). cbn [starts_with].
        f_equal. rewrite (app_name_field_run n), (app_name_field_run new_name).
        apply replace_keeps_free_prefix. now apply app_name_run_free.
      * apply (IH (length l)); [subst m; cbn; lia|reflexivity|exact Hl'].
Qed.

Lemma app_name_pattern_of_field (name r : bytes) :
  In name edge_names ->
  app_name_pattern (app_name_field name ++ r)
  = Some (length (app_name_field name), name).
Proof. intros [<-|[<-|[]]]; vm_compute; reflexivity. Qed.

Lemma app_name_pattern_nil : app_name_pattern [] = None.
Proof. reflexivity. Qed.

(** [finditer] lists every offset at which the name pattern matches. *)
Lemma finditer_name_complete (content : bytes) (i n : nat) (g : bytes) :
  app_name_pattern (drop i content) = Some (n, g) ->
  forall pos, (pos <= i)%nat ->
    In (i, n, g) (re_finditer_at app_name_pattern 0 pos (drop pos content)).
Proof.
  intros Hname pos. remember (i - pos)%nat as d eqn:Hd.
  revert pos Hd. induction d as [d IH] using lt_wf_ind. intros pos Hd Hle.
  rewrite finditer_name_unfold.
  destruct (Nat.eq_dec pos i) as [->|Hne].
  - rewrite Hname. now left.
  - destruct (app_name_pattern (drop pos content)) as [[n' g']|] eqn:E.
    + right. rewrite drop_drop.
      pose proof (app_name_pattern_pos _ _ _ E).
      assert (Hjump : (pos + n' <= i)%nat).
      { destruct (le_lt_dec (pos + n') i) as [|Hlt]; [assumption|].
        pose proof (app_name_pattern_no_overlap _ _ _ (i - pos) E ltac:(lia)) as Hno.
        rewrite drop_drop in Hno. replace (pos + (i - pos))%nat with i in Hno by lia.
        congruence. }
      apply (IH (i - (pos + n'))%nat); lia.
    + destruct (drop pos content) as [|x l] eqn:Ed.
      * rewrite drop_ge in Hname; [discriminate|].
        apply (f_equal length) in Ed. rewrite length_drop in Ed. cbn in Ed. lia.
      * replace l with (drop (S pos) content).
        -- apply (IH (i - S pos)%nat); lia.
        -- replace (S pos) with (pos + 1)%nat by lia.
           now rewrite <- drop_drop, Ed.
Qed.

(** Every match [finditer] lists is a match of the name pattern. *)
Lemma finditer_name_sound (content : bytes) (i n : nat) (g : bytes) :
  forall pos,
    In (i, n, g) (re_finditer_at app_name_pattern 0 pos (drop pos content)) ->
    app_name_pattern (drop i content) = Some (n, g).
Proof.
  intros pos. remember (length content - pos)%nat as d eqn:Hd.
  revert pos Hd. induction d as [d IH] using lt_wf_ind. intros pos Hd.
  rewrite finditer_name_unfold.
  destruct (app_name_pattern (drop pos content)) as [[n' g']|] eqn:E.
  - intros [[= <- <- <-]|Hin]; [exact E|].
    rewrite drop_drop in Hin.
    pose proof (app_name_pattern_pos _ _ _ E).
    destruct (le_lt_dec (length content) pos) as [Hge|Hlt].
    { rewrite drop_ge in E by exact Hge. discriminate. }
    apply (IH (length content - (pos + n'))%nat) in Hin; [exact Hin|lia|lia].
  - destruct (drop pos content) as [|x l] eqn:Ed; [intros []|].
    assert (Hlt : (pos < length content)%nat).
    { apply (f_equal length) in Ed. rewrite length_drop in Ed. cbn in Ed. lia. }
    replace l with (drop (S pos) content).
    + apply (IH (length content - S pos)%nat); lia.
    + replace (S pos) with (pos + 1)%nat by lia. now rewrite <- drop_drop, Ed.
Qed.

Lemma finditer_name_group (content : bytes) (m : nat * nat * bytes) :
  In m (re_finditer app_name_pattern content) ->
  In (snd m) edge_names /\ contains (app_name_field (snd m)) content = true.
Proof.
  destruct m as [[i n] g]. intros Hin.
  apply (finditer_name_sound content i n g 0) in Hin.
  apply app_name_pattern_Some in Hin as (Hg & Hs & _).
  split; [exact Hg|]. now apply contains_drop with i.
Qed.

Lemma finditer_name_finds (content name : bytes) :
  In name edge_names -> contains (app_name_field name) content = true ->
  exists m, In m (re_finditer app_name_pattern content) /\ snd m = name.
Proof.
  intros Hname [i [r Hr]%starts_with_true]%contains_starts.
  exists (i, length (app_name_field name), name). split; [|reflexivity].
  apply (finditer_name_complete content i _ name); [|lia].
  rewrite Hr. now apply app_name_pattern_of_field.
Qed.

Lemma rename_fold_removes (new_name n' : bytes) :
  In n' edge_names -> n' <> new_name ->
  ~ In x00 new_name -> ~ In x01 new_name ->
  forall ms l,
    (forall m, In m ms -> In (snd m) edge_names) ->
    (contains (app_name_field n') l = false
     \/ exists m, In m ms /\ snd m = n') ->
    contains (app_name_field n') (fold_left (rename_step new_name) ms l) = false.
Proof.
  intros Hn' Hneq H0 H1 ms. induction ms as [|m ms IH]; intros l Hms Hpre.
  - destruct Hpre as [Hc|(m & [] & _)]. exact Hc.
  - cbn [fold_left]. apply IH; [intros m' Hm'; apply Hms; now right|].
    assert (Hm : In (snd m) edge_names) by (apply Hms; now left).
    destruct m as [[i n] g]. cbn [snd] in Hm. cbn [rename_step].
    destruct Hpre as [Hc|(m0 & [<-|Hin] & Hsnd)].
    + left. apply rename_removes; auto.
    + left. cbn [snd] in Hsnd. apply rename_removes; auto.
    + right. now exists m0.
Qed.

Lemma rename_fold_same (new_name : bytes) (ms : list (nat * nat * bytes)) (l : bytes) :
  (forall m, In m ms -> snd m = new_name) ->
  fold_left (rename_step new_name) ms l = l.
Proof.
  revert l. induction ms as [|m ms IH]; intros l Hms; [reflexivity|].
  cbn [fold_left]. destruct m as [[i n] g].
  pose proof (Hms _ (or_introl eq_refl)) as Hg. cbn [snd] in Hg. subst g.
  cbn [rename_step]. rewrite replace_same by discriminate.
  apply IH. intros m Hm. apply Hms. now right.
Qed.

(** After [rename_entry] only fields of the new name are left among the
    fields of target names. *)
Lemma rename_entry_removes (new_name name content : bytes) :
  ~ In x00 new_name -> ~ In x01 new_name ->
  In name edge_names -> name <> new_name ->
  contains (app_name_field name) (rename_entry new_name content) = false.
Proof.
  intros H0 H1 Hname Hneq. unfold rename_entry.
  apply rename_fold_removes; try assumption.
  - intros m Hm. now apply finditer_name_group in Hm.
  - destruct (contains (app_name_field name) content) eqn:E; [right|now left].
    now apply finditer_name_finds.
Qed.

(** C9: for a new name whose bytes hold neither NUL nor SOH, as the
    default name and every name the store format can hold, renaming twice
    gives the bytes of renaming once, for every store: after the first
    renaming no AppName field of a target name other than the new name is
    left, so the second renaming replaces nothing or replaces fields of the
    new name by themselves. *)
Theorem rename_entry_idempotent (new_name content : bytes) :
  ~ In x00 new_name -> ~ In x01 new_name ->
  rename_entry new_name (rename_entry new_name content)
  = rename_entry new_name content
  /\ forall name, In name edge_names -> name <> new_name ->
       contains (app_name_field name) (rename_entry new_name content) = false.
Proof.
  intros H0 H1. split.
  - unfold rename_entry at 1. apply rename_fold_same. intros m Hm.
    apply finditer_name_group in Hm as [Hname Hc].
    destruct (decide (snd m = new_name)) as [|Hneq]; [assumption|].
    now rewrite rename_entry_removes in Hc.
  - intros name Hname Hneq. now apply rename_entry_removes.
Qed.

Lemma rename_entry_idempotent_witness :
  ~ In x00 (bs "Xbox Cloud Gaming (Beta)")
  /\ ~ In x01 (bs "Xbox Cloud Gaming (Beta)")
  /\ (rename_entry (bs "Xbox Cloud Gaming (Beta)")
        (rename_entry (bs "Xbox Cloud Gaming (Beta)") sample_store)
      = rename_entry (bs "Xbox Cloud Gaming (Beta)") sample_store
      /\ forall name, In name edge_names -> name <> bs "Xbox Cloud Gaming (Beta)" ->
           contains (app_name_field name)
                    (rename_entry (bs "Xbox Cloud Gaming (Beta)") sample_store) = false).
Proof.
  assert (H0 : ~ In x00 (bs "Xbox Cloud Gaming (Beta)"))
    by (vm_compute; intuition discriminate).
  assert (H1 : ~ In x01 (bs "Xbox Cloud Gaming (Beta)"))
    by (vm_compute; intuition discriminate).
  split; [exact H0|]. split; [exact H1|].
  exact (rename_entry_idempotent (bs "Xbox Cloud Gaming (Beta)") sample_store H0 H1).
Defined.

Example rename_sample_store :
  str_encode default_new_name = Ret (bs "Xbox Cloud Gaming (Beta)")
  /\ rename_entry (bs "Xbox Cloud Gaming (Beta)") sample_store
     = SHORTCUTS ++ object_start (bs "0") ++ APPID ++ [x78; x56; x34; x12]
       ++ app_name_field (bs "Xbox Cloud Gaming (Beta)")
       ++ launch_options_field (bs "run com.microsoft.Edge")
       ++ BSBS ++ BSBS.
Proof. split; vm_compute; reflexivity. Qed.

(** The whole loop of [modify_shortcuts_vdf] on the sample store: the entry
    is renamed and its launch options extended; run again, the loop finds
    no match and changes nothing. *)
Example modify_sample_store :
  modify_content sample_store default_new_name
  = Ret (SHORTCUTS ++ object_start (bs "0") ++ APPID ++ [x78; x56; x34; x12]
         ++ app_name_field (bs "Xbox Cloud Gaming (Beta)")
         ++ launch_options_field
              (bs "run com.microsoft.Edge" ++ bs " " ++ LAUNCH_OPTIONS_utf8)
         ++ BSBS ++ BSBS)
  /\ (c <- modify_content sample_store default_new_name ;;
      modify_content c default_new_name)
     = modify_content sample_store default_new_name.
Proof. split; vm_compute; reflexivity. Qed.

(** ** Inserting an entry *)

Section SplitFacts.
Context {A : Type} `{EqDecision A}.
Implicit Types (pat lit l u z q : list A).

Lemma ends_with_true pat l :
  ends_with pat l = true <-> exists a, l = a ++ pat.
Proof.
  unfold ends_with. rewrite starts_with_true. split.
  - intros [r Hr]. exists (rev r).
    rewrite <- (rev_involutive l), Hr, rev_app_distr, rev_involutive. reflexivity.
  - intros [a ->]. exists (rev a). now rewrite rev_app_distr.
Qed.

(** A pattern read across a seam lies on one side of it or is cut by it. *)
Lemma starts_with_app_split lit u z :
  starts_with lit (u ++ z) = true ->
  starts_with lit u = true
  \/ ((length u < length lit)%nat
      /\ starts_with (drop (length u) lit) z = true).
Proof.
  revert u. induction lit as [|x lit IH]; intros u Hs; [now left|].
  destruct u as [|y u].
  - right. cbn. split; [lia|exact Hs].
  - cbn in Hs. apply andb_true_iff in Hs as [Hxy Hs].
    destruct (IH _ Hs) as [Hl|[Hlen Hr]].
    + left. cbn. now rewrite Hxy, Hl.
    + right. cbn. split; [lia|exact Hr].
Qed.

(** A pattern agrees with the text it starts, element by element. *)
Lemma starts_with_lookup lit l (k : nat) (x : A) :
  starts_with lit l = true -> lit !! k = Some x -> l !! k = Some x.
Proof.
  intros [r ->]%starts_with_true Hk. now apply lookup_app_l_Some.
Qed.

(** No pattern starts inside a run that lacks its first element. *)
Lemma starts_with_in_run (h : A) q u z (k : nat) :
  ~ In h u -> (k < length u)%nat ->
  starts_with (h :: q) (drop k (u ++ z)) = false.
Proof.
  intros Hu Hk. rewrite drop_app_le by lia.
  destruct (drop k u) as [|y r] eqn:Ed.
  - apply (f_equal length) in Ed. rewrite length_drop in Ed. cbn in Ed. lia.
  - cbn. rewrite bool_decide_eq_false_2; [reflexivity|].
    intros ->. apply Hu, (In_drop _ k). rewrite Ed. now left.
Qed.

Lemma rfind_at_single (x : A) l :
  forall pos acc,
    (~ In x l /\ rfind_at [x] pos acc l = acc)
    \/ exists p, rfind_at [x] pos acc l = Z.of_nat (pos + p)
                 /\ l !! p = Some x /\ ~ In x (drop (S p) l).
Proof.
  induction l as [|y l IH]; intros pos acc; [left; cbn; tauto|].
  cbn [rfind_at starts_with]. rewrite andb_true_r.
  destruct (IH (S pos) (if bool_decide (x = y) then Z.of_nat pos else acc))
    as [[Hno Hr]|(p & Hr & Hp & Hafter)].
  - case_bool_decide as Hxy.
    + right. exists 0%nat. rewrite Hr, Nat.add_0_r. subst y. cbn. tauto.
    + left. rewrite Hr. split; [|reflexivity]. intros [->|Hin]; tauto.
  - right. exists (S p). rewrite Hr. split; [f_equal; lia|]. cbn. tauto.
Qed.

Lemma rfind_single (x : A) l :
  (rfind [x] l = (-1)%Z /\ ~ In x l)
  \/ exists p, rfind [x] l = Z.of_nat p
               /\ l !! p = Some x /\ ~ In x (drop (S p) l).
Proof.
  destruct (rfind_at_single x l 0 (-1)%Z) as [[Hno Hr]|(p & Hr & Hp)].
  - now left.
  - right. now exists p.
Qed.

End SplitFacts.

Lemma to_N_byte_of_N (m : N) : m < 256 -> Byte.to_N (byte_of_N m) = m.
Proof.
  intros Hm. unfold byte_of_N. destruct (Byte.of_N m) as [c|] eqn:E.
  - now apply Byte.to_of_N.
  - apply Byte.of_N_None_iff in E. lia.
Qed.

Lemma int_from_to_bytes4 (n : N) (a4 : bytes) :
  int_to_bytes4 n = Ret a4 -> int_from_bytes a4 = n /\ length a4 = 4%nat.
Proof.
  unfold int_to_bytes4. destruct (n <? 0x100000000) eqn:E; [|discriminate].
  apply N.ltb_lt in E. intros [= <-]. split; [|reflexivity].
  cbn [int_from_bytes fold_right].
  rewrite !to_N_byte_of_N by (apply N.mod_lt; discriminate).
  zify. Z.to_euclidean_division_equations. lia.
Qed.

Lemma digits_free (x : byte) (index : bytes) :
  is_digit x = false -> forallb is_digit index = true -> ~ In x index.
Proof.
  intros Hx Hall Hin. rewrite forallb_forall in Hall.
  specialize (Hall _ Hin). congruence.
Qed.

Lemma object_start_free (x : byte) (index : bytes) :
  is_digit x = false -> x <> x00 -> forallb is_digit index = true ->
  ~ In x (object_start index).
Proof.
  intros Hx H0 Hall [Hin|Hin]; [congruence|].
  apply in_app_or in Hin as [Hin|[Hin|[]]]; [|congruence].
  exact (digits_free _ _ Hx Hall Hin).
Qed.

(** [clash H k]: the pattern of [H] and its text differ at index [k]. *)
Ltac clash H k :=
  let H' := fresh "Hclash" in
  pose proof (starts_with_lookup _ _ k _ H eq_refl) as H';
  vm_compute in H'; discriminate H'.

(** No target name starts before the AppName field of an entry put after
    [pre], if none is in [pre]. *)
Lemma no_name_before_entry (pre index a4 rest name : bytes) :
  In name edge_names -> forallb is_digit index = true -> length a4 = 4%nat ->
  contains (APPNAME ++ name) pre = false ->
  forall k, (k < length pre + length (entry_head index a4))%nat ->
    starts_with (APPNAME ++ name) (drop k (pre ++ entry_head index a4 ++ rest))
    = false.
Proof.
  intros Hname Hidx Ha4 Hpre k Hk.
  destruct (starts_with _ _) eqn:E; [exfalso|reflexivity].
  destruct (lt_dec k (length pre)) as [Hlt|Hge].
  - rewrite drop_app_le in E by lia.
    apply starts_with_app_split in E as [Hin|[Hlen Hcut]].
    + apply contains_drop in Hin. congruence.
    + assert (Hu : (0 < length (drop k pre))%nat) by (rewrite length_drop; lia).
      revert Hu Hlen Hcut. generalize (length (drop k pre)) as c. intros c Hc Hlen Hcut.
      unfold entry_head, object_start in Hcut. rewrite <- !app_assoc in Hcut.
      cbn [app] in Hcut.
      destruct Hname as [<-|[<-|[]]]; cbn in Hlen;
        do 24 (destruct c as [|c];
               [first [lia | clash Hcut 0%nat
                      | destruct index as [|d index];
                        [clash Hcut 1%nat|];
                        pose proof (starts_with_lookup _ _ 1%nat _ Hcut eq_refl) as Hd;
                        cbn in Hd; injection Hd as ->;
                        vm_compute in Hidx; discriminate Hidx]|]);
        lia.
  - rewrite drop_app_ge in E by lia.
    remember (k - length pre)%nat as c eqn:Hc.
    assert (Hc' : (c < length (entry_head index a4))%nat) by lia.
    clear Hc Hk Hge Hpre. unfold entry_head in *. rewrite <- app_assoc in E.
    unfold APPNAME in E. cbn [app] in E.
    destruct (lt_dec c (length (object_start index ++ APPID))) as [Hlt|Hge].
    + rewrite starts_with_in_run in E; [discriminate| |exact Hlt].
      intros Hin. apply in_app_or in Hin as [Hin|Hin].
      * revert Hin. now apply object_start_free.
      * vm_compute in Hin. intuition discriminate.
    + rewrite drop_app_ge in E by lia.
      remember (c - length (object_start index ++ APPID))%nat as c' eqn:Hc''.
      assert (Hlt' : (c' < 8)%nat).
      { rewrite !length_app in Hc'. rewrite Ha4 in Hc'. cbn [length] in Hc'.
        rewrite length_app in Hc''. lia. }
      destruct a4 as [|a [|a0 [|a1 [|a2 [|]]]]]; try discriminate Ha4.
      cbn [app] in E.
      do 8 (destruct c' as [|c'];
            [cbn [drop] in E;
             first [clash E 4%nat | clash E 3%nat | clash E 2%nat
                   | clash E 1%nat | clash E 0%nat]|]).
      lia.
Qed.

(** No appid key starts in the last 200 bytes of [pre] or in the index
    marker of an entry put after [pre], if none is in those bytes of [pre]. *)
Lemma no_appid_before_entry (pre index rest : bytes) :
  forallb is_digit index = true ->
  contains APPID_KEY (drop (length pre - 200) pre) = false ->
  forall k, (length pre - 200 <= k < length pre + length (object_start index))%nat ->
    starts_with APPID (drop k (pre ++ object_start index ++ rest)) = false.
Proof.
  intros Hidx Hpre k Hk.
  destruct (starts_with _ _) eqn:E; [exfalso|reflexivity].
  apply (starts_with_prefix APPID_KEY [x00]) in E.
  destruct (lt_dec k (length pre)) as [Hlt|Hge].
  - rewrite drop_app_le in E by lia.
    apply starts_with_app_split in E as [Hin|[Hlen Hcut]].
    + replace k with ((length pre - 200) + (k - (length pre - 200)))%nat in Hin by lia.
      rewrite <- drop_drop in Hin. apply contains_drop in Hin. congruence.
    + assert (Hu : (0 < length (drop k pre))%nat) by (rewrite length_drop; lia).
      revert Hu Hlen Hcut. generalize (length (drop k pre)) as c. intros c Hc Hlen Hcut.
      unfold object_start in Hcut. cbn [app] in Hcut. cbn in Hlen.
      do 6 (destruct c as [|c]; [first [lia | clash Hcut 0%nat]|]). lia.
  - rewrite drop_app_ge in E by lia. unfold APPID_KEY in E.
    rewrite starts_with_in_run in E; [discriminate| |lia].
    apply object_start_free; [reflexivity|discriminate|exact Hidx].
Qed.

Lemma length_entry_head (index a4 : bytes) :
  length a4 = 4%nat ->
  length (entry_head index a4) = (length index + 17)%nat.
Proof.
  intros Ha4. unfold entry_head, object_start.
  rewrite !length_app, Ha4. cbn. rewrite length_app. cbn. lia.
Qed.

(** The entry of Microsoft Edge after [pre] is found by its own appid
    field, if [pre] holds no target name and its last 200 bytes no appid
    key, and the appid bytes hold no line feed. *)
Lemma locate_inserted (pre index a4 tl : bytes) :
  forallb is_digit index = true -> length a4 = 4%nat -> forallb dot a4 = true ->
  contains (APPNAME ++ bs "Microsoft Edge") pre = false ->
  contains (APPNAME ++ bs "Edge") pre = false ->
  contains APPID_KEY (drop (length pre - 200) pre) = false ->
  locate_entry (pre ++ entry_head index a4
                ++ app_name_field (bs "Microsoft Edge") ++ tl)
  = Some (int_from_bytes a4).
Proof.
  intros Hidx Ha4 Hdot Hme He Hkey.
  set (F := app_name_field (bs "Microsoft Edge") ++ tl).
  set (R := pre ++ entry_head index a4 ++ F).
  pose proof (length_entry_head index a4 Ha4) as Hlen.
  set (i := (length pre + length (entry_head index a4))%nat).
  set (a := (length pre + length (object_start index))%nat).
  assert (Hos : length (object_start index) = (length index + 2)%nat).
  { unfold object_start. cbn. rewrite length_app. cbn. lia. }
  assert (Hdrop_i : drop i R = F).
  { unfold R, i. rewrite app_assoc, <- length_app. apply drop_app_length. }
  assert (Hdrop_a : drop a R = APPID ++ a4 ++ [x00; x00; x00; x00] ++ F).
  { unfold R, a, entry_head. rewrite <- !app_assoc.
    rewrite (app_assoc pre), <- length_app. apply drop_app_length. }
  rewrite locate_entry_scan.
  apply (scan_from_some R i 24%nat (a - (i - 200))%nat 11%nat
           (bs "Microsoft Edge") a4).
  - rewrite Hdrop_i. unfold F.
    rewrite app_name_pattern_of_field by (now left). reflexivity.
  - apply re_search_first.
    + unfold slice. rewrite skipn_firstn_comm, drop_drop.
      replace (i - 200 + (a - (i - 200)))%nat with a by lia.
      replace (i - (i - 200) - (a - (i - 200)))%nat with 15%nat by lia.
      rewrite Hdrop_a.
      rewrite (app_assoc APPID), (app_assoc (APPID ++ a4)).
      rewrite take_app_length' by (rewrite !length_app, Ha4; reflexivity).
      rewrite <- app_assoc. apply app_id_pattern_field; [exact Ha4|].
      now apply dot_all_no_line_feed.
    + intros j Hj.
      destruct (app_id_pattern (drop j (slice (i - 200) i R))) as [[n g]|] eqn:E;
        [exfalso|reflexivity].
      apply app_id_pattern_Some in E as (Hs & _ & _).
      apply starts_with_prefix, starts_with_drop_slice in Hs.
      unfold R, entry_head in Hs. rewrite <- !app_assoc in Hs.
      rewrite no_appid_before_entry in Hs; [discriminate|exact Hidx|exact Hkey|].
      lia.
  - lia.
  - intros i' Hi' Hmatch.
    destruct (app_name_pattern (drop i' R)) as [[n g]|] eqn:E; [exfalso|congruence].
    apply app_name_pattern_Some in E as (Hg & Hs & _).
    unfold app_name_field in Hs. rewrite app_assoc in Hs.
    apply starts_with_prefix in Hs. unfold R in Hs.
    rewrite no_name_before_entry in Hs; try assumption; [discriminate| |lia].
    destruct Hg as [<-|[<-|[]]]; assumption.
Qed.

Lemma build_edge_entry_shape (index a4 e : bytes) (app_id : N) :
  int_to_bytes4 app_id = Ret a4 ->
  build_edge_entry index app_id = Ret e ->
  exists tl, e = entry_head index a4 ++ app_name_field (bs "Microsoft Edge") ++ tl.
Proof.
  intros Hle. unfold build_edge_entry, build_entry. rewrite Hle. cbn [rbind].
  intros [= <-]. eexists.
  unfold entry_head, object_start, app_name_field, APPID, APPNAME, edge_name.
  rewrite <- !app_assoc. cbn [app]. rewrite <- !app_assoc. cbn [app].
  reflexivity.
Qed.

Lemma contains_false_take {A} `{EqDecision A} (pat l : list A) (k : nat) :
  contains pat l = false -> contains pat (take k l) = false.
Proof.
  intros Hc. destruct (contains pat (take k l)) eqn:E; [|reflexivity].
  apply contains_true in E as (a & c & Heq). rewrite <- Hc. symmetry.
  apply contains_true. exists a, (c ++ drop k l).
  rewrite <- (take_drop k l) at 1. rewrite Heq, <- !app_assoc. reflexivity.
Qed.

Lemma insertion_point_le (content : bytes) :
  (insertion_point content <= length content)%nat.
Proof.
  unfold insertion_point. destruct (ends_with BSBS content); [lia|].
  destruct (rfind_single x08 content) as [[-> _]|(p & -> & Hp & _)]; [cbn; lia|].
  apply lookup_lt_Some in Hp. destruct (0 <? Z.of_nat p)%Z; lia.
Qed.

Lemma insert_entry_at (content new_entry : bytes) :
  contains SHORTCUTS content = true ->
  insert_entry content new_entry
  = take (insertion_point content) content ++ new_entry
    ++ drop (insertion_point content) content.
Proof.
  intros Hs. unfold insert_entry, insertion_point. rewrite Hs.
  destruct (ends_with BSBS content) eqn:Ee.
  - apply ends_with_true in Ee as [a ->]. rewrite length_app. cbn [length BSBS].
    replace (length a + 2 - 2)%nat with (length a) by lia.
    now rewrite drop_app_length.
  - cbv zeta. destruct (0 <? rfind [x08] content)%Z; [reflexivity|].
    now rewrite firstn_all, drop_all, app_nil_r.
Qed.

(** The entry of Microsoft Edge is found again after its insertion. *)
Lemma insert_entry_round_trip (content index a4 e : bytes) (app_id : N) :
  contains SHORTCUTS content = true ->
  forallb is_digit index = true ->
  int_to_bytes4 app_id = Ret a4 ->
  build_edge_entry index app_id = Ret e ->
  contains (APPNAME ++ bs "Microsoft Edge") content = false ->
  contains (APPNAME ++ bs "Edge") content = false ->
  contains APPID_KEY
    (slice (insertion_point content - 200) (insertion_point content) content)
  = false ->
  forallb dot a4 = true ->
  locate_entry (insert_entry content e) = Some app_id.
Proof.
  intros Hs Hidx Hle He Hme Hedge Hkey Hdot.
  destruct (int_from_to_bytes4 _ _ Hle) as [Hval Ha4].
  destruct (build_edge_entry_shape _ _ _ _ Hle He) as [tl ->].
  rewrite (insert_entry_at _ _ Hs), <- !app_assoc, <- Hval.
  apply locate_inserted; try assumption.
  - now apply contains_false_take.
  - now apply contains_false_take.
  - rewrite length_take, Nat.min_l by apply insertion_point_le.
    rewrite skipn_firstn_comm. exact Hkey.
Qed.

(** X17: what lines 319-347 do, and when the lookup finds the entry.  For
    every store that holds the shortcuts marker and every
    entry [e] built for Microsoft Edge with a decimal index, [insert_entry]
    puts [e] at the insertion point [k]: the offset of the final pair of end
    markers if the store ends with one; else the offset of the last end
    marker if that offset is positive; and the end of the store if it holds
    no end marker.  The result is longer than the store by the length of
    [e].  And [locate_entry] on the result finds the appid of [e] if the
    store holds no AppName key followed by a target name, the 200 bytes
    before the insertion point hold no appid key, and the four bytes of the
    appid hold no line feed. *)
Theorem insert_entry_places_and_round_trips
  (content index a4 e : bytes) (app_id : N) :
  contains SHORTCUTS content = true ->
  forallb is_digit index = true ->
  int_to_bytes4 app_id = Ret a4 ->
  build_edge_entry index app_id = Ret e ->
  let k := insertion_point content in
  insert_entry content e = take k content ++ e ++ drop k content
  /\ (ends_with BSBS content = true ->
      k = (length content - 2)%nat /\ drop k content = BSBS)
  /\ (ends_with BSBS content = false ->
      forall p, rfind [x08] content = Z.of_nat p -> (0 < p)%nat ->
        k = p /\ content !! p = Some x08 /\ ~ In x08 (drop (S p) content))
  /\ (ends_with BSBS content = false -> ~ In x08 content -> k = length content)
  /\ length (insert_entry content e) = (length content + length e)%nat
  /\ (contains (APPNAME ++ bs "Microsoft Edge") content = false ->
      contains (APPNAME ++ bs "Edge") content = false ->
      contains APPID_KEY (slice (k - 200) k content) = false ->
      forallb dot a4 = true ->
      locate_entry (insert_entry content e) = Some app_id).
Proof.
  intros Hs Hidx Hle He k.
  pose proof (insert_entry_at content e Hs) as Hat. fold k in Hat.
  split; [exact Hat|]. split; [|split; [|split; [|split]]].
  - intros Ee. unfold k, insertion_point. rewrite Ee.
    apply ends_with_true in Ee as [a ->]. rewrite length_app. cbn [length BSBS].
    replace (length a + 2 - 2)%nat with (length a) by lia.
    split; [reflexivity|apply drop_app_length].
  - intros Ee p Hp Hpos. unfold k, insertion_point. rewrite Ee, Hp. cbv zeta.
    replace (0 <? Z.of_nat p)%Z with true by (symmetry; apply Z.ltb_lt; lia).
    rewrite Nat2Z.id. split; [reflexivity|].
    destruct (rfind_single x08 content) as [[Hr _]|(p' & Hr & Hl & Hafter)].
    + rewrite Hr in Hp. lia.
    + rewrite Hr in Hp. apply Nat2Z.inj in Hp. subst p'. tauto.
  - intros Ee Hno. unfold k, insertion_point. rewrite Ee. cbv zeta.
    destruct (rfind_single x08 content) as [[-> _]|(p & _ & Hl & _)]; [reflexivity|].
    destruct Hno. apply list_elem_of_In. now apply list_elem_of_lookup_2 in Hl.
  - rewrite Hat, !length_app, length_take, length_drop.
    pose proof (insertion_point_le content). fold k in H. lia.
  - intros Hme Hedge Hkey Hdot.
    now apply (insert_entry_round_trip content index a4 e app_id).
Qed.

Lemma insert_entry_places_and_round_trips_witness :
  contains SHORTCUTS sample_long_store = true
  /\ forallb is_digit (bs "1") = true
  /\ int_to_bytes4 0x5E2B33C6 = Ret [xc6; x33; x2b; x5e]
  /\ build_edge_entry (bs "1") 0x5E2B33C6 = Ret sample_entry
  /\ (let k := insertion_point sample_long_store in
      insert_entry sample_long_store sample_entry
      = take k sample_long_store ++ sample_entry ++ drop k sample_long_store
      /\ (ends_with BSBS sample_long_store = true ->
          k = (length sample_long_store - 2)%nat /\ drop k sample_long_store = BSBS)
      /\ (ends_with BSBS sample_long_store = false ->
          forall p, rfind [x08] sample_long_store = Z.of_nat p -> (0 < p)%nat ->
            k = p /\ sample_long_store !! p = Some x08
            /\ ~ In x08 (drop (S p) sample_long_store))
      /\ (ends_with BSBS sample_long_store = false -> ~ In x08 sample_long_store ->
          k = length sample_long_store)
      /\ length (insert_entry sample_long_store sample_entry)
         = (length sample_long_store + length sample_entry)%nat
      /\ (contains (APPNAME ++ bs "Microsoft Edge") sample_long_store = false ->
          contains (APPNAME ++ bs "Edge") sample_long_store = false ->
          contains APPID_KEY (slice (k - 200) k sample_long_store) = false ->
          forallb dot [xc6; x33; x2b; x5e] = true ->
          locate_entry (insert_entry sample_long_store sample_entry)
          = Some 0x5E2B33C6)).
Proof.
  split; [vm_compute; reflexivity|]. split; [vm_compute; reflexivity|].
  split; [vm_compute; reflexivity|]. split; [vm_compute; reflexivity|].
  apply (insert_entry_places_and_round_trips sample_long_store (bs "1")
           [xc6; x33; x2b; x5e] sample_entry 0x5E2B33C6);
    vm_compute; reflexivity.
Defined.

(** The round trip with its conditions checked on the sample store. *)
Example insert_entry_round_trip_sample :
  locate_entry sample_long_store = None
  /\ locate_entry (insert_entry sample_long_store sample_entry) = Some 0x5E2B33C6.
Proof.
  split; [vm_compute; reflexivity|].
  apply (insert_entry_round_trip sample_long_store (bs "1")
           [xc6; x33; x2b; x5e] sample_entry 0x5E2B33C6);
    vm_compute; reflexivity.
Qed.

(** C1: the round trip fails.  In the store whose one entry, Notes with
    appid 0x11111111, is short, the entry built for Microsoft Edge with the
    next index and appid 0x5E2B33C6 is put before the final pair of end
    markers, and the lookup by name on the result returns the appid of
    Notes, not that of the entry just inserted.  And in a store whose only
    end marker is its first byte, the entry is put at the end of the store,
    not before that marker, the last one a reverse scan finds. *)
Theorem insert_entry_round_trip_fails :
  (contains SHORTCUTS sample_notes_store = true
   /\ build_edge_entry (next_index sample_notes_store) 0x5E2B33C6 = Ret sample_entry
   /\ locate_entry sample_notes_store = None
   /\ insert_entry sample_notes_store sample_entry
      = take (length sample_notes_store - 2) sample_notes_store
        ++ sample_entry ++ BSBS
   /\ locate_entry (insert_entry sample_notes_store sample_entry) = Some 0x11111111
   /\ locate_entry (insert_entry sample_notes_store sample_entry) <> Some 0x5E2B33C6)
  /\ (contains SHORTCUTS sample_leading_marker_store = true
      /\ ends_with BSBS sample_leading_marker_store = false
      /\ rfind [x08] sample_leading_marker_store = 0%Z
      /\ insert_entry sample_leading_marker_store sample_entry
         = sample_leading_marker_store ++ sample_entry
      /\ insert_entry_spec sample_leading_marker_store sample_entry
         = sample_entry ++ sample_leading_marker_store
      /\ insert_entry sample_leading_marker_store sample_entry
         <> insert_entry_spec sample_leading_marker_store sample_entry).
Proof.
  repeat split; try (vm_compute; reflexivity); vm_compute; discriminate.
Qed.

(** * Further properties *)

(** ** The next positional index *)







(** ** What every insertion keeps *)

Section ContainsFacts.
Context {A : Type} `{EqDecision A}.
Implicit Types (pat a b l : list A).

Lemma contains_self pat b : contains pat (pat ++ b) = true.
Proof. apply contains_true. now exists [], b. Qed.

Lemma contains_app_l pat a b :
  contains pat a = true -> contains pat (a ++ b) = true.
Proof.
  intros (u & v & ->)%contains_true. apply contains_true.
  exists u, (v ++ b). now rewrite <- !app_assoc.
Qed.

Lemma contains_app_r pat a b :
  contains pat b = true -> contains pat (a ++ b) = true.
Proof.
  intros (u & v & ->)%contains_true. apply contains_true.
  exists (a ++ u), v. now rewrite <- !app_assoc.
Qed.

Lemma contains_middle pat a b : contains pat (a ++ pat ++ b) = true.
Proof. apply contains_true. now exists a, b. Qed.

(** A pattern without [x] that starts before an [x] ends before it. *)
Lemma starts_with_before (x : A) pat a b :
  ~ In x pat -> starts_with pat (a ++ x :: b) = true -> starts_with pat a = true.
Proof.
  revert a. induction pat as [|p pat IH]; intros a Hx Hs; [reflexivity|].
  destruct a as [|y a]; cbn in Hs |- *.
  - apply andb_true_iff in Hs as [->%bool_decide_eq_true _].
    destruct Hx. now left.
  - apply andb_true_iff in Hs as [Hp Hs]. rewrite Hp. cbn.
    apply IH; [|exact Hs]. intros Hin. apply Hx. now right.
Qed.

(** An occurrence of a pattern without [x] lies on one side of an [x]. *)
Lemma contains_split_at (x : A) pat a b :
  ~ In x pat -> contains pat (a ++ x :: b) = true ->
  contains pat a = true \/ contains pat b = true.
Proof.
  intros Hx. induction a as [|y a IH]; cbn [app]; rewrite contains_cons; intros Hc.
  - apply orb_true_iff in Hc as [Hs|Hc]; [|now right].
    left. destruct pat as [|p pat]; [reflexivity|]. cbn in Hs.
    apply andb_true_iff in Hs as [->%bool_decide_eq_true _]. destruct Hx. now left.
  - apply orb_true_iff in Hc as [Hs|Hc].
    + left. rewrite contains_cons. apply orb_true_iff. left.
      now apply (starts_with_before x pat (y :: a) b).
    + destruct (IH Hc) as [Ha|Hb]; [left|now right].
      rewrite contains_cons. apply orb_true_iff. now right.
Qed.

End ContainsFacts.

Lemma shortcuts_marker_free : ~ In x08 SHORTCUTS.
Proof. vm_compute. intuition discriminate. Qed.

(** X2: whatever the store and the entry, the store that [insert_entry]
    returns holds the shortcuts marker and holds the entry in one piece; and
    when the store held the marker, the result is the store cut in two with
    the entry in between, so that no byte of the store is lost. *)
Theorem insert_entry_keeps_marker_and_entry (content new_entry : bytes) :
  contains SHORTCUTS (insert_entry content new_entry) = true
  /\ contains new_entry (insert_entry content new_entry) = true
  /\ (contains SHORTCUTS content = true ->
      exists a b, content = a ++ b /\ insert_entry content new_entry = a ++ new_entry ++ b).
Proof.
  destruct (contains SHORTCUTS content) eqn:Hs.
  - pose proof (insert_entry_at content new_entry Hs) as Hat.
    split; [|split].
    + unfold insert_entry. rewrite Hs.
      destruct (ends_with BSBS content) eqn:Ee.
      * apply ends_with_true in Ee as [a ->]. cbv zeta.
        rewrite length_app. cbn [length BSBS].
        replace (length a + 2 - 2)%nat with (length a) by lia.
        rewrite take_app_length. apply contains_app_l.
        change (a ++ [x08; x08]) with (a ++ x08 :: [x08]) in Hs.
        apply (contains_split_at x08) in Hs as [Ha|Hb];
          [exact Ha|discriminate|exact shortcuts_marker_free].
      * cbv zeta.
        destruct (rfind_single x08 content) as [[-> _]|(p & -> & Hl & _)].
        { cbn. now apply contains_app_l. }
        destruct (0 <? Z.of_nat p)%Z; [|now apply contains_app_l].
        rewrite Nat2Z.id.
        pose proof (take_drop_middle content p x08 Hl) as Hsplit.
        rewrite <- Hsplit in Hs.
        apply (contains_split_at x08) in Hs as [Ha|Hb];
          [now apply contains_app_l| |exact shortcuts_marker_free].
        apply contains_app_r, contains_app_r.
        rewrite (drop_S content x08 p Hl), contains_cons.
        apply orb_true_iff. now right.
    + rewrite Hat. apply contains_middle.
    + intros _. exists (take (insertion_point content) content),
                       (drop (insertion_point content) content).
      split; [symmetry; apply take_drop|exact Hat].
  - unfold insert_entry. rewrite Hs. split; [apply contains_self|].
    split; [apply contains_middle|discriminate].
Qed.

Lemma shortcuts_marker_clean :
  contains (APPNAME ++ bs "Microsoft Edge") SHORTCUTS = false
  /\ contains (APPNAME ++ bs "Edge") SHORTCUTS = false
  /\ contains APPID_KEY (drop (length SHORTCUTS - 200) SHORTCUTS) = false.
Proof. repeat split; vm_compute; reflexivity. Qed.

(** X3: for a store without the shortcuts marker, [insert_entry] returns
    the marker, the entry and the final pair of end markers, and nothing of
    what the store held; [locate_entry] on this new store finds the appid of
    the entry of Microsoft Edge, if its four bytes hold no line feed. *)
Theorem insert_entry_without_marker
  (content index a4 e : bytes) (app_id : N) :
  contains SHORTCUTS content = false ->
  forallb is_digit index = true ->
  int_to_bytes4 app_id = Ret a4 ->
  build_edge_entry index app_id = Ret e ->
  forallb dot a4 = true ->
  insert_entry content e = SHORTCUTS ++ e ++ BSBS
  /\ length (insert_entry content e) = (length e + 13)%nat
  /\ locate_entry (insert_entry content e) = Some app_id.
Proof.
  intros Hs Hidx Hle He Hdot.
  assert (Heq : insert_entry content e = SHORTCUTS ++ e ++ BSBS).
  { unfold insert_entry. now rewrite Hs. }
  split; [exact Heq|]. split.
  { rewrite Heq, !length_app. cbn. lia. }
  rewrite Heq.
  destruct (int_from_to_bytes4 _ _ Hle) as [Hval Ha4].
  destruct (build_edge_entry_shape _ _ _ _ Hle He) as [tl ->].
  destruct shortcuts_marker_clean as (H1 & H2 & H3).
  rewrite <- !app_assoc, <- Hval.
  now apply locate_inserted.
Qed.

Lemma insert_entry_without_marker_witness :
  contains SHORTCUTS (bs "stale bytes") = false
  /\ forallb is_digit (bs "1") = true
  /\ int_to_bytes4 0x5E2B33C6 = Ret [xc6; x33; x2b; x5e]
  /\ build_edge_entry (bs "1") 0x5E2B33C6 = Ret sample_entry
  /\ forallb dot [xc6; x33; x2b; x5e] = true
  /\ (insert_entry (bs "stale bytes") sample_entry = SHORTCUTS ++ sample_entry ++ BSBS
      /\ length (insert_entry (bs "stale bytes") sample_entry)
         = (length sample_entry + 13)%nat
      /\ locate_entry (insert_entry (bs "stale bytes") sample_entry) = Some 0x5E2B33C6).
Proof.
  split; [vm_compute; reflexivity|]. split; [vm_compute; reflexivity|].
  split; [vm_compute; reflexivity|]. split; [vm_compute; reflexivity|].
  split; [vm_compute; reflexivity|].
  apply (insert_entry_without_marker (bs "stale bytes") (bs "1")
           [xc6; x33; x2b; x5e] sample_entry 0x5E2B33C6);
    vm_compute; reflexivity.
Defined.

(** ** The whole loop of [modify_shortcuts_vdf] *)

Lemma modify_fold_ret (new_name : text) (nb : bytes)
  (ms : list (nat * nat * bytes)) (c : bytes) :
  str_encode new_name = Ret nb ->
  fold_left (modify_step new_name) ms (Ret c)
  = Ret (fold_left (fun c m => append_launch_options (rename_step nb c m) (fst (fst m)))
                   ms c).
Proof.
  intros Henc. revert c. induction ms as [|[[i n] g] ms IH]; intros c; [reflexivity|].
  cbn [fold_left]. unfold modify_step at 2. cbn [rbind]. rewrite Henc. cbn [rbind].
  apply IH.
Qed.

Lemma finditer_name_none (content : bytes) :
  (forall n, In n edge_names -> contains (app_name_field n) content = false) ->
  re_finditer app_name_pattern content = [].
Proof.
  intros Hno. destruct (re_finditer app_name_pattern content) as [|m ms] eqn:E;
    [reflexivity|].
  destruct (finditer_name_group content m) as [Hname Hc]; [rewrite E; now left|].
  rewrite (Hno _ Hname) in Hc. discriminate.
Qed.

Lemma forallb_not_In {A} `{EqDecision A} (x : A) (l : list A) :
  forallb (fun y => negb (bool_decide (y = x))) l = true -> ~ In x l.
Proof.
  intros Hall Hin. rewrite forallb_forall in Hall. specialize (Hall _ Hin).
  now rewrite bool_decide_eq_true_2 in Hall.
Qed.

Lemma launch_tail_clean :
  ~ In x00 (bs " " ++ LAUNCH_OPTIONS_utf8) /\ ~ In x01 (bs " " ++ LAUNCH_OPTIONS_utf8).
Proof. split; apply forallb_not_In; vm_compute; reflexivity. Qed.

(** No AppName field of a target name starts inside the value of a
    LaunchOptions field that ends with the launch options of the script. *)
Lemma name_not_in_launch_value (n' a R : bytes) :
  In n' edge_names -> ~ In x00 a ->
  contains (app_name_field n') (a ++ bs " " ++ LAUNCH_OPTIONS_utf8 ++ x00 :: R)
  = contains (app_name_field n') R.
Proof.
  intros Hn' Ha. destruct launch_tail_clean as [Ht0 Ht1].
  induction a as [|c a IH].
  - cbn [app]. rewrite app_name_field_run, (app_assoc (bs " ")).
    rewrite contains_app_no_head by exact Ht1.
    rewrite contains_cons. reflexivity.
  - cbn [app]. rewrite contains_cons.
    rewrite IH by (intros Hin; apply Ha; now right).
    destruct (starts_with _ _) eqn:Hs; [exfalso|reflexivity].
    apply (starts_with_lookup _ _ 8%nat x00) in Hs; [|reflexivity].
    change (c :: a ++ bs " " ++ LAUNCH_OPTIONS_utf8 ++ x00 :: R)
      with ((c :: a) ++ bs " " ++ LAUNCH_OPTIONS_utf8 ++ x00 :: R) in Hs.
    rewrite (app_assoc (bs " ")), app_assoc in Hs.
    rewrite lookup_app_l in Hs
      by (rewrite length_app; cbn; lia).
    apply list_elem_of_lookup_2, list_elem_of_In, in_app_or in Hs as [Hin|Hin];
      [now apply Ha|now apply Ht0].
Qed.

Lemma name_not_at_launch_field (n' b R : bytes) :
  In n' edge_names ->
  starts_with (app_name_field n') (launch_options_field b ++ R) = false.
Proof. intros [<-|[<-|[]]]; reflexivity. Qed.

Lemma launch_key_free : ~ In x01 (bs "LaunchOptions" ++ [x00]).
Proof. apply forallb_not_In. vm_compute. reflexivity. Qed.

Lemma launch_field_no_name (n' a R : bytes) :
  In n' edge_names -> ~ In x00 a ->
  contains (app_name_field n')
           (launch_options_field (a ++ bs " " ++ LAUNCH_OPTIONS_utf8) ++ R)
  = contains (app_name_field n') R.
Proof.
  intros Hn' Ha.
  pose proof (name_not_at_launch_field n' (a ++ bs " " ++ LAUNCH_OPTIONS_utf8) R Hn')
    as Hhead.
  unfold launch_options_field, LAUNCHOPTIONS in *. cbn [app] in *.
  rewrite contains_cons, Hhead. cbn [orb].
  rewrite <- (app_assoc (bs "LaunchOptions" ++ [x00])), (app_name_field_run n').
  rewrite contains_app_no_head by exact launch_key_free.
  rewrite <- (app_name_field_run n'), <- !app_assoc. cbn [app].
  now apply name_not_in_launch_value.
Qed.

(** Extending the value of a LaunchOptions field makes no AppName field of
    a target name. *)
Lemma replace_launch_keeps_no_name (n' a : bytes) :
  In n' edge_names -> ~ In x00 a ->
  forall l,
    contains (app_name_field n') l = false ->
    contains (app_name_field n')
      (replace (launch_options_field a)
               (launch_options_field (a ++ bs " " ++ LAUNCH_OPTIONS_utf8)) l) = false.
Proof.
  intros Hn' Ha l. destruct (edge_name_clean _ Hn') as [_ Hn'1].
  remember (length l) as m eqn:Hm. revert l Hm.
  induction m as [m IH] using lt_wf_ind. intros l Hm Hc.
  destruct l as [|x l].
  - rewrite replace_nil by apply launch_options_field_nonempty. exact Hc.
  - rewrite replace_cons by apply launch_options_field_nonempty.
    destruct (starts_with (launch_options_field a) (x :: l)) eqn:Hs.
    + apply starts_with_true in Hs as [r Hr]. rewrite Hr, drop_app_length.
      rewrite launch_field_no_name by assumption.
      apply (IH (length r)); [|reflexivity|].
      * subst m. rewrite Hr, length_app. unfold launch_options_field.
        rewrite length_app. cbn. lia.
      * rewrite Hr in Hc.
        apply (contains_false_drop _ _ (length (launch_options_field a))) in Hc.
        now rewrite drop_app_length in Hc.
    + rewrite contains_cons in Hc. apply orb_false_iff in Hc as [Hhead Htl].
      rewrite contains_cons. apply orb_false_iff. split.
      * rewrite <- Hhead. rewrite (app_name_field_run n'). cbn [starts_with].
        f_equal. unfold launch_options_field, LAUNCHOPTIONS. cbn [app].
        apply replace_keeps_free_prefix. now apply app_name_run_free.
      * apply (IH (length l)); [subst m; cbn; lia|reflexivity|exact Htl].
Qed.

Lemma append_launch_options_keeps_no_name (n' content : bytes) (start : nat) :
  In n' edge_names ->
  contains (app_name_field n') content = false ->
  contains (app_name_field n') (append_launch_options content start) = false.
Proof.
  intros Hn' Hc. unfold append_launch_options. cbv zeta.
  destruct (re_search launch_options_pattern _) as [[[i n] g]|] eqn:E; [|exact Hc].
  destruct (negb (contains KIOSK g)); [|exact Hc].
  apply re_search_Some in E as [E _].
  apply launch_options_pattern_Some in E as (_ & _ & Hg).
  apply replace_launch_keeps_no_name; [exact Hn'| |exact Hc].
  now apply forallb_not_In.
Qed.

Lemma modify_fold_removes (nb n' : bytes) :
  In n' edge_names -> n' <> nb -> ~ In x00 nb -> ~ In x01 nb ->
  forall ms l,
    (forall m, In m ms -> In (snd m) edge_names) ->
    (contains (app_name_field n') l = false \/ exists m, In m ms /\ snd m = n') ->
    contains (app_name_field n')
      (fold_left (fun c m => append_launch_options (rename_step nb c m) (fst (fst m)))
                 ms l) = false.
Proof.
  intros Hn' Hneq H0 H1 ms. induction ms as [|m ms IH]; intros l Hms Hpre.
  - destruct Hpre as [Hc|(m & [] & _)]. exact Hc.
  - cbn [fold_left]. apply IH; [intros m' Hm'; apply Hms; now right|].
    assert (Hm : In (snd m) edge_names) by (apply Hms; now left).
    destruct m as [[i n] g]. cbn [snd fst] in *. cbn [rename_step].
    destruct Hpre as [Hc|(m0 & [<-|Hin] & Hsnd)].
    + left. apply append_launch_options_keeps_no_name; [exact Hn'|].
      apply rename_removes; auto.
    + left. cbn [snd] in Hsnd. apply append_launch_options_keeps_no_name; [exact Hn'|].
      apply rename_removes; auto.
    + right. now exists m0.
Qed.

(** The loop returns when the new name encodes, and leaves no AppName
    field of a target name. *)
Lemma modify_content_removes (content : bytes) (new_name : text) (nb : bytes) :
  str_encode new_name = Ret nb ->
  ~ In x00 nb -> ~ In x01 nb -> ~ In nb edge_names ->
  exists c',
    modify_content content new_name = Ret c'
    /\ forall n, In n edge_names -> contains (app_name_field n) c' = false.
Proof.
  intros Henc H0 H1 Hnew. unfold modify_content.
  rewrite (modify_fold_ret _ _ _ _ Henc). eexists. split; [reflexivity|].
  intros n Hn. apply modify_fold_removes; try assumption.
  - intros ->. now apply Hnew.
  - intros m Hm. now apply finditer_name_group in Hm.
  - destruct (contains (app_name_field n) content) eqn:E; [right|now left].
    now apply finditer_name_finds.
Qed.

(** X4: for a new name that encodes to bytes without NUL and SOH and that
    is not one of the two target names, the loop of [modify_shortcuts_vdf]
    returns a store in which no AppName field of a target name is left; run
    on that store the loop changes nothing; and [locate_entry] no longer
    finds an entry in it. *)
Theorem modify_content_idempotent (content : bytes) (new_name : text) (nb : bytes) :
  str_encode new_name = Ret nb ->
  ~ In x00 nb -> ~ In x01 nb -> ~ In nb edge_names ->
  exists c',
    modify_content content new_name = Ret c'
    /\ (forall n, In n edge_names -> contains (app_name_field n) c' = false)
    /\ modify_content c' new_name = Ret c'
    /\ locate_entry c' = None.
Proof.
  intros Henc H0 H1 Hnew.
  destruct (modify_content_removes content new_name nb Henc H0 H1 Hnew)
    as (c' & Hrun & Hno).
  exists c'. split; [exact Hrun|]. split; [exact Hno|].
  unfold modify_content, locate_entry. rewrite (finditer_name_none _ Hno).
  split; reflexivity.
Qed.

Lemma modify_content_idempotent_witness :
  str_encode default_new_name = Ret (bs "Xbox Cloud Gaming (Beta)")
  /\ ~ In x00 (bs "Xbox Cloud Gaming (Beta)")
  /\ ~ In x01 (bs "Xbox Cloud Gaming (Beta)")
  /\ ~ In (bs "Xbox Cloud Gaming (Beta)") edge_names
  /\ exists c',
      modify_content sample_store default_new_name = Ret c'
      /\ (forall n, In n edge_names -> contains (app_name_field n) c' = false)
      /\ modify_content c' default_new_name = Ret c'
      /\ locate_entry c' = None.
Proof.
  assert (Henc : str_encode default_new_name = Ret (bs "Xbox Cloud Gaming (Beta)"))
    by (vm_compute; reflexivity).
  assert (H0 : ~ In x00 (bs "Xbox Cloud Gaming (Beta)"))
    by (vm_compute; intuition discriminate).
  assert (H1 : ~ In x01 (bs "Xbox Cloud Gaming (Beta)"))
    by (vm_compute; intuition discriminate).
  assert (Hn : ~ In (bs "Xbox Cloud Gaming (Beta)") edge_names)
    by (vm_compute; intuition discriminate).
  split; [exact Henc|]. split; [exact H0|]. split; [exact H1|]. split; [exact Hn|].
  exact (modify_content_idempotent sample_store default_new_name
           (bs "Xbox Cloud Gaming (Beta)") Henc H0 H1 Hn).
Defined.

(** ** The operations at the edges *)

Lemma write_file_run path data w :
  faults w = [] ->
  write_file path data w
  = (Ret tt, World (<[path := data]> (files w)) [] (copy_faults w)
                   (trace w ++ [EvWrite path data])).
Proof.
  intros Hf. unfold write_file, io_bind, next_fault. rewrite Hf.
  unfold set_file, emit. cbn. now rewrite Hf.
Qed.

Lemma read_file_cases path w r w' :
  read_file path w = (r, w') ->
  files w' = files w
  /\ copy_faults w' = copy_faults w
  /\ match r with
     | Ret c => files w !! path = Some c /\ trace w' = trace w ++ [EvRead path]
     | Raise e =>
         e = OSError /\ trace w' = trace w
         /\ (hd None (faults w) = None -> files w !! path = None)
     end.
Proof.
  rewrite read_file_run.
  destruct (faults w) as [|[k|] fl]; [| |];
    try destruct (files w !! path) as [c|] eqn:El;
    intros [= <- <-]; cbn; repeat split; auto; discriminate.
Qed.

Lemma str_encode_app (a b : text) :
  str_encode (a ++ b) = (x <- str_encode a ;; y <- str_encode b ;; Ret (x ++ y)).
Proof.
  induction a as [|c a IH]; cbn [app str_encode rbind].
  - now destruct (str_encode b).
  - destruct (utf8_char c) as [x|e]; [|reflexivity]. cbn [rbind]. rewrite IH.
    destruct (str_encode a) as [x'|e]; [|reflexivity]. cbn [rbind].
    destruct (str_encode b) as [y|e]; [|reflexivity]. cbn [rbind].
    now rewrite app_assoc.
Qed.

(** The log of line 209 returns for a name that encodes and raises for
    one that does not. *)
Lemma log_renamed_run (new_name : text) (w : world) :
  log (ts "Updated shortcuts.vdf - renamed Edge to '" ++ new_name ++ ts "'") w
  = (match str_encode new_name with
     | Ret _ => Ret tt
     | Raise e => Raise e
     end, w).
Proof.
  unfold log, io_lift. rewrite !str_encode_app.
  assert (Hpre : str_encode (ts "Updated shortcuts.vdf - renamed Edge to '")
                 = Ret (bs "Updated shortcuts.vdf - renamed Edge to '"))
    by (vm_compute; reflexivity).
  assert (Hpost : str_encode (ts "'") = Ret (bs "'")) by (vm_compute; reflexivity).
  rewrite Hpre, Hpost. cbn [rbind].
  now destruct (str_encode new_name).
Qed.

(** X5: on a store without an AppName field of a target name, with no
    fault of the disk, [modify_shortcuts_vdf] copies the store to the backup
    path, reads it and writes the same bytes back.  Then it logs the new
    name: for a name that encodes it returns [True]; for a name that cannot
    be encoded the log raises, the backup is copied back and the result is
    [False].  Either way the store holds the bytes it held. *)
Theorem modify_shortcuts_vdf_without_entry
  (shortcuts_vdf : string) (edge_app_id : N) (new_name : text)
  (w : world) (c : bytes) :
  files w !! shortcuts_vdf = Some c ->
  faults w = [] ->
  copy_faults w = [] ->
  (forall n, In n edge_names -> contains (app_name_field n) c = false) ->
  exists w',
    modify_shortcuts_vdf shortcuts_vdf edge_app_id new_name w
    = (Ret (match str_encode new_name with Ret _ => true | Raise _ => false end), w')
    /\ files w' = <[backup_of shortcuts_vdf := c]> (files w)
    /\ trace w'
       = trace w
         ++ [EvCopy shortcuts_vdf (backup_of shortcuts_vdf);
             EvRead shortcuts_vdf;
             EvWrite shortcuts_vdf c]
         ++ match str_encode new_name with
            | Ret _ => []
            | Raise e => [EvLogError e;
                          EvCopy (backup_of shortcuts_vdf) shortcuts_vdf]
            end.
Proof.
  intros Hdoc Hf Hcf Hno. pose proof (backup_ne shortcuts_vdf) as Hne.
  assert (Hne' : backup_of shortcuts_vdf <> shortcuts_vdf) by (intros E; now apply Hne).
  unfold modify_shortcuts_vdf. cbv zeta. fold (backup_of shortcuts_vdf).
  unfold try_except. unfold io_bind at 1.
  rewrite (copy2_run _ _ _ _ Hdoc Hne Hcf).
  unfold io_bind at 1. rewrite read_file_run. cbn [faults files trace copy_faults].
  rewrite Hf, lookup_insert_ne by exact Hne'. rewrite Hdoc.
  unfold io_bind at 1, io_lift.
  unfold modify_content. rewrite (finditer_name_none _ Hno). cbn [fold_left].
  unfold io_bind at 1. rewrite write_file_run by reflexivity.
  cbn [files trace copy_faults].
  unfold io_bind at 1. rewrite log_renamed_run.
  assert (Hid : <[shortcuts_vdf := c]> (<[backup_of shortcuts_vdf := c]> (files w))
                = <[backup_of shortcuts_vdf := c]> (files w)).
  { apply insert_id. rewrite lookup_insert_ne by exact Hne'. exact Hdoc. }
  destruct (str_encode new_name) as [nb|e].
  - eexists. split; [reflexivity|]. cbn [files trace].
    split; [exact Hid|]. rewrite <- !app_assoc. reflexivity.
  - rewrite (handler_run (backup_of shortcuts_vdf) shortcuts_vdf false e c)
      by first [cbn [files]; rewrite Hid; apply lookup_insert_eq
               | exact Hne' | reflexivity].
    eexists. split; [reflexivity|]. cbn [files trace]. split.
    + rewrite Hid. apply insert_id.
      rewrite lookup_insert_ne by exact Hne'. exact Hdoc.
    + rewrite <- !app_assoc. reflexivity.
Qed.

Lemma modify_shortcuts_vdf_without_entry_witness :
  files sample_notes_world !! "shortcuts.vdf"%string = Some sample_notes_store
  /\ faults sample_notes_world = []
  /\ copy_faults sample_notes_world = []
  /\ (forall n, In n edge_names ->
        contains (app_name_field n) sample_notes_store = false)
  /\ exists w',
      modify_shortcuts_vdf "shortcuts.vdf" 0 [0xD800] sample_notes_world
      = (Ret (match str_encode [0xD800] with Ret _ => true | Raise _ => false end), w')
      /\ files w' = <[backup_of "shortcuts.vdf" := sample_notes_store]>
                      (files sample_notes_world)
      /\ trace w'
         = trace sample_notes_world
           ++ [EvCopy "shortcuts.vdf" (backup_of "shortcuts.vdf");
               EvRead "shortcuts.vdf";
               EvWrite "shortcuts.vdf" sample_notes_store]
           ++ match str_encode [0xD800] with
              | Ret _ => []
              | Raise e => [EvLogError e;
                            EvCopy (backup_of "shortcuts.vdf") "shortcuts.vdf"]
              end.
Proof.
  assert (Hno : forall n, In n edge_names ->
                  contains (app_name_field n) sample_notes_store = false).
  { intros n [<-|[<-|[]]]; vm_compute; reflexivity. }
  split; [vm_compute; reflexivity|]. split; [reflexivity|]. split; [reflexivity|].
  split; [exact Hno|].
  apply (modify_shortcuts_vdf_without_entry "shortcuts.vdf" 0 [0xD800]
           sample_notes_world sample_notes_store);
    [vm_compute; reflexivity|reflexivity|reflexivity|exact Hno].
Defined.

(** The two outcomes on the store without Microsoft Edge: [True] for the
    default name, [False] for a name that is a lone surrogate. *)
Example modify_shortcuts_vdf_log_sample :
  fst (modify_shortcuts_vdf "shortcuts.vdf" 0 default_new_name sample_notes_world)
  = Ret true
  /\ fst (modify_shortcuts_vdf "shortcuts.vdf" 0 [0xD800] sample_notes_world)
     = Ret false.
Proof. split; vm_compute; reflexivity. Qed.

(** What the handler of an operation leaves when the copy to the backup
    path failed at once for want of the document: the state after the log
    entry and the restore. *)
Lemma handler_after_missing doc {A} (body : IO A) (v : A) (w : world) :
  files w !! doc = None -> copy_faults w = [] ->
  try_except (copy2 doc (backup_of doc) ;;; body)
             (fun e => emit (EvLogError e) ;;;
                       restore_backup (backup_of doc) doc ;;; io_ret v) w
  = (Ret v,
     match files w !! backup_of doc with
     | Some b => World (<[doc := b]> (files w)) (faults w) []
                       (trace w ++ [EvLogError OSError; EvCopy (backup_of doc) doc])
     | None => World (files w) (faults w) (copy_faults w)
                     (trace w ++ [EvLogError OSError])
     end).
Proof.
  intros Hdoc Hcf. unfold try_except, io_bind at 1, copy2. rewrite Hdoc.
  destruct (files w !! backup_of doc) as [b|] eqn:Eb.
  - apply handler_run; [exact Eb| |exact Hcf]. intros E. now apply (backup_ne doc).
  - unfold io_bind, emit, restore_backup, io_bind, path_exists. cbn [files].
    rewrite Eb. rewrite bool_decide_eq_false_2 by (intros [? ?]; discriminate).
    reflexivity.
Qed.

(** X6: when the document is missing and no copy fails, each of the three
    operations returns [False].  [update_localconfig_vdf] leaves the state
    as it was.  [modify_shortcuts_vdf] and [add_shortcut_to_steam] fail at
    the copy to the backup path and run their handler: if a file is at the
    backup path, left there by an earlier run, it is copied to the path of
    the document; if none is there, no file changes. *)
Theorem missing_document_takes_stale_backup
  (USERDATA_DIR : string) (utf8_decode : bytes -> text) (input : IO unit)
  (op : operation) (w : world) :
  files w !! document USERDATA_DIR op = None ->
  copy_faults w = [] ->
  let doc := document USERDATA_DIR op in
  exists w',
    run USERDATA_DIR utf8_decode input op w = (Ret false, w')
    /\ faults w' = faults w
    /\ match op with
       | OpUpdate _ _ => w' = w
       | _ =>
           match files w !! backup_of doc with
           | Some b =>
               files w' = <[doc := b]> (files w)
               /\ trace w' = trace w ++ [EvLogError OSError; EvCopy (backup_of doc) doc]
           | None =>
               files w' = files w /\ trace w' = trace w ++ [EvLogError OSError]
           end
       end.
Proof.
  intros Hdoc Hcf doc.
  destruct op as [d id name|dbg fp d uid|uid id]; cbn [run document] in *.
  - unfold modify_shortcuts_vdf. cbv zeta. fold (backup_of d).
    rewrite (handler_after_missing d _ false w Hdoc Hcf). eexists. split; [reflexivity|].
    subst doc. destruct (files w !! backup_of d); cbn; auto.
  - unfold add_shortcut_to_steam. cbv zeta. fold (backup_of d).
    rewrite (handler_after_missing d _ false w Hdoc Hcf). eexists. split; [reflexivity|].
    subst doc. destruct (files w !! backup_of d); cbn; auto.
  - exists w. split; [|split; reflexivity].
    unfold update_localconfig_vdf.
    destruct (String.eqb uid "" || (id =? 0)); [reflexivity|].
    unfold io_bind, path_exists.
    rewrite bool_decide_eq_false_2 by (rewrite Hdoc; intros [? ?]; discriminate).
    reflexivity.
Qed.

Lemma missing_document_takes_stale_backup_witness :
  files sample_stale_world !! document "" (OpAdd false None "shortcuts.vdf" "1001") = None
  /\ copy_faults sample_stale_world = []
  /\ (let doc := document "" (OpAdd false None "shortcuts.vdf" "1001") in
      exists w',
        run "" (map Byte.to_N) (io_ret tt) (OpAdd false None "shortcuts.vdf" "1001")
            sample_stale_world
        = (Ret false, w')
        /\ faults w' = faults sample_stale_world
        /\ match files sample_stale_world !! backup_of doc with
           | Some b =>
               files w' = <[doc := b]> (files sample_stale_world)
               /\ trace w' = trace sample_stale_world
                             ++ [EvLogError OSError; EvCopy (backup_of doc) doc]
           | None =>
               files w' = files sample_stale_world
               /\ trace w' = trace sample_stale_world ++ [EvLogError OSError]
           end).
Proof.
  split; [vm_compute; reflexivity|]. split; [reflexivity|].
  apply (missing_document_takes_stale_backup "" (map Byte.to_N) (io_ret tt)
           (OpAdd false None "shortcuts.vdf" "1001") sample_stale_world);
    [vm_compute; reflexivity|reflexivity].
Defined.

(** X7: with no copy failing and a prompt during which nothing happens to
    the disk, [update_localconfig_vdf] returns [False] exactly when the
    user id is empty, the appid is zero or the config is missing, and then
    it has done nothing.  In every other case it returns [True], whatever
    happened to the config, unless a prompt raised: then that exception
    leaves the function.  When the config holds no section for the appid
    and the read did not fail, the config is left as it was and nothing is
    written. *)
Theorem update_localconfig_vdf_result
  (USERDATA_DIR : string) (utf8_decode : bytes -> text) (input : IO unit)
  (user_id : string) (edge_app_id : N) (w : world) :
  copy_faults w = [] ->
  inert input ->
  let doc := document USERDATA_DIR (OpUpdate user_id edge_app_id) in
  let present := negb (String.eqb user_id "") && negb (edge_app_id =? 0)
                 && bool_decide (is_Some (files w !! doc)) in
  exists r w' evs,
    update_localconfig_vdf USERDATA_DIR utf8_decode input (Some user_id)
                           (Some edge_app_id) w = (r, w')
    /\ trace w' = trace w ++ evs
    /\ (present = false -> r = Ret false /\ w' = w)
    /\ (present = true -> r = Ret true \/ raised_by input r)
    /\ (forall c, present = true -> files w !! doc = Some c ->
        hd None (faults w) = None ->
        locate_section (utf8_decode c) edge_app_id = None ->
        files w' = <[backup_of doc := c]> (files w)
        /\ forall p d, ~ In (EvWrite p d) evs).
Proof.
  intros Hcf Hin doc present. subst present.
  unfold update_localconfig_vdf. cbn [document] in doc. fold doc.
  destruct (String.eqb user_id "") eqn:Eu.
  { exists (Ret false), w, []. split; [reflexivity|].
    split; [now rewrite app_nil_r|]. repeat split; discriminate. }
  destruct (edge_app_id =? 0) eqn:Ei.
  { exists (Ret false), w, []. split; [reflexivity|].
    split; [now rewrite app_nil_r|]. repeat split; discriminate. }
  cbn [orb negb andb]. unfold io_bind at 1, path_exists.
  destruct (files w !! doc) as [c|] eqn:Hdoc.
  2:{ rewrite bool_decide_eq_false_2 by (intros [? ?]; discriminate).
      exists (Ret false), w, []. split; [reflexivity|].
      split; [now rewrite app_nil_r|]. repeat split; discriminate. }
  rewrite bool_decide_eq_true_2 by eauto. cbn [negb].
  pose proof (backup_ne doc) as Hne.
  assert (Hne' : backup_of doc <> doc) by (intros E; now apply Hne).
  fold (backup_of doc).
  unfold try_except. unfold io_bind at 1. rewrite (copy2_run _ _ _ _ Hdoc Hne Hcf).
  set (w1 := World _ _ _ _).
  assert (Hl : files w1 !! doc = Some c).
  { unfold w1. cbn. rewrite lookup_insert_ne by exact Hne'. exact Hdoc. }
  assert (Hid : <[doc := c]> (files w1) = <[backup_of doc := c]> (files w)).
  { apply insert_id. exact Hl. }
  assert (Hbak : files w1 !! backup_of doc = Some c)
    by (unfold w1; cbn; apply lookup_insert_eq).
  assert (Hhandler : forall e w2 evs2,
    files w2 !! backup_of doc = Some c -> copy_faults w2 = [] ->
    trace w2 = trace w ++ evs2 ->
    exists r w',
      (emit (EvLogError e) ;;; restore_backup (backup_of doc) doc ;;;
       input ;;; io_ret true) w2 = (r, w')
      /\ trace w' = trace w ++ evs2 ++ [EvLogError e; EvCopy (backup_of doc) doc]
      /\ files w' = <[doc := c]> (files w2)
      /\ (r = Ret true \/ raised_by input r)).
  { intros e w2 evs2 Hb Hc2 Ht2.
    rewrite (handler_tail_run _ _ (input ;;; io_ret true) e c w2 Hb Hne' Hc2).
    set (w3 := World _ _ _ _).
    destruct (inert_prompt_then input true Hin w3) as [r Hr].
    exists r, w3. split; [exact Hr|]. unfold w3; cbn [trace files].
    split; [now rewrite Ht2, <- app_assoc|]. split; [reflexivity|].
    now apply prompt_then_outcome in Hr. }
  assert (Hnowrite : forall e,
    forall p d, ~ In (EvWrite p d)
                  ([EvCopy doc (backup_of doc); EvRead doc]
                   ++ [EvLogError e; EvCopy (backup_of doc) doc])).
  { intros e p d Hin'. cbn in Hin'. intuition discriminate. }
  unfold io_bind at 1. unfold read_text. unfold io_bind at 1.
  destruct (read_file doc w1) as [[data|e] w2] eqn:Er;
    apply read_file_cases in Er as (Hf2 & Hc2 & Hr2).
  - destruct Hr2 as [Hd Ht2]. rewrite Hl in Hd. injection Hd as <-.
    unfold io_ret at 1. unfold update_content.
    destruct (locate_section (utf8_decode c) edge_app_id) as [[s e]|] eqn:El.
    + unfold io_bind at 1.
      destruct (write_text doc _ w2) as [[[]|e'] w4] eqn:Ew;
        destruct (body_ok_write_text doc _ _ _ _ Ew) as (Hf4 & Hc4 & evs4 & Ht4 & _).
      * exists (Ret true), w4, ([EvCopy doc (backup_of doc); EvRead doc] ++ evs4).
        split; [reflexivity|].
        split; [rewrite Ht4, Ht2; unfold w1; cbn [trace]; now rewrite <- !app_assoc|].
        split; [discriminate|]. split; [now left|].
        intros c' _ [= <-] _ Hn. congruence.
      * destruct (Hhandler e' w4 ([EvCopy doc (backup_of doc); EvRead doc] ++ evs4))
          as (r & w' & Hrun & Htr & Hfw & Hres).
        { rewrite Hf4 by exact Hne'. now rewrite Hf2. }
        { now rewrite Hc4, Hc2. }
        { rewrite Ht4, Ht2. unfold w1. cbn [trace]. now rewrite <- !app_assoc. }
        eexists r, w', _. split; [exact Hrun|]. split; [exact Htr|].
        split; [discriminate|]. split; [intros _; exact Hres|].
        intros c' _ [= <-] _ Hn. congruence.
    + unfold io_bind at 1. destruct (Hin w2) as [ri Hri]. rewrite Hri.
      destruct ri as [[]|e'].
      * exists (Ret true), w2, [EvCopy doc (backup_of doc); EvRead doc].
        split; [reflexivity|].
        split; [rewrite Ht2; unfold w1; cbn [trace]; now rewrite <- !app_assoc|].
        split; [discriminate|]. split; [now left|].
        intros c' _ [= <-] _ _. split.
        -- rewrite Hf2. unfold w1. reflexivity.
        -- intros p d Hin'. cbn in Hin'. intuition discriminate.
      * destruct (Hhandler e' w2 [EvCopy doc (backup_of doc); EvRead doc])
          as (r & w' & Hrun & Htr & Hfw & Hres);
          [now rewrite Hf2|now rewrite Hc2
          |rewrite Ht2; unfold w1; cbn [trace]; now rewrite <- !app_assoc|].
        eexists r, w', _. split; [exact Hrun|]. split; [exact Htr|].
        split; [discriminate|]. split; [intros _; exact Hres|].
        intros c' _ [= <-] _ _. split; [now rewrite Hfw, Hf2|apply Hnowrite].
  - destruct Hr2 as (-> & Ht2 & Hhd).
    destruct (Hhandler OSError w2 [EvCopy doc (backup_of doc)])
      as (r & w' & Hrun & Htr & Hfw & Hres);
      [now rewrite Hf2|now rewrite Hc2|rewrite Ht2; reflexivity|].
    eexists r, w', _. split; [exact Hrun|]. split; [exact Htr|].
    split; [discriminate|]. split; [intros _; exact Hres|].
    intros c' _ _ Hnone _. cbn [faults] in Hhd. specialize (Hhd Hnone). congruence.
Qed.

Lemma update_localconfig_vdf_result_witness :
  copy_faults (sample_config_world []) = []
  /\ inert (io_ret tt)
  /\ (let doc := document "" (OpUpdate "1001" 7) in
      let present := negb (String.eqb "1001" "") && negb (7 =? 0)
                     && bool_decide (is_Some (files (sample_config_world []) !! doc)) in
      exists r w' evs,
        update_localconfig_vdf "" (map Byte.to_N) (io_ret tt) (Some "1001"%string)
                               (Some 7) (sample_config_world []) = (r, w')
        /\ trace w' = trace (sample_config_world []) ++ evs
        /\ (present = false -> r = Ret false /\ w' = sample_config_world [])
        /\ (present = true -> r = Ret true \/ raised_by (io_ret tt) r)
        /\ (forall c, present = true ->
            files (sample_config_world []) !! doc = Some c ->
            hd None (faults (sample_config_world [])) = None ->
            locate_section (map Byte.to_N c) 7 = None ->
            files w' = <[backup_of doc := c]> (files (sample_config_world []))
            /\ forall p d, ~ In (EvWrite p d) evs)).
Proof.
  split; [reflexivity|]. split; [intros w; now exists (Ret tt)|].
  apply (update_localconfig_vdf_result "" (map Byte.to_N) (io_ret tt) "1001" 7
           (sample_config_world [])); [reflexivity|intros w; now exists (Ret tt)].
Defined.

(** A failed read of the config, and a prompt that meets the end of the
    input: the first is reported as a success, the second leaves the
    function as an exception. *)
Example update_localconfig_vdf_samples :
  fst (update_localconfig_vdf "" (map Byte.to_N) (io_ret tt) (Some "1001"%string)
         (Some 42) (sample_config_world [Some 0%nat])) = Ret true
  /\ fst (update_localconfig_vdf "" (map Byte.to_N) (io_raise EOFError)
            (Some "1001"%string) (Some 7) (sample_config_world [])) = Raise EOFError.
Proof. split; vm_compute; reflexivity. Qed.

(** ** Looking for the entry *)

Lemma int_from_bytes_bound (g : bytes) :
  length g = 4%nat -> int_from_bytes g < 0x100000000.
Proof.
  destruct g as [|a [|b [|c [|d [|? ?]]]]]; try discriminate. intros _.
  unfold int_from_bytes. cbn [fold_right].
  pose proof (Byte.to_N_bounded a). pose proof (Byte.to_N_bounded b).
  pose proof (Byte.to_N_bounded c). pose proof (Byte.to_N_bounded d). lia.
Qed.

Lemma first_app_id_bound (content : bytes) (ms : list (nat * nat * bytes)) (n : N) :
  first_app_id content ms = Some n -> n < 0x100000000.
Proof.
  induction ms as [|[[i k] g] ms IH]; [discriminate|]. cbn [first_app_id]. cbv zeta.
  destruct (re_search app_id_pattern _) as [[[j k'] g']|] eqn:E; [|exact IH].
  intros [= <-]. apply re_search_Some in E as [E _].
  apply app_id_pattern_Some in E as (_ & Hlen & _).
  now apply int_from_bytes_bound.
Qed.

Lemma find_edge_app_id_run (path : string) (w : world) :
  exists r w',
    find_edge_app_id path w = (Ret r, w')
    /\ files w' = files w
    /\ copy_faults w' = copy_faults w
    /\ forall n, r = Some n ->
         exists c, files w !! path = Some c /\ locate_entry c = Some n.
Proof.
  unfold find_edge_app_id, try_except, io_bind.
  destruct (read_file path w) as [[c|e] w1] eqn:Er;
    apply read_file_cases in Er as (Hf & Hc & Hr).
  - exists (locate_entry c), w1. split; [reflexivity|]. split; [exact Hf|].
    split; [exact Hc|]. intros n Hn. exists c. now destruct Hr.
  - eexists None, _. split; [reflexivity|]. split; [exact Hf|].
    split; [exact Hc|]. discriminate.
Qed.

(** X8: [find_edge_app_id] never raises and never changes a file; it
    returns [None] when the store is missing or cannot be read; and an appid
    it returns is below 2^32 and is the one [locate_entry] finds in the
    bytes of the store. *)
Theorem find_edge_app_id_reads_only (shortcuts_vdf : string) (w : world) :
  exists r w',
    find_edge_app_id shortcuts_vdf w = (Ret r, w')
    /\ files w' = files w
    /\ (files w !! shortcuts_vdf = None -> r = None)
    /\ (hd None (faults w) <> None -> r = None)
    /\ forall n, r = Some n ->
         n < 0x100000000
         /\ exists c, files w !! shortcuts_vdf = Some c /\ locate_entry c = Some n.
Proof.
  destruct (find_edge_app_id_run shortcuts_vdf w) as (r & w' & Hrun & Hf & _ & Hsome).
  exists r, w'. split; [exact Hrun|]. split; [exact Hf|].
  split; [|split].
  - intros Hnone. destruct r as [n|]; [|reflexivity].
    destruct (Hsome n eq_refl) as (c & Hc & _). congruence.
  - intros Hfault. unfold find_edge_app_id, try_except, io_bind in Hrun.
    rewrite read_file_run in Hrun.
    destruct (faults w) as [|[k|] fl]; [now destruct Hfault| |now destruct Hfault].
    now injection Hrun as <- _.
  - intros n Hn. destruct (Hsome n Hn) as (c & Hc & Hl). split; [|now exists c].
    exact (first_app_id_bound _ _ _ Hl).
Qed.

Section AddEdgeFacts.

Variable USERDATA_DIR : string.
Variable get_steam_users : world -> list string.
Variable debug_mode : bool.
Variable flatpak_info : string -> option Z.
Variable input : IO unit.

Local Abbreviation find_stores := (find_in_stores USERDATA_DIR).
Local Abbreviation add_stores := (add_in_stores USERDATA_DIR debug_mode flatpak_info).
Local Abbreviation store_path := (shortcuts_path USERDATA_DIR).

(** The first loop never raises and never changes a file, and what it
    finds is in the store of the user it names. *)
Lemma find_in_stores_run (users : list string) (w : world) :
  exists r w',
    find_stores users w = (Ret r, w')
    /\ files w' = files w
    /\ copy_faults w' = copy_faults w
    /\ forall n u, r = Some (n, u) ->
         In u users /\ n <> 0
         /\ exists c, files w !! store_path u = Some c /\ locate_entry c = Some n.
Proof.
  revert w. induction users as [|user_id rest IH]; intros w.
  - exists None, w. split; [reflexivity|]. split; [reflexivity|].
    split; [reflexivity|]. discriminate.
  - cbn [find_in_stores]. cbv zeta. unfold io_bind at 1, path_exists.
    assert (Hrest : forall w1, files w1 = files w -> copy_faults w1 = copy_faults w ->
      exists r w',
        find_stores rest w1 = (Ret r, w')
        /\ files w' = files w
        /\ copy_faults w' = copy_faults w
        /\ forall n u, r = Some (n, u) ->
             In u (user_id :: rest) /\ n <> 0
             /\ exists c, files w !! store_path u = Some c /\ locate_entry c = Some n).
    { intros w1 H1 H1c. destruct (IH w1) as (r & w' & Hrun & Hf & Hc & Hs).
      exists r, w'. split; [exact Hrun|]. split; [congruence|]. split; [congruence|].
      intros n u Hr. destruct (Hs n u Hr) as (Hin & Hn & c & Hc' & Hl).
      split; [now right|]. split; [exact Hn|]. exists c. split; [congruence|exact Hl]. }
    destruct (bool_decide _); [|now apply Hrest].
    unfold io_bind at 1.
    destruct (find_edge_app_id_run (store_path user_id) w)
      as (r & w1 & Hrun & Hf & Hc & Hsome).
    rewrite Hrun. destruct r as [n|]; [|now apply Hrest].
    destruct (n =? 0) eqn:En; [now apply Hrest|].
    exists (Some (n, user_id)), w1. split; [reflexivity|]. split; [exact Hf|].
    split; [exact Hc|].
    intros n' u [= <- <-]. split; [now left|].
    split; [now apply N.eqb_neq|]. now apply Hsome.
Qed.

(** The body of [add_shortcut_to_steam] after the backup: it changes no
    file and does not return [True]. *)
Lemma add_body_run (dbg : bool) (fp : option Z) (doc : string) (w : world) :
  exists r w',
    ((if dbg then read_file doc ;;; io_ret tt else io_ret tt) ;;;
     match fp with
     | Some 0%Z =>
         app_id <~ io_lift (generate_app_id (PyBytes edge_exe) (PyBytes edge_name)) ;;
         content <~ read_file doc ;;
         new_entry <~ io_lift (build_edge_entry (next_index content) app_id) ;;
         write_file doc (insert_entry content new_entry) ;;;
         io_ret true
     | _ => io_ret false
     end) w = (r, w')
    /\ files w' = files w /\ copy_faults w' = copy_faults w /\ r <> Ret true.
Proof.
  assert (Hrest : forall w1, files w1 = files w -> copy_faults w1 = copy_faults w ->
    exists r w',
      match fp with
      | Some 0%Z =>
          app_id <~ io_lift (generate_app_id (PyBytes edge_exe) (PyBytes edge_name)) ;;
          content <~ read_file doc ;;
          new_entry <~ io_lift (build_edge_entry (next_index content) app_id) ;;
          write_file doc (insert_entry content new_entry) ;;;
          io_ret true
      | _ => io_ret false
      end w1 = (r, w')
      /\ files w' = files w /\ copy_faults w' = copy_faults w /\ r <> Ret true).
  { intros w1 H1 H1c. destruct fp as [[|z|z]|];
      eexists _, w1; (split; [reflexivity|]); (split; [exact H1|]);
      (split; [exact H1c|]); discriminate. }
  unfold io_bind at 1. destruct dbg.
  - unfold io_bind at 1.
    destruct (read_file doc w) as [[c|e] w1] eqn:Er;
      apply read_file_cases in Er as (Hf & Hc & _).
    + unfold io_ret at 1. now apply Hrest.
    + eexists _, w1. split; [reflexivity|]. split; [exact Hf|].
      split; [exact Hc|]. discriminate.
  - unfold io_ret at 1. now apply Hrest.
Qed.

(** The handler of [add_shortcut_to_steam] does not return [True]. *)
Lemma add_handler_not_true (bak doc : string) (e : exn) (w : world) :
  fst ((emit (EvLogError e) ;;; restore_backup bak doc ;;; io_ret false) w)
  <> Ret true.
Proof.
  unfold io_bind at 1, emit. unfold io_bind.
  destruct (restore_backup bak doc _) as [[[]|e'] w2]; discriminate.
Qed.

(** [add_shortcut_to_steam] never returns [True], whatever fails. *)
Lemma add_shortcut_to_steam_not_true (dbg : bool) (fp : option Z)
  (doc user_id : string) (w : world) :
  fst (add_shortcut_to_steam dbg fp doc user_id w) <> Ret true.
Proof.
  unfold add_shortcut_to_steam. cbv zeta. unfold try_except. unfold io_bind at 1.
  destruct (copy2 doc _ w) as [[[]|e] w1].
  - destruct (add_body_run dbg fp doc w1) as (r & w2 & Hrun & _ & _ & Hr).
    rewrite Hrun. destruct r as [[|]|e].
    + now destruct Hr.
    + discriminate.
    + apply add_handler_not_true.
  - apply add_handler_not_true.
Qed.

(** [add_shortcut_to_steam] on a store that exists, when no copy fails,
    returns [False] and leaves a copy of the store at the backup path,
    nothing else. *)
Lemma add_shortcut_to_steam_files (dbg : bool) (fp : option Z)
  (doc user_id : string) (w : world) (c : bytes) :
  files w !! doc = Some c -> copy_faults w = [] ->
  exists w',
    add_shortcut_to_steam dbg fp doc user_id w = (Ret false, w')
    /\ files w' = <[backup_of doc := c]> (files w)
    /\ copy_faults w' = [].
Proof.
  intros Hdoc Hcf. pose proof (backup_ne doc) as Hne.
  assert (Hne' : backup_of doc <> doc) by (intros E; now apply Hne).
  unfold add_shortcut_to_steam. cbv zeta. fold (backup_of doc).
  unfold try_except. unfold io_bind at 1. rewrite (copy2_run _ _ _ _ Hdoc Hne Hcf).
  set (w1 := World _ _ _ _).
  destruct (add_body_run dbg fp doc w1) as (r & w2 & Hrun & Hf & Hc & Hr).
  rewrite Hrun. destruct r as [[|]|e].
  - now destruct Hr.
  - exists w2. split; [reflexivity|]. split; [exact Hf|]. now rewrite Hc.
  - assert (Hbak : files w2 !! backup_of doc = Some c).
    { rewrite Hf. unfold w1. cbn. apply lookup_insert_eq. }
    rewrite (handler_run (backup_of doc) doc false e c w2 Hbak Hne')
      by now rewrite Hc.
    eexists. split; [reflexivity|]. cbn [files copy_faults].
    split; [|reflexivity]. rewrite Hf. unfold w1. cbn [files].
    apply insert_id. rewrite lookup_insert_ne by exact Hne'. exact Hdoc.
Qed.

(** The second loop never returns an appid, whatever fails. *)
Lemma add_in_stores_none (users : list string) (w : world) (r : option (N * string))
  (w' : world) :
  add_stores users w = (Ret r, w') -> r = None.
Proof.
  revert w. induction users as [|user_id rest IH]; intros w.
  - now intros [= <- _].
  - cbn [add_in_stores]. cbv zeta. unfold io_bind at 1, path_exists.
    destruct (bool_decide _); [|apply IH].
    unfold io_bind at 1.
    pose proof (add_shortcut_to_steam_not_true debug_mode (flatpak_info user_id)
                  (store_path user_id) user_id w) as Hnt.
    destruct (add_shortcut_to_steam _ _ _ _ w) as [[[|]|e] w1].
    + now destruct Hnt.
    + apply IH.
    + discriminate.
Qed.

(** When no copy fails, the second loop returns; it leaves a backup beside
    each store it went through and changes nothing else. *)
Lemma add_in_stores_run (users : list string) (w : world) :
  copy_faults w = [] ->
  exists w',
    add_stores users w = (Ret None, w')
    /\ forall p, (forall u, In u users -> p <> backup_of (store_path u)) ->
         files w' !! p = files w !! p.
Proof.
  revert w. induction users as [|user_id rest IH]; intros w Hcf.
  - exists w. split; [reflexivity|]. reflexivity.
  - cbn [add_in_stores]. cbv zeta. unfold io_bind at 1, path_exists.
    assert (Hrest : forall w1,
      (forall p, p <> backup_of (store_path user_id) ->
         files w1 !! p = files w !! p) ->
      copy_faults w1 = [] ->
      exists w',
        add_stores rest w1 = (Ret None, w')
        /\ forall p, (forall u, In u (user_id :: rest) ->
                        p <> backup_of (store_path u)) ->
             files w' !! p = files w !! p).
    { intros w1 H1 H1c. destruct (IH w1 H1c) as (w' & Hrun & Hf).
      exists w'. split; [exact Hrun|]. intros p Hp.
      rewrite Hf by (intros u Hu; apply Hp; now right).
      apply H1, Hp. now left. }
    destruct (files w !! store_path user_id) as [c|] eqn:Hdoc.
    + rewrite bool_decide_eq_true_2 by eauto. unfold io_bind at 1.
      destruct (add_shortcut_to_steam_files debug_mode (flatpak_info user_id)
                  _ user_id w c Hdoc Hcf) as (w1 & Hrun & Hf & Hc).
      rewrite Hrun. apply Hrest; [|exact Hc]. intros p Hp. rewrite Hf.
      now apply lookup_insert_ne.
    + rewrite bool_decide_eq_false_2 by (intros [? ?]; discriminate).
      now apply Hrest.
Qed.

Lemma add_edge_to_steam_unfold (w : world) :
  add_edge_to_steam USERDATA_DIR get_steam_users debug_mode flatpak_info input w
  = match find_stores (get_steam_users w) w with
    | (Ret (Some r), w1) => (Ret (Some r), w1)
    | (Ret None, w1) =>
        match add_stores (get_steam_users w1) w1 with
        | (Ret (Some r), w2) => (Ret (Some r), w2)
        | (Ret None, w2) => manual_addition USERDATA_DIR get_steam_users input w2
        | (Raise e, w2) => (Raise e, w2)
        end
    | (Raise e, w1) => (Raise e, w1)
    end.
Proof.
  unfold add_edge_to_steam, list_users. unfold io_bind at 1. unfold io_bind at 1.
  destruct (find_stores (get_steam_users w) w) as [[[r|]|e] w1]; try reflexivity.
  unfold io_bind at 1. unfold io_bind at 1.
  destruct (add_stores (get_steam_users w1) w1) as [[[r|]|e] w2]; reflexivity.
Qed.

(** X9: an appid that [add_edge_to_steam] returns is not zero, is below
    2^32, and is the one [locate_entry] finds in the store of the user
    returned with it, as that store is when the function returns. *)
Theorem add_edge_to_steam_result (w w' : world) (n : N) (u : string) :
  add_edge_to_steam USERDATA_DIR get_steam_users debug_mode flatpak_info input w
  = (Ret (Some (n, u)), w') ->
  n <> 0 /\ n < 0x100000000
  /\ exists c, files w' !! store_path u = Some c /\ locate_entry c = Some n.
Proof.
  assert (Hfind : forall users w0 w1,
    find_stores users w0 = (Ret (Some (n, u)), w1) ->
    n <> 0 /\ n < 0x100000000
    /\ exists c, files w1 !! store_path u = Some c /\ locate_entry c = Some n).
  { intros users w0 w1 Hrun.
    destruct (find_in_stores_run users w0) as (r & w2 & Hrun' & Hf & _ & Hs).
    rewrite Hrun in Hrun'. injection Hrun' as <- <-.
    destruct (Hs n u eq_refl) as (_ & Hn & c & Hc & Hl).
    split; [exact Hn|]. split; [exact (first_app_id_bound _ _ _ Hl)|].
    exists c. split; [congruence|exact Hl]. }
  rewrite add_edge_to_steam_unfold.
  destruct (find_in_stores_run (get_steam_users w) w) as (r & w1 & Hrun & Hf & _ & Hs).
  rewrite Hrun. destruct r as [[n1 u1]|].
  - intros [= <- <- <-]. now apply (Hfind _ _ _ Hrun).
  - destruct (add_stores (get_steam_users w1) w1) as [[ra|e] w2] eqn:Hadd;
      [|discriminate].
    apply add_in_stores_none in Hadd. subst ra.
    unfold manual_addition, list_users. unfold io_bind at 1.
    destruct (input w2) as [[[]|e] w3]; [|discriminate].
    unfold io_bind at 1. apply Hfind.
Qed.

(** X10: when no copy fails, [add_edge_to_steam] never adds the entry by
    itself.  Either the first loop finds an entry that was in a store when
    the function was called, and that one is returned; or the function goes
    on to the manual addition.  Up to that point no file has changed but
    the backups of the stores. *)
Theorem add_edge_to_steam_never_adds (w : world) :
  copy_faults w = [] ->
  exists w1,
    (forall p, (forall u, p <> backup_of (store_path u)) ->
       files w1 !! p = files w !! p)
    /\ ((exists n u c,
           add_edge_to_steam USERDATA_DIR get_steam_users debug_mode flatpak_info input w
           = (Ret (Some (n, u)), w1)
           /\ files w !! store_path u = Some c /\ locate_entry c = Some n)
        \/ add_edge_to_steam USERDATA_DIR get_steam_users debug_mode flatpak_info input w
           = manual_addition USERDATA_DIR get_steam_users input w1).
Proof.
  intros Hcf. rewrite add_edge_to_steam_unfold.
  destruct (find_in_stores_run (get_steam_users w) w) as (r & w1 & Hrun & Hf & Hc & Hs).
  rewrite Hrun. destruct r as [[n1 u1]|].
  - exists w1. split; [intros p _; now rewrite Hf|]. left.
    destruct (Hs n1 u1 eq_refl) as (_ & _ & c & Hc' & Hl).
    now exists n1, u1, c.
  - destruct (add_in_stores_run (get_steam_users w1) w1) as (w2 & Hadd & Hf2);
      [now rewrite Hc|].
    rewrite Hadd. exists w2. split; [|now right].
    intros p Hp. rewrite Hf2 by (intros u _; apply Hp). now rewrite Hf.
Qed.

End AddEdgeFacts.

Lemma add_edge_to_steam_result_witness :
  add_edge_to_steam "" (fun _ => ["1001"%string]) false (fun _ => None) (io_ret tt)
    sample_user_world
  = (Ret (Some (0x12345678, "1001"%string)),
     World (files sample_user_world) [] [] [EvRead "1001/config/shortcuts.vdf"])
  /\ (0x12345678 <> 0 /\ 0x12345678 < 0x100000000
      /\ exists c,
          files (World (files sample_user_world) [] []
                       [EvRead "1001/config/shortcuts.vdf"])
            !! shortcuts_path "" "1001" = Some c
          /\ locate_entry c = Some 0x12345678).
Proof.
  assert (Hrun :
    add_edge_to_steam "" (fun _ => ["1001"%string]) false (fun _ => None) (io_ret tt)
      sample_user_world
    = (Ret (Some (0x12345678, "1001"%string)),
       World (files sample_user_world) [] [] [EvRead "1001/config/shortcuts.vdf"]))
    by (vm_compute; reflexivity).
  split; [exact Hrun|].
  exact (add_edge_to_steam_result "" (fun _ => ["1001"%string]) false (fun _ => None)
           (io_ret tt) sample_user_world _ _ _ Hrun).
Defined.

Lemma add_edge_to_steam_never_adds_witness :
  copy_faults sample_user_world = []
  /\ exists w1,
      (forall p, (forall u, p <> backup_of (shortcuts_path "" u)) ->
         files w1 !! p = files sample_user_world !! p)
      /\ ((exists n u c,
             add_edge_to_steam "" (fun _ => ["1001"%string]) false (fun _ => None)
               (io_ret tt) sample_user_world
             = (Ret (Some (n, u)), w1)
             /\ files sample_user_world !! shortcuts_path "" u = Some c
             /\ locate_entry c = Some n)
          \/ add_edge_to_steam "" (fun _ => ["1001"%string]) false (fun _ => None)
               (io_ret tt) sample_user_world
             = manual_addition "" (fun _ => ["1001"%string]) (io_ret tt) w1).
Proof.
  split; [reflexivity|].
  apply (add_edge_to_steam_never_adds "" (fun _ => ["1001"%string]) false
           (fun _ => None) (io_ret tt) sample_user_world).
  reflexivity.
Defined.

(** ** Renaming, then looking again *)

(** X11: after [modify_shortcuts_vdf] has run without a fault of the disk,
    with a new name that encodes to bytes without NUL and SOH and that is
    not a target name, the store holds what the loop made of it, the backup
    holds what the store held before, and [find_edge_app_id] on the store
    returns [None]: the renamed entry is not found again. *)
Theorem modify_then_find_returns_none
  (shortcuts_vdf : string) (edge_app_id : N) (new_name : text) (nb : bytes)
  (w : world) (c : bytes) :
  files w !! shortcuts_vdf = Some c ->
  faults w = [] ->
  copy_faults w = [] ->
  str_encode new_name = Ret nb ->
  ~ In x00 nb -> ~ In x01 nb -> ~ In nb edge_names ->
  exists c' w' w'',
    modify_content c new_name = Ret c'
    /\ modify_shortcuts_vdf shortcuts_vdf edge_app_id new_name w = (Ret true, w')
    /\ files w' = <[shortcuts_vdf := c']> (<[backup_of shortcuts_vdf := c]> (files w))
    /\ find_edge_app_id shortcuts_vdf w' = (Ret None, w'')
    /\ files w'' = files w'.
Proof.
  intros Hdoc Hf Hcf Henc H0 H1 Hnew. pose proof (backup_ne shortcuts_vdf) as Hne.
  destruct (modify_content_removes c new_name nb Henc H0 H1 Hnew) as (c' & Hrun & Hno).
  exists c'.
  assert (Hmod : modify_shortcuts_vdf shortcuts_vdf edge_app_id new_name w
    = (Ret true,
       World (<[shortcuts_vdf := c']> (<[backup_of shortcuts_vdf := c]> (files w)))
             [] []
             (trace w ++ [EvCopy shortcuts_vdf (backup_of shortcuts_vdf);
                          EvRead shortcuts_vdf; EvWrite shortcuts_vdf c']))).
  { unfold modify_shortcuts_vdf. cbv zeta. fold (backup_of shortcuts_vdf).
    unfold try_except. unfold io_bind at 1.
    rewrite (copy2_run _ _ _ _ Hdoc Hne Hcf).
    unfold io_bind at 1. rewrite read_file_run. cbn [faults files trace copy_faults].
    rewrite Hf, lookup_insert_ne by (intros E; now apply Hne). rewrite Hdoc.
    unfold io_bind at 1, io_lift. rewrite Hrun.
    unfold io_bind at 1. rewrite write_file_run by reflexivity.
    unfold io_bind at 1. rewrite log_renamed_run, Henc.
    unfold io_ret. cbn [files trace copy_faults]. rewrite <- !app_assoc. reflexivity. }
  eexists _, _. split; [exact Hrun|]. split; [exact Hmod|].
  cbn [files]. split; [reflexivity|].
  unfold find_edge_app_id, try_except, io_bind. rewrite read_file_run.
  cbn [faults files trace]. rewrite lookup_insert_eq.
  unfold io_ret, locate_entry. rewrite (finditer_name_none _ Hno).
  split; reflexivity.
Qed.

Lemma modify_then_find_returns_none_witness :
  files (sample_world []) !! "shortcuts.vdf"%string = Some sample_store
  /\ faults (sample_world []) = []
  /\ copy_faults (sample_world []) = []
  /\ str_encode default_new_name = Ret (bs "Xbox Cloud Gaming (Beta)")
  /\ ~ In x00 (bs "Xbox Cloud Gaming (Beta)")
  /\ ~ In x01 (bs "Xbox Cloud Gaming (Beta)")
  /\ ~ In (bs "Xbox Cloud Gaming (Beta)") edge_names
  /\ exists c' w' w'',
      modify_content sample_store default_new_name = Ret c'
      /\ modify_shortcuts_vdf "shortcuts.vdf" 0x12345678 default_new_name (sample_world [])
         = (Ret true, w')
      /\ files w' = <[ "shortcuts.vdf"%string := c' ]>
                      (<[backup_of "shortcuts.vdf" := sample_store]>
                         (files (sample_world [])))
      /\ find_edge_app_id "shortcuts.vdf" w' = (Ret None, w'')
      /\ files w'' = files w'.
Proof.
  assert (Hdoc : files (sample_world []) !! "shortcuts.vdf"%string = Some sample_store)
    by (vm_compute; reflexivity).
  assert (Henc : str_encode default_new_name = Ret (bs "Xbox Cloud Gaming (Beta)"))
    by (vm_compute; reflexivity).
  assert (H0 : ~ In x00 (bs "Xbox Cloud Gaming (Beta)"))
    by (vm_compute; intuition discriminate).
  assert (H1 : ~ In x01 (bs "Xbox Cloud Gaming (Beta)"))
    by (vm_compute; intuition discriminate).
  assert (Hn : ~ In (bs "Xbox Cloud Gaming (Beta)") edge_names)
    by (vm_compute; intuition discriminate).
  split; [exact Hdoc|]. split; [reflexivity|]. split; [reflexivity|].
  split; [exact Henc|].
  split; [exact H0|]. split; [exact H1|]. split; [exact Hn|].
  exact (modify_then_find_returns_none "shortcuts.vdf" 0x12345678 default_new_name
           (bs "Xbox Cloud Gaming (Beta)") (sample_world []) sample_store
           Hdoc eq_refl eq_refl Henc H0 H1 Hn).
Defined.

(** ** The bounds of a section *)

Lemma brace_scan_nested (body rest : text) :
  forall (depth : nat) (k : Z) (i section_end : nat),
    nested depth body = true -> (0 < k)%Z ->
    brace_scan (k + Z.of_nat depth) i section_end (body ++ rest)
    = brace_scan k (i + length body) section_end rest.
Proof.
  induction body as [|c body IH]; intros depth k i section_end Hn Hk.
  - cbn in Hn. apply Nat.eqb_eq in Hn. subst depth. cbn [app length].
    now rewrite Z.add_0_r, Nat.add_0_r.
  - cbn [app length brace_scan nested] in *.
    replace (i + S (length body))%nat with (S i + length body)%nat by lia.
    destruct (c =? lbrace).
    + rewrite <- (IH (S depth) k (S i) section_end Hn Hk). f_equal. lia.
    + destruct (c =? rbrace).
      * destruct depth as [|d]; [discriminate|]. cbv zeta.
        replace (k + Z.of_nat (S d) - 1)%Z with (k + Z.of_nat d)%Z by lia.
        replace (k + Z.of_nat d =? 0)%Z with false by (symmetry; apply Z.eqb_neq; lia).
        now apply IH.
      * now apply IH.
Qed.

Lemma brace_scan_unclosed (l : text) :
  forall (k : Z) (i section_end : nat),
    ~ In rbrace l -> brace_scan k i section_end l = section_end.
Proof.
  induction l as [|c l IH]; intros k i section_end Hno; [reflexivity|].
  cbn [brace_scan]. destruct (c =? lbrace); [apply IH; intros H; apply Hno; now right|].
  destruct (c =? rbrace) eqn:Ec.
  - apply N.eqb_eq in Ec. destruct Hno. now left.
  - apply IH. intros H. apply Hno. now right.
Qed.

(** X12: when the text after the opening brace of the section is a body
    whose braces nest properly, followed by a closing brace, the section
    that [locate_section] returns ends just after that closing brace, and
    [update_content] keeps the text before the section and the text after
    that brace as they are. *)
Theorem locate_section_closing_brace
  (content : text) (edge_app_id : N) (s n : nat) (g body rest : text) :
  re_search (app_section_pattern edge_app_id) content = Some (s, n, g) ->
  drop (s + n) content = body ++ rbrace :: rest ->
  nested 0 body = true ->
  locate_section content edge_app_id = Some (s, (s + n + length body + 1)%nat)
  /\ update_content content edge_app_id
     = Some (take s content
             ++ patch_launch_options (take (n + length body + 1) (drop s content))
             ++ rest).
Proof.
  intros Hre Hdrop Hn.
  assert (Hloc : locate_section content edge_app_id
                 = Some (s, (s + n + length body + 1)%nat)).
  { unfold locate_section. rewrite Hre. cbv zeta. rewrite Hdrop.
    pose proof (brace_scan_nested body (rbrace :: rest) 0 1 (s + n) s Hn) as Hb.
    change (1 + Z.of_nat 0)%Z with 1%Z in Hb. rewrite Hb by lia.
    cbn [brace_scan]. replace (rbrace =? lbrace) with false by reflexivity.
    rewrite N.eqb_refl. reflexivity. }
  split; [exact Hloc|].
  unfold update_content. rewrite Hloc. cbv zeta. unfold slice.
  replace (s + n + length body + 1 - s)%nat with (n + length body + 1)%nat by lia.
  do 3 f_equal.
  replace (s + n + length body + 1)%nat with ((s + n) + (length body + 1))%nat by lia.
  rewrite <- drop_drop, Hdrop.
  replace (length body + 1)%nat with (length (body ++ [rbrace]))
    by (rewrite length_app; reflexivity).
  change (body ++ rbrace :: rest) with (body ++ [rbrace] ++ rest).
  rewrite app_assoc. apply drop_app_length.
Qed.

Lemma locate_section_closing_brace_witness :
  re_search (app_section_pattern 42) sample_nested_config = Some (0, 6, ts "42")%nat
  /\ drop (0 + 6) sample_nested_config = ts "a{b}c" ++ rbrace :: ts "d"
  /\ nested 0 (ts "a{b}c") = true
  /\ (locate_section sample_nested_config 42
      = Some (0, 0 + 6 + length (ts "a{b}c") + 1)%nat
      /\ update_content sample_nested_config 42
         = Some (take 0 sample_nested_config
                 ++ patch_launch_options
                      (take (6 + length (ts "a{b}c") + 1) (drop 0 sample_nested_config))
                 ++ ts "d")).
Proof.
  split; [vm_compute; reflexivity|]. split; [vm_compute; reflexivity|].
  split; [vm_compute; reflexivity|].
  apply (locate_section_closing_brace sample_nested_config 42 0 6 (ts "42")
           (ts "a{b}c") (ts "d")); vm_compute; reflexivity.
Defined.

(** X13: when no closing brace follows the opening brace of the section,
    [locate_section] returns an empty section at the start of the key, and
    [update_content] returns the text unchanged. *)
Theorem update_content_unclosed_section
  (content : text) (edge_app_id : N) (s n : nat) (g : text) :
  re_search (app_section_pattern edge_app_id) content = Some (s, n, g) ->
  ~ In rbrace (drop (s + n) content) ->
  locate_section content edge_app_id = Some (s, s)
  /\ update_content content edge_app_id = Some content.
Proof.
  intros Hre Hno.
  assert (Hloc : locate_section content edge_app_id = Some (s, s)).
  { unfold locate_section. rewrite Hre. cbv zeta.
    now rewrite brace_scan_unclosed. }
  split; [exact Hloc|].
  unfold update_content. rewrite Hloc. cbv zeta. unfold slice.
  rewrite Nat.sub_diag, take_0.
  change (patch_launch_options []) with (@nil N). cbn [app].
  now rewrite take_drop.
Qed.

Lemma update_content_unclosed_section_witness :
  re_search (app_section_pattern 42) sample_open_config = Some (1, 6, ts "42")%nat
  /\ ~ In rbrace (drop (1 + 6) sample_open_config)
  /\ (locate_section sample_open_config 42 = Some (1, 1)%nat
      /\ update_content sample_open_config 42 = Some sample_open_config).
Proof.
  assert (Hno : ~ In rbrace (drop (1 + 6) sample_open_config))
    by (vm_compute; intuition discriminate).
  split; [vm_compute; reflexivity|]. split; [exact Hno|].
  apply (update_content_unclosed_section sample_open_config 42 1 6 (ts "42"));
    [vm_compute; reflexivity|exact Hno].
Defined.

(** ** Artwork file names *)

Lemma uint_digits_inj (d d' : Decimal.uint) : uint_digits d = uint_digits d' -> d = d'.
Proof.
  revert d'. induction d; intros d'; destruct d'; cbn [uint_digits];
    try discriminate; try reflexivity; intros [= H]; f_equal; now apply IHd.
Qed.

Lemma str_of_int_inj (n m : N) : str_of_int n = str_of_int m -> n = m.
Proof.
  intros H%uint_digits_inj. now apply DecimalN.Unsigned.to_uint_inj.
Qed.

Lemma uint_digits_range (d : Decimal.uint) (c : N) :
  In c (uint_digits d) -> 48 <= c <= 57.
Proof.
  induction d; cbn [uint_digits]; [intros []|..];
    (intros [<-|Hin]; [lia|now apply IHd]).
Qed.

Lemma legacy_id_shiftr (n : N) : N.shiftr (legacy_id n) 32 = n.
Proof.
  unfold legacy_id. rewrite N.shiftr_lor, N.shiftr_shiftl_l by reflexivity.
  rewrite N.sub_diag, N.shiftl_0_r. apply N.lor_0_r.
Qed.

Lemma legacy_id_low (n : N) : N.land (legacy_id n) 0xFFFFFFFF = 0x02000000.
Proof.
  unfold legacy_id. rewrite N.land_lor_distr_l.
  replace (N.land (N.shiftl n 32) 0xFFFFFFFF) with 0; [reflexivity|].
  symmetry. apply N.bits_inj. intros k. rewrite N.land_spec, N.bits_0.
  destruct (N.lt_ge_cases k 32) as [Hlt|Hge].
  - now rewrite N.shiftl_spec_low.
  - rewrite (N.bits_above_log2 0xFFFFFFFF k) by (change (N.log2 0xFFFFFFFF) with 31; lia).
    apply andb_false_r.
Qed.

Lemma legacy_id_ne (n : N) : legacy_id n <> n.
Proof.
  intros Heq. pose proof (legacy_id_shiftr n) as Hs. rewrite Heq in Hs.
  rewrite N.shiftr_div_pow2 in Hs.
  assert (Hn : n = 0).
  { destruct (N.eq_dec n 0) as [|Hnz]; [assumption|].
    assert (n / 2 ^ 32 < n) by (apply N.div_lt; [lia|reflexivity]). lia. }
  subst n. discriminate.
Qed.

(** X14: the five names under which [apply_artwork] writes the artwork of
    an appid are pairwise different, so that no file is written over
    another; the legacy identifier of the grid image holds the appid in the
    bits from 32 up and the constant 0x02000000 in the 32 bits below. *)
Theorem artwork_names_distinct (edge_app_id : N) :
  all_artwork_names edge_app_id
  = [str_of_int edge_app_id ++ ts "p.png";
     str_of_int (legacy_id edge_app_id) ++ ts "p.png";
     str_of_int edge_app_id ++ ts "_hero.png";
     str_of_int edge_app_id ++ ts "_logo.png";
     str_of_int edge_app_id ++ ts ".png"]
  /\ List.NoDup (all_artwork_names edge_app_id)
  /\ N.shiftr (legacy_id edge_app_id) 32 = edge_app_id
  /\ N.land (legacy_id edge_app_id) 0xFFFFFFFF = 0x02000000.
Proof.
  split; [reflexivity|]. split; [|split; [apply legacy_id_shiftr|apply legacy_id_low]].
  unfold all_artwork_names. cbn [flat_map artwork_names suffix app].
  assert (Hdigit : forall Y, str_of_int edge_app_id <> Y ++ ts "p").
  { intros Y Heq.
    assert (Hp : In 112 (str_of_int edge_app_id))
      by (rewrite Heq; apply in_or_app; right; now left).
    apply uint_digits_range in Hp. lia. }
  apply List.NoDup_cons;
    [|apply List.NoDup_cons;
      [|apply List.NoDup_cons;
        [|apply List.NoDup_cons;
          [|apply List.NoDup_cons; [intros []|apply List.NoDup_nil]]]]];
    cbn [In]; intros Hin;
    repeat match goal with H : _ \/ _ |- _ => destruct H as [H|H] end;
    try contradiction;
    rewrite ?app_assoc in Hin; apply app_inv_tail in Hin;
    first
      [ apply (f_equal (@length N)) in Hin; rewrite ?length_app in Hin;
        cbn in Hin; lia
      | apply (f_equal (@rev N)) in Hin; rewrite ?rev_app_distr in Hin;
        cbn in Hin; discriminate
      | apply app_inv_tail, str_of_int_inj in Hin; now apply legacy_id_ne in Hin
      | now apply Hdigit in Hin ].
Qed.

(** ** What the section pattern asks for *)

Lemma alternatives_Some (alts : list text) (rest : text -> option nat)
  (l : text) (n : nat) (k : text) :
  alternatives alts rest l = Some (n, k) ->
  In k alts /\ exists r m, l = k ++ r /\ rest r = Some m /\ n = (length k + m)%nat.
Proof.
  induction alts as [|a alts IH]; [discriminate|]. cbn [alternatives].
  assert (Hnext : alternatives alts rest l = Some (n, k) ->
                  In k (a :: alts)
                  /\ exists r m, l = k ++ r /\ rest r = Some m /\ n = (length k + m)%nat).
  { intros H. destruct (IH H) as [Hin Hr]. split; [now right|exact Hr]. }
  destruct (strip a l) as [r|] eqn:Es; [|exact Hnext].
  destruct (rest r) as [m|] eqn:Er; [|exact Hnext].
  intros [= <- <-]. split; [now left|].
  apply strip_Some in Es. now exists r, m.
Qed.

Lemma app_section_pattern_Some (edge_app_id : N) (l : text) (n : nat) (g : text) :
  app_section_pattern edge_app_id l = Some (n, g) ->
  In g [str_of_int edge_app_id; ts "Non-Steam-App_" ++ str_of_int edge_app_id]
  /\ exists r, l = quote :: g ++ quote :: backslash :: r.
Proof.
  unfold app_section_pattern.
  destruct (strip [quote] l) as [r0|] eqn:Es; [|discriminate].
  apply strip_Some in Es. subst l.
  destruct (alternatives _ section_rest r0) as [[n' g']|] eqn:Ea; [|discriminate].
  intros [= <- <-].
  apply alternatives_Some in Ea as (Hin & r & m & -> & Hrest & _).
  split; [exact Hin|].
  apply section_rest_backslash in Hrest as [r' ->]. now exists r'.
Qed.

Lemma brace_scan_bound (l : text) :
  forall (k : Z) (i section_end : nat),
    brace_scan k i section_end l = section_end
    \/ (i < brace_scan k i section_end l <= i + length l)%nat.
Proof.
  induction l as [|c l IH]; intros k i section_end; [now left|].
  cbn [brace_scan length].
  assert (Hgo : forall k',
    brace_scan k' (S i) section_end l = section_end
    \/ (i < brace_scan k' (S i) section_end l <= i + S (length l))%nat).
  { intros k'. destruct (IH k' (S i) section_end) as [H|H]; [now left|right; lia]. }
  destruct (c =? lbrace); [apply Hgo|].
  destruct (c =? rbrace); [|apply Hgo]. cbv zeta.
  destruct (k - 1 =? 0)%Z; [right; lia|apply Hgo].
Qed.

(** X15: a section that [locate_section] returns starts at a quote, the
    decimal appid or that appid after Non-Steam-App_, a quote and a
    backslash; its end is not before its start and not beyond the end of
    the text. *)
Theorem locate_section_header
  (content : text) (edge_app_id : N) (s e : nat) :
  locate_section content edge_app_id = Some (s, e) ->
  (s <= e <= length content)%nat
  /\ exists g r,
      In g [str_of_int edge_app_id; ts "Non-Steam-App_" ++ str_of_int edge_app_id]
      /\ drop s content = quote :: g ++ quote :: backslash :: r.
Proof.
  unfold locate_section.
  destruct (re_search _ content) as [[[s' n] g]|] eqn:Er; [|discriminate].
  cbv zeta. intros [= <- <-].
  apply re_search_Some in Er as [Hp _].
  pose proof Hp as Hhead. apply app_section_pattern_Some in Hhead as (Hg & r & Hr).
  split; [|now exists g, r].
  assert (Hs : (s' < length content)%nat).
  { destruct (le_lt_dec (length content) s') as [Hge|]; [|assumption].
    rewrite drop_ge in Hr by exact Hge. discriminate. }
  destruct (brace_scan_bound (drop (s' + n) content) 1 (s' + n) s') as [->|Hb];
    [lia|].
  rewrite length_drop in Hb. lia.
Qed.

Lemma locate_section_header_witness :
  locate_section sample_nested_config 42 = Some (0, 12)%nat
  /\ ((0 <= 12 <= length sample_nested_config)%nat
      /\ exists g r,
          In g [str_of_int 42; ts "Non-Steam-App_" ++ str_of_int 42]
          /\ drop 0 sample_nested_config = quote :: g ++ quote :: backslash :: r).
Proof.
  split; [vm_compute; reflexivity|].
  apply (locate_section_header sample_nested_config 42 0 12).
  vm_compute. reflexivity.
Defined.

(** X16: in a text without a backslash no section is found, whatever the
    appid and whatever keys the text holds, and [update_content] returns
    [None]. *)
Theorem update_content_needs_backslash (content : text) (edge_app_id : N) :
  ~ In backslash content ->
  locate_section content edge_app_id = None
  /\ update_content content edge_app_id = None.
Proof.
  intros Hno.
  assert (Hloc : locate_section content edge_app_id = None).
  { destruct (locate_section content edge_app_id) as [[s e]|] eqn:El; [|reflexivity].
    unfold locate_section in El.
    destruct (re_search _ content) as [[[s' n] g]|] eqn:Er; [|discriminate].
    apply re_search_Some in Er as [Hp _].
    apply app_section_pattern_Some in Hp as (_ & r & Hr).
    destruct Hno. apply (In_drop _ s'). rewrite Hr.
    right. apply in_or_app. right. right. now left. }
  split; [exact Hloc|]. unfold update_content. now rewrite Hloc.
Qed.

Lemma update_content_needs_backslash_witness :
  ~ In backslash sample_config
  /\ locate_section sample_config 123 = None
  /\ update_content sample_config 123 = None.
Proof.
  assert (Hno : ~ In backslash sample_config) by (vm_compute; intuition discriminate).
  split; [exact Hno|].
  exact (update_content_needs_backslash sample_config 123 Hno).
Defined.
